(** * ci_review.py: excerpt resolution, result selection, batch assembly
      and submission, modelled after [generate_review/ci_review.py].

    Python values are modelled as the script has them:
    - a [str] is a sequence of Unicode code points ([list N]); [strip],
      [in], [replace], [split], [rsplit], [join] and slicing are written
      out on that representation;
    - [Optional[int]] is [option nat] for 1-based line numbers produced by
      [enumerate(..., start=1)], a JSON integer is a [Z];
    - [difflib.SequenceMatcher(None, a, b).ratio()] is a library function;
      the resolver is stated over an arbitrary scoring function, and a
      model of the library algorithm is given for running examples;
    - the tail of [main] (one POST of the review, one POST of the failure
      notice, the log ring) runs in a small state-and-exception monad. *)

From Stdlib Require Import String Ascii DecimalString.
From Stdlib Require Import List NArith ZArith QArith Lia Bool Arith Sorted.
From Stdlib Require Import Permutation.
Import ListNotations.
Close Scope Q_scope.

(* ================================================================== *)
(** ** Python strings *)
(* ================================================================== *)

Module PyStr.

(** A character is a code point, a [str] a list of them. *)
Definition char := N.
Definition str := list char.

Definition char_eqb (a b : char) : bool := N.eqb a b.

Fixpoint str_eqb (a b : str) : bool :=
  match a, b with
  | [], [] => true
  | x :: a', y :: b' => char_eqb x y && str_eqb a' b'
  | _, _ => false
  end.

(** Truthiness of a string: [if s], [not s]. *)
Definition truthy (s : str) : bool :=
  match s with [] => false | _ :: _ => true end.

(** [str.isspace] on one code point, which is also what [\s] matches
    in a [str] pattern of [re]: the code points CPython lists in
    [_PyUnicode_IsWhitespace]. *)
Definition isspace (c : char) : bool :=
  ((9 <=? c) && (c <=? 13)            (* \t \n \v \f \r *)
   || (28 <=? c) && (c <=? 31)        (* FS GS RS US *)
   || (c =? 32)                       (* space *)
   || (c =? 133)                      (* U+0085 NEL *)
   || (c =? 160)                      (* U+00A0 NBSP *)
   || (c =? 5760)                     (* U+1680 *)
   || (8192 <=? c) && (c <=? 8202)    (* U+2000 .. U+200A *)
   || (c =? 8232) || (c =? 8233)      (* U+2028, U+2029 *)
   || (c =? 8239)                     (* U+202F *)
   || (c =? 8287)                     (* U+205F *)
   || (c =? 12288))%N.                (* U+3000 ideographic space *)

Fixpoint lstrip (s : str) : str :=
  match s with
  | [] => []
  | c :: r => if isspace c then lstrip r else s
  end.

Definition rstrip (s : str) : str := rev (lstrip (rev s)).

(** [s.strip()] *)
Definition strip (s : str) : str := rstrip (lstrip s).

(** [s.startswith(p)] *)
Fixpoint startswith (p s : str) : bool :=
  match p, s with
  | [], _ => true
  | _ :: _, [] => false
  | x :: p', y :: s' => char_eqb x y && startswith p' s'
  end.

(** [sub in s] *)
Fixpoint contains (sub s : str) : bool :=
  match s with
  | [] => match sub with [] => true | _ => false end
  | _ :: r => startswith sub s || contains sub r
  end.

(** [sep.join(parts)] *)
Fixpoint join (sep : str) (parts : list str) : str :=
  match parts with
  | [] => []
  | [p] => p
  | p :: rest => p ++ sep ++ join sep rest
  end.

(** [s.replace(old, new)] for a non-empty [old]: scan from the left,
    replace each occurrence found and continue after it. [skip] counts
    the characters of a matched occurrence still to be dropped. *)
Fixpoint replace_aux (old new : str) (skip : nat) (s : str) : str :=
  match s with
  | [] => []
  | c :: r =>
      match skip with
      | S k => replace_aux old new k r
      | O =>
          if startswith old s
          then new ++ replace_aux old new (Nat.pred (List.length old)) r
          else c :: replace_aux old new 0 r
      end
  end.

Definition replace (old new s : str) : str := replace_aux old new 0 s.

(** [s.count(sub)] for a non-empty [sub]: the occurrences met by the
    same scan, which do not overlap. *)
Fixpoint count_aux (sub : str) (skip : nat) (s : str) : nat :=
  match s with
  | [] => 0
  | _ :: r =>
      match skip with
      | S k => count_aux sub k r
      | O =>
          if startswith sub s
          then S (count_aux sub (Nat.pred (List.length sub)) r)
          else count_aux sub 0 r
      end
  end.

Definition count (sub s : str) : nat := count_aux sub 0 s.

(** [s.split(sep, 1)[1]]: what follows the leftmost occurrence of
    [sep]; [None] stands for the [IndexError] raised when [sep] does
    not occur (the list then has one element only). *)
Fixpoint split1_snd (sep s : str) : option str :=
  match s with
  | [] => None
  | _ :: r =>
      if startswith sep s then Some (skipn (length sep) s)
      else split1_snd sep r
  end.

(** [s.rsplit(".", 1)[0]] for a one-character separator: what
    precedes the last occurrence of [c], the whole string when [c]
    does not occur. [None] from the helper means "no occurrence in
    this suffix". *)
Fixpoint rsplit1_aux (c : char) (s : str) : option str :=
  match s with
  | [] => None
  | x :: r =>
      match rsplit1_aux c r with
      | Some before => Some (x :: before)
      | None => if char_eqb x c then Some [] else None
      end
  end.

Definition rsplit1_fst (c : char) (s : str) : str :=
  match rsplit1_aux c s with Some before => before | None => s end.

(** [l[-n:]] for [n > 0] and [l[:n]] *)
Definition last_n {A} (n : nat) (l : list A) : list A :=
  skipn (length l - n) l.

(** Decoding the UTF-8 bytes of a literal of this file into code
    points, so that constants can be written as the source has them. *)
Fixpoint utf8_decode (bs : list N) : str :=
  match bs with
  | [] => []
  | b0 :: r0 =>
      if (b0 <? 128)%N then b0 :: utf8_decode r0
      else if (b0 <? 224)%N then
        match r0 with
        | b1 :: r1 =>
            (N.lor (N.shiftl (N.land b0 31) 6) (N.land b1 63)) :: utf8_decode r1
        | [] => []
        end
      else if (b0 <? 240)%N then
        match r0 with
        | b1 :: b2 :: r2 =>
            (N.lor (N.shiftl (N.land b0 15) 12)
               (N.lor (N.shiftl (N.land b1 63) 6) (N.land b2 63)))
              :: utf8_decode r2
        | _ => []
        end
      else
        match r0 with
        | b1 :: b2 :: b3 :: r3 =>
            (N.lor (N.shiftl (N.land b0 7) 18)
               (N.lor (N.shiftl (N.land b1 63) 12)
                  (N.lor (N.shiftl (N.land b2 63) 6) (N.land b3 63))))
              :: utf8_decode r3
        | _ => []
        end
  end.

Definition py (s : string) : str :=
  utf8_decode (map (fun a => N_of_ascii a) (list_ascii_of_string s)).

(** [str(n)] for a non-negative integer *)
Definition str_of_nat (n : nat) : str :=
  py (NilEmpty.string_of_uint (Nat.to_uint n)).

(** The specification side of [in]: [sub] occurs in [s]. *)
Definition Substring (sub s : str) : Prop :=
  exists pre post, s = pre ++ sub ++ post.

End PyStr.
Import PyStr.

(* ================================================================== *)
(** ** difflib.SequenceMatcher(None, a, b).ratio() *)
(* ================================================================== *)

(** A model of the library algorithm (CPython's [difflib], no junk
    predicate, [autojunk] left at its default), used to run the resolver
    on concrete inputs. The properties of the resolver below are proved
    for every scoring function and do not depend on it.

    The library returns the double [2.0 * matches / length]; the model
    returns the exact quotient. Both the quotient and the constant [0.6]
    are rounded to nearest, rounding is monotone, and two different
    quotients with lengths below 2^26 are never rounded to one double, so
    the comparisons [score > best_score] and [best_score >= 0.6] of the
    source agree with the comparisons of the exact values. *)
Module Difflib.

Definition occurrences (c : char) (b : str) : nat :=
  List.length (filter (char_eqb c) b).

(** [bpopular]: with 200 elements or more, an element that occurs more
    than [n // 100 + 1] times is dropped from [b2j]. *)
Definition popular (b : str) (c : char) : bool :=
  (200 <=? List.length b) && (List.length b / 100 + 1 <? occurrences c b).

Definition Match := (nat * nat * nat)%type.
Definition size_of (m : Match) : nat := snd m.

(** One iteration of the outer loop of [find_longest_match]: [prev] is
    [j2len] of the previous [i] (absent keys read as 0), the result is
    [newj2len] and the best block so far. *)
Fixpoint row_scan (pop : char -> bool) (ai : char) (i : nat)
    (b : str) (j : nat) (prev_jm1 : nat) (prev : list nat)
    (blo bhi : nat) (best : Match) : list nat * Match :=
  match b, prev with
  | bj :: b', pj :: prev' =>
      let k := if (blo <=? j) && (j <? bhi) && char_eqb ai bj && negb (pop bj)
               then S prev_jm1 else 0 in
      let best' := if size_of best <? k then (i + 1 - k, j + 1 - k, k) else best in
      let '(row, best'') := row_scan pop ai i b' (S j) pj prev' blo bhi best' in
      (k :: row, best'')
  | _, _ => ([], best)
  end.

Fixpoint rows (pop : char -> bool) (a_part : str) (i : nat) (b : str)
    (prev : list nat) (blo bhi : nat) (best : Match) : Match :=
  match a_part with
  | [] => best
  | ai :: rest =>
      let '(row, best') := row_scan pop ai i b 0 0 prev blo bhi best in
      rows pop rest (S i) b row blo bhi best'
  end.

Fixpoint extend_left (fuel : nat) (a b : str) (alo blo : nat) (m : Match) : Match :=
  match fuel with
  | O => m
  | S fuel' =>
      let '(besti, bestj, bestsize) := m in
      if (alo <? besti) && (blo <? bestj)
         && char_eqb (nth (besti - 1) a 0%N) (nth (bestj - 1) b 0%N)
      then extend_left fuel' a b alo blo (besti - 1, bestj - 1, S bestsize)
      else m
  end.

Fixpoint extend_right (fuel : nat) (a b : str) (ahi bhi : nat) (m : Match) : Match :=
  match fuel with
  | O => m
  | S fuel' =>
      let '(besti, bestj, bestsize) := m in
      if (besti + bestsize <? ahi) && (bestj + bestsize <? bhi)
         && char_eqb (nth (besti + bestsize) a 0%N) (nth (bestj + bestsize) b 0%N)
      then extend_right fuel' a b ahi bhi (besti, bestj, S bestsize)
      else m
  end.

Definition find_longest_match (a b : str) (alo ahi blo bhi : nat) : Match :=
  let a_part := skipn alo (firstn ahi a) in
  let best := rows (popular b) a_part alo b (repeat 0 (List.length b)) blo bhi (alo, blo, 0) in
  let best := extend_left (List.length a) a b alo blo best in
  extend_right (List.length a) a b ahi bhi best.

(** The sum of the sizes of [get_matching_blocks]: the longest block,
    then the same to its left and to its right. Every level takes at
    least one element of [a] away, so [fuel] above the length of [a] is
    never used up. *)
Fixpoint matches (fuel : nat) (a b : str) (alo ahi blo bhi : nat) : nat :=
  match fuel with
  | O => 0
  | S fuel' =>
      let '(i, j, k) := find_longest_match a b alo ahi blo bhi in
      if k =? 0 then 0
      else k
           + (if (alo <? i) && (blo <? j) then matches fuel' a b alo i blo j else 0)
           + (if (i + k <? ahi) && (j + k <? bhi)
              then matches fuel' a b (i + k) ahi (j + k) bhi else 0)
  end.

Definition ratio (a b : str) : Q :=
  let la := List.length a in
  let lb := List.length b in
  match (la + lb)%nat with
  | O => 1%Q
  | S _ => Qmake (Z.of_nat (2 * matches (S la) a b 0 la 0 lb)%nat) (Pos.of_nat (la + lb)%nat)
  end.

End Difflib.

(* ================================================================== *)
(** ** Excerpt resolver: find_lineno_by_excerpt *)
(* ================================================================== *)

(** [re.sub(r"\s+", " ", s)]: every maximal run of whitespace becomes
    one space. [in_run] says that the previous character was part of
    the run being replaced. *)
Fixpoint collapse_ws (in_run : bool) (s : str) : str :=
  match s with
  | [] => []
  | c :: r =>
      if isspace c
      then (if in_run then collapse_ws true r else 32%N :: collapse_ws true r)
      else c :: collapse_ws false r
  end.

(** The local function [norm] of the resolver. *)
Definition norm (s : str) : str := strip (collapse_ws false s).

(** The acceptance threshold of the fuzzy pass. *)
Definition threshold : Q := (6 # 10)%Q.

Definition Qlt_bool (x y : Q) : bool := negb (Qle_bool y x).

Section Resolver.

(** [ratio a b] stands for [difflib.SequenceMatcher(None, a, b).ratio()]. *)
Variable ratio : str -> str -> Q.

(** First loop: [for i, ln in enumerate(original_lines, start=1):
    if ex in ln: return i]. *)
Fixpoint exact_pass (i : nat) (lines : list str) (ex : str) : option nat :=
  match lines with
  | [] => None
  | ln :: rest => if contains ex ln then Some i else exact_pass (S i) rest ex
  end.

(** Second loop, on the state [(best_i, best_score)]. *)
Fixpoint fuzzy_pass (i : nat) (lines : list str) (exn : str)
    (best : option nat * Q) : option nat * Q :=
  match lines with
  | [] => best
  | ln :: rest =>
      let score := ratio exn (norm ln) in
      fuzzy_pass (S i) rest exn
        (if Qlt_bool (snd best) score then (Some i, score) else best)
  end.

(** [best_i if (best_i and best_score >= 0.6) else None]; [best_i] is
    falsy when it is [None] or [0]. *)
Definition accept (best : option nat * Q) : option nat :=
  match fst best with
  | Some i => if negb (i =? 0) && Qle_bool threshold (snd best) then Some i else None
  | None => None
  end.

(** [excerpt] has type [str] in the source, where [excerpt or ""] is
    [excerpt] itself. *)
Definition find_lineno_by_excerpt (original_lines : list str) (excerpt : str)
    : option nat :=
  let ex := strip excerpt in
  if negb (truthy ex) then None
  else
    match exact_pass 1 original_lines ex with
    | Some i => Some i
    | None =>
        let exn := norm ex in
        accept (fuzzy_pass 1 original_lines exn (None, 0%Q))
    end.

End Resolver.

(* ================================================================== *)
(** ** Result selector: pick_latest_result_jsons_for_stem *)
(* ================================================================== *)

(** The result of [json.loads] on a result file, in the shape the script
    reads: every key may be absent (or [null]), which [dict.get] turns
    into [None]. *)
Inductive Axes :=
| AxesStr (s : str)
| AxesList (l : list str).

Record ReviewItem := {
  it_line : option str;        (* "line": the excerpt *)
  it_comment : option str;     (* "comment" *)
  it_detail : option str;      (* "detail" *)
  it_axis : option Axes;       (* "axis" *)
  it_axes : option Axes;       (* "axes" *)
  it_lineno : option Z         (* "lineno" *)
}.

Record ResultData := {
  overall : option str;
  summary : option str;
  review_items : option (list ReviewItem);
  comments : option (list ReviewItem)
}.

(** A file of [generate_review_result/]: [p.name], [p.stat().st_mtime]
    and what reading and parsing it gives ([inl e]: [json.loads] raises
    an exception whose [str()] is [e]).
    The modification time is a double in the source; only its order is
    used, and every double is an integer multiple of 2^-1074, so an
    integer carries it. *)
Record ResultFile := {
  name : str;
  st_mtime : Z;
  content : str + ResultData
}.

(** [sorted(..., key=lambda p: p.stat().st_mtime, reverse=True)]: the
    stable sort, most recent first; files with equal times keep the
    order in which [glob] produced them. *)
Fixpoint insert_desc (p : ResultFile) (l : list ResultFile) : list ResultFile :=
  match l with
  | [] => [p]
  | q :: r =>
      if (st_mtime q <=? st_mtime p)%Z then p :: l
      else q :: insert_desc p r
  end.

Fixpoint sorted_desc (l : list ResultFile) : list ResultFile :=
  match l with
  | [] => []
  | p :: r => insert_desc p (sorted_desc r)
  end.

(** [name.split("__", 1)[1].rsplit(".", 1)[0]]; [None] when the
    expression raises, which is when ["__"] does not occur. *)
Definition model_of (nm : str) : option str :=
  match split1_snd (py "__") nm with
  | Some rest => Some (rsplit1_fst 46%N rest)
  | None => None
  end.

(** [latest_per_model], a [dict] in insertion order. *)
Definition Dict := list (str * ResultFile).

Fixpoint dict_has (d : Dict) (k : str) : bool :=
  match d with
  | [] => false
  | (k', _) :: r => str_eqb k' k || dict_has r k
  end.

(** The body of the loop over [candidates]. *)
Definition pick_step (latest_per_model : Dict) (p : ResultFile) : Dict :=
  match model_of (name p) with
  | None => latest_per_model                       (* except: continue *)
  | Some model =>
      if negb (dict_has latest_per_model model)
      then latest_per_model ++ [(model, p)]
      else latest_per_model
  end.

(** [globbed] is what [RESULT_DIR.glob(f"{stem}__*.json")] yields, in
    the order it yields it. *)
Definition pick_latest_result_jsons_for_stem (globbed : list ResultFile)
    : list ResultFile :=
  let candidates := sorted_desc globbed in
  let latest_per_model := fold_left pick_step candidates [] in
  map snd latest_per_model.

(* ================================================================== *)
(** ** Rendering: _sanitize_fence and render_ai_review_comment *)
(* ================================================================== *)

Definition backtick : char := 96%N.
Definition zwsp : char := 8203%N.           (* U+200B *)
Definition fence : str := [backtick; backtick; backtick].
Definition newline : str := [10%N].

(** The replacement: a zero-width space between the backticks. *)
Definition weakened : str := [backtick; backtick; zwsp; backtick].

Definition _sanitize_fence (s : str) : str :=
  replace fence weakened (strip s).

(** [a or b or ""] on two [dict.get] results. *)
Definition or_str (a b : option str) : str :=
  match a with
  | Some s => if truthy s then s else match b with Some t => if truthy t then t else [] | None => [] end
  | None => match b with Some t => if truthy t then t else [] | None => [] end
  end.

Definition axes_truthy (a : Axes) : bool :=
  match a with
  | AxesStr s => truthy s
  | AxesList l => match l with [] => false | _ => true end
  end.

(** [it.get("axis") or it.get("axes") or []] *)
Definition or_axes (a b : option Axes) : Axes :=
  match a with
  | Some x => if axes_truthy x then x
              else match b with Some y => if axes_truthy y then y else AxesList [] | None => AxesList [] end
  | None => match b with Some y => if axes_truthy y then y else AxesList [] | None => AxesList [] end
  end.

(** What [", ".join] iterates over: the elements of a list, the
    characters of a string. *)
Definition axes_elements (a : Axes) : list str :=
  match a with
  | AxesStr s => map (fun c => [c]) s
  | AxesList l => l
  end.

Definition render_ai_review_comment (excerpt detail : str) (axes : Axes) : str :=
  let ex := _sanitize_fence excerpt in
  let dt := strip detail in
  let ax := join (py ", ") (axes_elements axes) in
  let parts := [
    py "### AI Review";
    [];
    (if truthy ax then py "**axes:** " ++ ax else []);
    [];
    py "**excerpt:**";
    py "```text";
    ex;
    py "```";
    [];
    dt
  ] in
  join newline (filter truthy parts).

(* ================================================================== *)
(** ** Effects: the log ring, standard output and HTTP requests *)
(* ================================================================== *)

(** The JSON bodies the script sends. *)
Record ReviewComment := {
  rc_path : str;
  rc_line : Z;
  rc_side : str;
  rc_body : str
}.

Inductive Payload :=
| ReviewPayload (body : str) (event : str) (comments : list ReviewComment)
| CommentPayload (body : str)
| InlinePayload (commit_id path side : str) (line : Z) (body : str).

Record Request := {
  url : str;
  bearer : str;
  json : Payload
}.

(** What [requests.post] does: it raises, or returns a response with a
    status code and a text. *)
Inductive Response :=
| Raises (msg : str)
| Responds (status_code : nat) (text : str).

(** The calls of the posting functions, a ghost trace kept to count
    them. *)
Inductive Call :=
| CallPullReview (review_body : str) (review_comments : list ReviewComment)
| CallIssueComment (body : str)
| CallInlineComment (path : str) (line : Z) (body : str).

Record World := {
  LOG_RING : list str;          (* deque(maxlen=1000) *)
  stdout : list str;            (* lines printed *)
  http : list Request;          (* requests sent, oldest first *)
  calls : list Call             (* ghost: posting functions entered *)
}.

(** Every exception the modelled code meets is an [Exception]; [msg] is
    its [str()]. *)
Inductive exc := Exception (msg : str).

Definition str_of_exc (e : exc) : str := match e with Exception m => m end.

Inductive Outcome (A : Type) :=
| Returns (a : A)
| Raised (e : exc).
Arguments Returns {A} a.
Arguments Raised {A} e.

Definition M (A : Type) : Type := World -> Outcome A * World.

Definition ret {A} (a : A) : M A := fun w => (Returns a, w).

Definition bind {A B} (c : M A) (k : A -> M B) : M B :=
  fun w =>
    match c w with
    | (Returns a, w') => k a w'
    | (Raised e, w') => (Raised e, w')
    end.

Definition raise {A} (e : exc) : M A := fun w => (Raised e, w).

(** [try: body  except Exception as e: handler(e)] *)
Definition try_except {A} (body : M A) (handler : exc -> M A) : M A :=
  fun w =>
    match body w with
    | (Returns a, w') => (Returns a, w')
    | (Raised e, w') => handler e w'
    end.

Declare Scope monad_scope.
Delimit Scope monad_scope with monad.
Notation "x <- c ;; k" := (bind c (fun x => k))
  (at level 61, c at next level, right associativity) : monad_scope.
Notation "c ;; k" := (bind c (fun _ => k))
  (at level 61, right associativity) : monad_scope.
Open Scope monad_scope.

Definition maxlen : nat := 1000.

(** [LOG_RING.append(x)]: the oldest entry leaves a full ring. *)
Definition ring_append (x : str) (ring : list str) : list str :=
  last_n maxlen (ring ++ [x]).

Definition log_append (x : str) : M unit :=
  fun w => (Returns tt,
            {| LOG_RING := ring_append x (LOG_RING w); stdout := stdout w;
               http := http w; calls := calls w |}).

Definition print (x : str) : M unit :=
  fun w => (Returns tt,
            {| LOG_RING := LOG_RING w; stdout := stdout w ++ [x];
               http := http w; calls := calls w |}).

Definition read_log : M (list str) := fun w => (Returns (LOG_RING w), w).

Definition enter (c : Call) : M unit :=
  fun w => (Returns tt,
            {| LOG_RING := LOG_RING w; stdout := stdout w;
               http := http w; calls := calls w ++ [c] |}).

Definition info (msg : str) : M unit :=
  print (py "[ci_review] " ++ msg) ;;
  log_append (py "[INFO] " ++ msg).

Definition warn (msg : str) : M unit :=
  print (py "[ci_review][warn] " ++ msg) ;;
  log_append (py "[WARN] " ++ msg).

Section Transport.

(** [requests.post], as a function of the requests sent before and of
    the request. *)
Variable requests_post : list Request -> Request -> Response.

Definition send (rq : Request) : M Response :=
  fun w => (Returns (requests_post (http w) rq),
            {| LOG_RING := LOG_RING w; stdout := stdout w;
               http := http w ++ [rq]; calls := calls w |}).

(** One attempt of [gh_post]: the body of its [try]. *)
Definition attempt (rq : Request) : M Response :=
  r <- send rq ;;
  match r with
  | Raises msg => raise (Exception msg)
  | Responds status_code text =>
      if 300 <=? status_code
      then raise (Exception (py "POST " ++ url rq ++ py " failed: "
                             ++ str_of_nat status_code ++ py " " ++ text))
      else ret r
  end.

(** [for i in range(1, max_tries+1)]: [left] iterations remain, the
    current one is number [i]. The loop ends without a value only when
    [max_tries] is 0. [time.sleep] has no counterpart here. *)
Fixpoint gh_post_loop (rq : Request) (max_tries left i : nat) : M (option Response) :=
  match left with
  | O => ret None
  | S left' =>
      try_except
        (r <- attempt rq ;; ret (Some r))
        (fun e =>
           if i =? max_tries then raise e
           else
             warn (py "POST retry " ++ str_of_nat i ++ py "/"
                   ++ str_of_nat (max_tries - 1) ++ py " after error: "
                   ++ str_of_exc e) ;;
             gh_post_loop rq max_tries left' (S i))
  end.

(** [gh_post(url, token, payload, max_tries)] *)
Definition gh_post (u token : str) (payload : Payload) (max_tries : nat)
    : M (option Response) :=
  gh_post_loop {| url := u; bearer := token; json := payload |}
    max_tries max_tries 1.

(** The default of [max_tries], which every call of the script uses. *)
Definition default_max_tries : nat := 3.

Definition post_issue_comment (repo : str) (pr_number : nat) (token body : str) : M unit :=
  enter (CallIssueComment body) ;;
  gh_post (py "https://api.github.com/repos/" ++ repo ++ py "/issues/"
           ++ str_of_nat pr_number ++ py "/comments")
          token (CommentPayload body) default_max_tries ;;
  ret tt.

(** [review_body or ""] is [review_body] on a [str]. *)
Definition post_pull_review (repo : str) (pr_number : nat) (token review_body : str)
    (review_comments : list ReviewComment) : M unit :=
  enter (CallPullReview review_body review_comments) ;;
  gh_post (py "https://api.github.com/repos/" ++ repo ++ py "/pulls/"
           ++ str_of_nat pr_number ++ py "/reviews")
          token (ReviewPayload review_body (py "COMMENT") review_comments)
          default_max_tries ;;
  ret tt.

(** Defined by the script, called nowhere in it. *)
Definition post_inline_comment (repo : str) (pr_number : nat) (token commit_sha path : str)
    (line : Z) (body : str) : M unit :=
  enter (CallInlineComment path line body) ;;
  gh_post (py "https://api.github.com/repos/" ++ repo ++ py "/pulls/"
           ++ str_of_nat pr_number ++ py "/comments")
          token (InlinePayload commit_sha path (py "RIGHT") line body)
          default_max_tries ;;
  ret tt.

End Transport.

(* ================================================================== *)
(** ** main, from the collected results to the submission *)
(* ================================================================== *)

(** An element of [inline_comments]. *)
Record InlineComment := {
  ic_path : str;
  ic_line : Z;
  ic_body : str
}.

(** A changed SRS file as the assembling loop of [main] sees it: its
    repository path, [read_text().splitlines()] of the file on disk and
    what the glob for its stem yields. *)
Record SrsFile := {
  repo_rel : str;
  disk_lines : list str;
  globbed : list ResultFile
}.

(** The three variables of the environment read for the notice. *)
Record Environ := {
  GITHUB_SERVER_URL : option str;
  GITHUB_REPOSITORY : option str;
  GITHUB_RUN_ID : option str
}.

(** [data.get("review_items") or data.get("comments") or []] *)
Definition or_items (a b : option (list ReviewItem)) : list ReviewItem :=
  match a with
  | Some (x :: l) => x :: l
  | _ => match b with Some l => l | None => [] end
  end.

(** [x or 1] on the resolver's result. *)
Definition or_one (r : option nat) : nat :=
  match r with
  | Some i => if i =? 0 then 1 else i
  | None => 1
  end.

Definition MAX_OVERALL_LEN : nat := 4000.
Definition MAX_INLINE : nat := 80.

Fixpoint fold_M {S A} (step : S -> A -> M S) (l : list A) (s : S) : M S :=
  match l with
  | [] => ret s
  | x :: r => s' <- step s x ;; fold_M step r s'
  end.

Section Main.

Variable ratio : str -> str -> Q.
Variable requests_post : list Request -> Request -> Response.

(** [str(RESULT_DIR)], and what [main] read from the environment before
    the modelled part. *)
Variable RESULT_DIR : str.
Variable repo : str.
Variable pr_number : nat.
Variable token : str.
Variable environ : Environ.

(** The line number of an item that passed the filter:
    [lineno = it.get("lineno")], replaced by the resolver's result [or 1]
    when it is falsy (absent, [null] or [0]), then [int(lineno)]. *)
Definition lineno_of (lines : list str) (excerpt : str) (it : ReviewItem) : Z :=
  match it_lineno it with
  | Some z =>
      if (z =? 0)%Z
      then Z.of_nat (or_one (find_lineno_by_excerpt ratio lines excerpt))
      else z
  | None => Z.of_nat (or_one (find_lineno_by_excerpt ratio lines excerpt))
  end.

(** The body of [for it in items]. *)
Definition item_step (path : str) (lines : list str)
    (inline_comments : list InlineComment) (it : ReviewItem) : list InlineComment :=
  let excerpt := strip (or_str (it_line it) None) in
  let detail := or_str (it_comment it) (it_detail it) in
  let axes := or_axes (it_axis it) (it_axes it) in
  if negb (truthy excerpt) || negb (truthy detail) then inline_comments
  else
    let lineno := lineno_of lines excerpt it in
    let body := render_ai_review_comment excerpt detail axes in
    inline_comments ++ [{| ic_path := path; ic_line := lineno; ic_body := body |}].

(** The body of [for jp in related], on the pair
    [(overall_chunks, inline_comments)]. *)
Definition record_step (path : str) (lines : list str)
    (acc : list str * list InlineComment) (jp : ResultFile)
    : M (list str * list InlineComment) :=
  match content jp with
  | inl e =>
      warn (py "invalid json: " ++ RESULT_DIR ++ py "/" ++ name jp
            ++ py " (" ++ e ++ py ")") ;;
      ret acc
  | inr data =>
      let ov := or_str (overall data) (summary data) in
      let chunks :=
        if truthy ov
        then fst acc ++ [py "**" ++ path ++ py "**" ++ newline ++ ov]
        else fst acc in
      let items := or_items (review_items data) (comments data) in
      ret (chunks, fold_left (item_step path lines) items (snd acc))
  end.

(** The body of [for f in srs_files]; an empty [related] leaves the
    accumulators as they are. *)
Definition file_step (acc : list str * list InlineComment) (f : SrsFile)
    : M (list str * list InlineComment) :=
  let related := pick_latest_result_jsons_for_stem (globbed f) in
  fold_M (record_step (repo_rel f) (disk_lines f)) related acc.

Definition review_body_of (overall_chunks : list str) : str :=
  match overall_chunks with
  | [] => []
  | _ => firstn MAX_OVERALL_LEN (join (newline ++ newline) overall_chunks)
  end.

Definition payload_of (inline_comments : list InlineComment) : list ReviewComment :=
  map (fun c => {| rc_path := ic_path c; rc_line := ic_line c;
                   rc_side := py "RIGHT"; rc_body := ic_body c |})
      (firstn MAX_INLINE inline_comments).

Definition get_or (v : option str) (default : str) : str :=
  match v with Some s => s | None => default end.

(** [run_url], [None] when [GITHUB_RUN_ID] is unset or empty. *)
Definition run_url : option str :=
  let server := get_or (GITHUB_SERVER_URL environ) (py "https://github.com") in
  let repo_env := get_or (GITHUB_REPOSITORY environ) repo in
  match GITHUB_RUN_ID environ with
  | Some run_id =>
      if truthy run_id
      then Some (server ++ py "/" ++ repo_env ++ py "/actions/runs/" ++ run_id)
      else None
  | None => None
  end.

(** The list [lines] of the failure notice, given the exception, the
    batch and the log ring as it stands when the notice is composed. *)
Definition notice_lines (e : exc) (review_body : str)
    (review_comments_payload : list ReviewComment) (ring : list str) : list str :=
  let lines := [
    py "CI レビューの投稿に失敗しました。詳細を確認してください。";
    [];
    py "- 失敗理由 (例外):";
    py "```text";
    str_of_exc e;
    py "```";
    py "- 総評の有無: " ++ (if truthy review_body then py "あり" else py "なし");
    py "- インライン予定件数: " ++ str_of_nat (List.length review_comments_payload)
  ] in
  let lines :=
    match run_url with
    | Some u => lines ++ [[]; py "Actions の実行ログ: " ++ u]
    | None => lines
    end in
  let tail_lines := last_n 120 ring in
  let lines :=
    match tail_lines with
    | [] => lines
    | _ => lines ++ [
        [];
        py "- ログ抜粋 (末尾 120 行):";
        py "```text";
        _sanitize_fence (join newline tail_lines);
        py "```"
      ]
    end in
  lines ++ [
    [];
    py "必要に応じて PR にラベル `ci-review` を付け直して再実行してください。"
  ].

(** The [try] around [post_pull_review] with its handler. *)
Definition submit (review_body : str) (review_comments_payload : list ReviewComment)
    : M unit :=
  try_except
    (post_pull_review requests_post repo pr_number token review_body
       review_comments_payload ;;
     info (py "Posted review: overall="
           ++ (if truthy review_body then py "yes" else py "no")
           ++ py ", inline=" ++ str_of_nat (List.length review_comments_payload)))
    (fun e =>
       warn (py "post_pull_review failed: " ++ str_of_exc e) ;;
       ring <- read_log ;;
       let lines := notice_lines e review_body review_comments_payload ring in
       try_except
         (post_issue_comment requests_post repo pr_number token (join newline lines) ;;
          info (py "Posted failure notice comment instead of inline fallback."))
         (fun e2 =>
            warn (py "failed to post failure notice: " ++ str_of_exc e2))).

(** [main] from [overall_chunks: List[str] = []] to its end: the
    assembling loop, the two caps and the submission. What comes before
    (the environment, the changed files, the runner, the head commit) and
    the reading of the files from disk are inputs here. *)
Definition main (srs_files : list SrsFile) : M unit :=
  acc <- fold_M file_step srs_files ([], []) ;;
  let review_body := review_body_of (fst acc) in
  let review_comments_payload := payload_of (snd acc) in
  submit review_body review_comments_payload.

End Main.

(* ================================================================== *)
(** ** Numbering the lines, GET requests and the changed files *)
(* ================================================================== *)

(** [c] ends a line for [str.splitlines]: LF, VT, FF, CR, FS, GS, RS,
    NEL, LS and PS. *)
Definition is_linebreak (c : char) : bool :=
  ((10 <=? c) && (c <=? 13)
   || (28 <=? c) && (c <=? 30)
   || (c =? 133) || (c =? 8232) || (c =? 8233))%N.

(** [s.splitlines()]: the lines without their ends; CR LF is one end,
    and no empty line is added after the last end. *)
Fixpoint splitlines (s : str) : list str :=
  match s with
  | [] => []
  | c :: r =>
      if is_linebreak c then
        [] :: (if (c =? 13)%N
               then match r with
                    | d :: r' => if (d =? 10)%N then splitlines r' else splitlines r
                    | [] => splitlines r
                    end
               else splitlines r)
      else
        match splitlines r with
        | [] => [[c]]
        | l :: ls => (c :: l) :: ls
        end
  end.

(** [f"{i:04d}"] for a non-negative [i]: at least four digits. *)
Definition fmt04 (i : nat) : str :=
  let digits := str_of_nat i in
  repeat 48%N (4 - List.length digits) ++ digits.

(** [f"{i:04d}│ {line}" for i, line in enumerate(lines, i)] *)
Fixpoint number_lines (i : nat) (lines : list str) : list str :=
  match lines with
  | [] => []
  | line :: rest => (fmt04 i ++ py "│ " ++ line) :: number_lines (S i) rest
  end.

(** [number_srs], from the text read from the file to the text written
    to the temporary file. *)
Definition number_srs (text : str) : str :=
  join newline (number_lines 1 (splitlines text)).

(** An element of the answer of the pull-request files API; the script
    reads its [filename]. *)
Record ChangedFile := {
  filename : str;
  status : str
}.

Section Get.

(** What [requests.get(url, headers, params)] followed by
    [r.raise_for_status()] gives at attempt [i] of a call of [gh_get]:
    an exception with its [str()], or the response, here its parsed
    body. [params] is the pair [(page, per_page)], when given. *)
Variable Body : Type.
Variable requests_get : str -> option (nat * nat) -> nat -> str + Body.

(** The loop of [gh_get], as for [gh_post_loop]. *)
Fixpoint gh_get_loop (u : str) (params : option (nat * nat))
    (max_tries left i : nat) : M (option Body) :=
  match left with
  | O => ret None
  | S left' =>
      try_except
        (match requests_get u params i with
         | inl msg => raise (Exception msg)
         | inr r => ret (Some r)
         end)
        (fun e =>
           if i =? max_tries then raise e
           else
             warn (py "GET retry " ++ str_of_nat i ++ py "/"
                   ++ str_of_nat (max_tries - 1) ++ py " after error: "
                   ++ str_of_exc e) ;;
             gh_get_loop u params max_tries left' (S i))
  end.

(** [gh_get(url, token, params, max_tries)]; the token goes into the
    headers of the request. *)
Definition gh_get (u token : str) (params : option (nat * nat)) (max_tries : nat)
    : M (option Body) :=
  gh_get_loop u params max_tries max_tries 1.

End Get.

Section ChangedFiles.

Variable requests_get : str -> option (nat * nat) -> nat -> str + list ChangedFile.

(** The [while True] of [get_changed_files], from page [page] with the
    files collected so far. [fuel] bounds the number of pages asked for;
    [None] says that it ran out, which the source has no counterpart
    for. [gh_get] gives no response only with [max_tries = 0], where
    [r.json()] would raise. *)
Fixpoint get_changed_files_loop (u token : str) (fuel page : nat)
    (files : list ChangedFile) : M (option (list ChangedFile)) :=
  match fuel with
  | O => ret None
  | S fuel' =>
      r <- gh_get (list ChangedFile) requests_get u token (Some (page, 100))
             default_max_tries ;;
      match r with
      | None => raise (Exception (py "'NoneType' object has no attribute 'json'"))
      | Some batch =>
          let files' := files ++ batch in
          if List.length batch <? 100 then ret (Some files')
          else get_changed_files_loop u token fuel' (S page) files'
      end
  end.

Definition get_changed_files (repo : str) (pr_number : nat) (token : str)
    (fuel : nat) : M (option (list ChangedFile)) :=
  get_changed_files_loop
    (py "https://api.github.com/repos/" ++ repo ++ py "/pulls/"
     ++ str_of_nat pr_number ++ py "/files")
    token fuel 1 [].

End ChangedFiles.

(** A string in which whitespace occurs only as single spaces:
    [prev_ws] says that the character before [s] is whitespace. *)
Fixpoint collapsed (prev_ws : bool) (s : str) : bool :=
  match s with
  | [] => true
  | c :: r =>
      if isspace c
      then (c =? 32)%N && negb prev_ws && collapsed true r
      else collapsed false r
  end.

(** [s.endswith(suf)] *)
Definition endswith (suf s : str) : bool := startswith (rev suf) (rev s).

(** The test of [main] on an entry of the changed files:
    [f["filename"].startswith("docs/SRS/") and f["filename"].endswith(".md")] *)
Definition is_srs_file (f : ChangedFile) : bool :=
  startswith (py "docs/SRS/") (filename f) && endswith (py ".md") (filename f).

(** [srs_files = [f for f in files if ...]] *)
Definition select_srs_files (files : list ChangedFile) : list ChangedFile :=
  filter is_srs_file files.

(* ================================================================== *)
(** ** Vocabulary of the statements *)
(* ================================================================== *)

(** Line [k] of a document, counted from 1. *)
Definition line_at (lines : list str) (k : nat) : option str :=
  match k with
  | O => None
  | S j => nth_error lines j
  end.

(** [k] is the first line of [lines] in which [ex] occurs. *)
Definition first_line_containing (ex : str) (lines : list str) (k : nat) : Prop :=
  (exists ln, line_at lines k = Some ln /\ Substring ex ln)
  /\ forall j lj, j < k -> line_at lines j = Some lj -> ~ Substring ex lj.

(** The similarity the fuzzy pass computes for a line: both sides
    normalized, the excerpt after trimming. *)
Definition similarity (ratio : str -> str -> Q) (excerpt ln : str) : Q :=
  ratio (norm (strip excerpt)) (norm ln).

(** The words of [s]: its maximal runs of characters that are not
    whitespace, in their order. *)
Fixpoint words (s : str) : list str :=
  match s with
  | [] => []
  | c :: r =>
      if isspace c then words r
      else
        match r with
        | [] => [[c]]
        | d :: _ =>
            if isspace d then [c] :: words r
            else match words r with
                 | w :: ws => (c :: w) :: ws
                 | [] => [[c]]
                 end
        end
  end.

(** The normal form of the specification, not taken from the code:
    every run of whitespace between two words is one space, and the runs
    at both ends are gone. It is the words of [s] with one space between
    neighbours. *)
Definition whitespace_normalized (s : str) : str := join [32%N] (words s).

(** The storage key [nm] read under the convention [<stem>__<model>]
    with the extension stripped, in the words of the specification and
    not taken from the code: [stem] is what stands before the first
    double underscore of the key (no double underscore begins inside
    [stem]), and [model] is what stands between that double underscore
    and the last dot after it, or all that follows it when no dot
    does. *)
Definition key_reads (nm stem model : str) : Prop :=
  ~ Substring (py "__") (stem ++ py "_")
  /\ ((exists ext, ~ In 46%N ext
                   /\ nm = stem ++ py "__" ++ model ++ py "." ++ ext)
      \/ (~ In 46%N model /\ nm = stem ++ py "__" ++ model)).

(** [model] is the model name of the key [nm]. *)
Definition model_named (nm model : str) : Prop :=
  exists stem, key_reads nm stem model.

(** The storage key parses under the [<stem>__<model>] convention. *)
Definition parses (p : ResultFile) : bool :=
  match model_of (name p) with
  | Some _ => true
  | None => false
  end.

(** Most recent first. *)
Definition newer_or_equal (p q : ResultFile) : Prop :=
  (st_mtime q <= st_mtime p)%Z.

(** What an item carries, as the loop reads it. *)
Definition excerpt_of (it : ReviewItem) : str := strip (or_str (it_line it) None).
Definition detail_of (it : ReviewItem) : str := or_str (it_comment it) (it_detail it).
Definition axes_of (it : ReviewItem) : Axes := or_axes (it_axis it) (it_axes it).

(** The item passes the filter on empty excerpt and empty detail. *)
Definition survives (it : ReviewItem) : bool :=
  truthy (excerpt_of it) && truthy (detail_of it).

(** The resolver's line for an excerpt, 1 when it is unresolved. *)
Definition resolved_line (ratio : str -> str -> Q) (lines : list str)
    (excerpt : str) : Z :=
  match find_lineno_by_excerpt ratio lines excerpt with
  | Some k => Z.of_nat k
  | None => 1%Z
  end.

(** The inline comment of an item that passes the filter. *)
Definition comment_of (ratio : str -> str -> Q) (path : str) (lines : list str)
    (it : ReviewItem) : InlineComment :=
  {| ic_path := path;
     ic_line := lineno_of ratio lines (excerpt_of it) it;
     ic_body := render_ai_review_comment (excerpt_of it) (detail_of it) (axes_of it) |}.

(** What a record, a file and the whole run contribute, in the order
    "files, then records, then items". *)
Definition chunks_of_record (path : str) (jp : ResultFile) : list str :=
  match content jp with
  | inl _ => []
  | inr data =>
      let ov := or_str (overall data) (summary data) in
      if truthy ov then [py "**" ++ path ++ py "**" ++ newline ++ ov] else []
  end.

Definition comments_of_record (ratio : str -> str -> Q) (path : str)
    (lines : list str) (jp : ResultFile) : list InlineComment :=
  match content jp with
  | inl _ => []
  | inr data =>
      map (comment_of ratio path lines)
          (filter survives (or_items (review_items data) (comments data)))
  end.

Definition chunks_of_file (f : SrsFile) : list str :=
  flat_map (chunks_of_record (repo_rel f))
           (pick_latest_result_jsons_for_stem (globbed f)).

Definition comments_of_file (ratio : str -> str -> Q) (f : SrsFile)
    : list InlineComment :=
  flat_map (comments_of_record ratio (repo_rel f) (disk_lines f))
           (pick_latest_result_jsons_for_stem (globbed f)).

Definition all_chunks (srs_files : list SrsFile) : list str :=
  flat_map chunks_of_file srs_files.

Definition all_comments (ratio : str -> str -> Q) (srs_files : list SrsFile)
    : list InlineComment :=
  flat_map (comments_of_file ratio) srs_files.

Definition to_review_comment (c : InlineComment) : ReviewComment :=
  {| rc_path := ic_path c; rc_line := ic_line c;
     rc_side := py "RIGHT"; rc_body := ic_body c |}.

(** Every triple backtick of [s] comes right after a zero-width space;
    in particular none stands at the start of [s], at the start of a
    line, or after indentation only. *)
Definition guarded (s : str) : Prop :=
  forall pre post, s = pre ++ fence ++ post -> exists pre', pre = pre' ++ [zwsp].

(** The world after [info msg] and after [warn msg]. *)
Definition after_info (msg : str) (w : World) : World :=
  {| LOG_RING := ring_append (py "[INFO] " ++ msg) (LOG_RING w);
     stdout := stdout w ++ [py "[ci_review] " ++ msg];
     http := http w; calls := calls w |}.

Definition after_warn (msg : str) (w : World) : World :=
  {| LOG_RING := ring_append (py "[WARN] " ++ msg) (LOG_RING w);
     stdout := stdout w ++ [py "[ci_review][warn] " ++ msg];
     http := http w; calls := calls w |}.


(** The four parts of the failure notice: the summary with the
    exception, the presence of an overall text and the number of inline
    comments; the link to the run; the excerpt of the log; the closing
    advice. The link is written out from the environment: the server,
    [https://github.com] when [GITHUB_SERVER_URL] is not set, the
    repository, [repo] when [GITHUB_REPOSITORY] is not set, and the run;
    there is no link when [GITHUB_RUN_ID] is not set or empty. *)
Definition notice_head (e : exc) (review_body : str)
    (payload : list ReviewComment) : list str :=
  [ py "CI レビューの投稿に失敗しました。詳細を確認してください。";
    [];
    py "- 失敗理由 (例外):";
    py "```text";
    str_of_exc e;
    py "```";
    py "- 総評の有無: " ++ (if truthy review_body then py "あり" else py "なし");
    py "- インライン予定件数: " ++ str_of_nat (List.length payload) ].

Definition notice_link (repo : str) (environ : Environ) : list str :=
  match GITHUB_RUN_ID environ with
  | Some (c :: run_id) =>
      [ [];
        py "Actions の実行ログ: "
        ++ match GITHUB_SERVER_URL environ with
           | Some server => server
           | None => py "https://github.com"
           end
        ++ py "/"
        ++ match GITHUB_REPOSITORY environ with
           | Some repository => repository
           | None => repo
           end
        ++ py "/actions/runs/" ++ c :: run_id ]
  | _ => []
  end.

Definition notice_log (ring : list str) : list str :=
  [ [];
    py "- ログ抜粋 (末尾 120 行):";
    py "```text";
    _sanitize_fence (join newline (last_n 120 ring));
    py "```" ].

Definition notice_foot : list str :=
  [ [];
    py "必要に応じて PR にラベル `ci-review` を付け直して再実行してください。" ].

(** The request of the combined review and the request of the notice. *)
Definition review_request (repo : str) (pr_number : nat) (token review_body : str)
    (review_comments : list ReviewComment) : Request :=
  {| url := py "https://api.github.com/repos/" ++ repo ++ py "/pulls/"
            ++ str_of_nat pr_number ++ py "/reviews";
     bearer := token;
     json := ReviewPayload review_body (py "COMMENT") review_comments |}.

Definition notice_request (repo : str) (pr_number : nat) (token body : str)
    : Request :=
  {| url := py "https://api.github.com/repos/" ++ repo ++ py "/issues/"
            ++ str_of_nat pr_number ++ py "/comments";
     bearer := token;
     json := CommentPayload body |}.

(** The server takes the request: [requests.post] returns a response
    with a status below 300. *)
Definition accepted (requests_post : list Request -> Request -> Response)
    (sent : list Request) (rq : Request) : bool :=
  match requests_post sent rq with
  | Raises _ => false
  | Responds status_code _ => negb (300 <=? status_code)
  end.

(** Starting from [w], the computation left [w'] after sending [rq] [n]
    times and nothing else, entering no posting function; every request
    but the last was refused. *)
Definition sent_only (requests_post : list Request -> Request -> Response)
    (rq : Request) (n : nat) (w w' : World) : Prop :=
  http w' = http w ++ repeat rq n
  /\ calls w' = calls w
  /\ forall k, S k < n -> accepted requests_post (http w ++ repeat rq k) rq = false.

(* ================================================================== *)
(** * Properties *)
(* ================================================================== *)

(** ** Strings *)

Lemma char_eqb_eq (a b : char) : char_eqb a b = true <-> a = b.
Proof. unfold char_eqb. apply N.eqb_eq. Qed.

Lemma str_eqb_eq (a b : str) : str_eqb a b = true <-> a = b.
Proof.
  revert b. induction a as [|x a IH]; intros [|y b]; simpl; split; intro H;
    try reflexivity; try discriminate.
  - apply andb_true_iff in H. destruct H as [Hx Ha].
    apply char_eqb_eq in Hx. apply IH in Ha. congruence.
  - inversion H; subst. apply andb_true_iff. split.
    + now apply char_eqb_eq.
    + now apply IH.
Qed.

Lemma truthy_false (s : str) : truthy s = false <-> s = [].
Proof. destruct s; simpl; split; intro H; congruence. Qed.

Lemma truthy_true (s : str) : truthy s = true <-> s <> [].
Proof. destruct s; simpl; split; intro H; congruence. Qed.

Lemma startswith_spec (p s : str) :
  startswith p s = true <-> exists t, s = p ++ t.
Proof.
  revert s. induction p as [|x p IH]; intros s; simpl.
  - split; [intros _; now exists s | reflexivity].
  - destruct s as [|y s].
    + split; [discriminate | intros [t Ht]; discriminate].
    + rewrite andb_true_iff, char_eqb_eq, IH. split.
      * intros [-> [t ->]]. now exists t.
      * intros [t Ht]. inversion Ht; subst. split; [reflexivity | now exists t].
Qed.

Lemma contains_spec (sub s : str) :
  contains sub s = true <-> Substring sub s.
Proof.
  unfold Substring. induction s as [|c s IH]; simpl.
  - destruct sub as [|x sub]; split.
    + intros _. now exists [], [].
    + reflexivity.
    + discriminate.
    + intros [pre [post H]]. destruct pre; discriminate.
  - rewrite orb_true_iff. split.
    + intros [H | H].
      * apply startswith_spec in H. destruct H as [t Ht].
        exists [], t. exact Ht.
      * apply IH in H. destruct H as [pre [post ->]].
        now exists (c :: pre), post.
    + intros [pre [post H]]. destruct pre as [|y pre]; simpl in H.
      * left. apply startswith_spec. now exists post.
      * right. apply IH. inversion H; subst. now exists pre, post.
Qed.

Lemma contains_false (sub s : str) :
  contains sub s = false <-> ~ Substring sub s.
Proof.
  rewrite <- contains_spec. destruct (contains sub s); split; intro H;
    congruence.
Qed.

Lemma Substring_trans (a b c : str) :
  Substring a b -> Substring b c -> Substring a c.
Proof.
  intros [p1 [q1 ->]] [p2 [q2 ->]]. exists (p2 ++ p1), (q1 ++ q2).
  now rewrite <- !app_assoc.
Qed.

Lemma lstrip_suffix (s : str) : exists pre, s = pre ++ lstrip s.
Proof.
  induction s as [|c s [pre IH]]; simpl.
  - now exists [].
  - destruct (isspace c).
    + exists (c :: pre). simpl. now f_equal.
    + now exists [].
Qed.

(** What [strip] keeps is a piece of what it was given, so a line that
    contains the excerpt contains the trimmed excerpt too. *)
Lemma strip_Substring (s : str) : Substring (strip s) s.
Proof.
  unfold strip, rstrip.
  destruct (lstrip_suffix s) as [pre Hpre].
  destruct (lstrip_suffix (rev (lstrip s))) as [suf Hsuf].
  exists pre, (rev suf).
  rewrite <- rev_app_distr, <- Hsuf, rev_involutive. exact Hpre.
Qed.

Lemma in_join_Substring (sep x : str) (l : list str) :
  In x l -> Substring x (join sep l).
Proof.
  induction l as [|y l IH]; intros H; [contradiction|].
  destruct H as [-> | H].
  - destruct l as [|z l]; simpl.
    + exists [], []. now rewrite app_nil_r.
    + exists [], (sep ++ join sep (z :: l)). reflexivity.
  - destruct l as [|z l]; [contradiction|].
    destruct (IH H) as [pre [post E]].
    change (join sep (y :: z :: l)) with (y ++ sep ++ join sep (z :: l)).
    rewrite E. exists (y ++ sep ++ pre), post.
    now rewrite <- !app_assoc.
Qed.

(** ** The resolver *)

Lemma Qlt_bool_iff (x y : Q) : Qlt_bool x y = true <-> (x < y)%Q.
Proof.
  unfold Qlt_bool. rewrite negb_true_iff. split.
  - intros H. apply Qnot_le_lt. intros Hle.
    apply Qle_bool_iff in Hle. congruence.
  - intros H. destruct (Qle_bool y x) eqn:E; [|reflexivity].
    apply Qle_bool_iff in E. exfalso. exact (Qlt_not_le _ _ H E).
Qed.

Lemma Qlt_bool_false (x y : Q) : Qlt_bool x y = false <-> (y <= x)%Q.
Proof.
  unfold Qlt_bool. rewrite negb_false_iff. apply Qle_bool_iff.
Qed.

Lemma line_at_In (lines : list str) (k : nat) (ln : str) :
  line_at lines k = Some ln -> In ln lines.
Proof.
  destruct k as [|j]; simpl; [discriminate|]. apply nth_error_In.
Qed.

Lemma line_at_bounds (lines : list str) (k : nat) (ln : str) :
  line_at lines k = Some ln -> 1 <= k <= List.length lines.
Proof.
  destruct k as [|j]; simpl; [discriminate|]. intros H.
  assert (j < List.length lines) by (apply nth_error_Some; congruence). lia.
Qed.

Lemma In_line_at (lines : list str) (ln : str) :
  In ln lines -> exists k, line_at lines k = Some ln.
Proof.
  intros H. apply In_nth_error in H. destruct H as [j Hj]. now exists (S j).
Qed.

(** The first loop returns the first index whose line contains [ex]. *)
Lemma exact_pass_Some (lines : list str) (ex : str) (i k : nat) :
  exact_pass i lines ex = Some k ->
  exists j ln, k = i + j /\ nth_error lines j = Some ln /\ Substring ex ln
    /\ forall j' ln', j' < j -> nth_error lines j' = Some ln' -> ~ Substring ex ln'.
Proof.
  revert i. induction lines as [|l lines IH]; intros i; simpl; [discriminate|].
  destruct (contains ex l) eqn:E.
  - intros H. inversion H; subst. exists 0, l. repeat split.
    + lia.
    + now apply contains_spec.
    + intros j' ln' Hj. lia.
  - intros H. apply IH in H. destruct H as [j [ln [-> [Hn [Hs Hbefore]]]]].
    exists (S j), ln. repeat split; [lia | exact Hn | exact Hs |].
    intros [|j'] ln' Hlt Hn'; simpl in Hn'.
    + inversion Hn'; subst. now apply contains_false.
    + apply (Hbefore j'); [lia | exact Hn'].
Qed.

Lemma exact_pass_None (lines : list str) (ex : str) (i : nat) :
  exact_pass i lines ex = None <-> forall ln, In ln lines -> ~ Substring ex ln.
Proof.
  revert i. induction lines as [|l lines IH]; intros i; simpl.
  - split; [intros _ ln [] | reflexivity].
  - destruct (contains ex l) eqn:E.
    + split; [discriminate|]. intros H. exfalso.
      apply (H l); [now left | now apply contains_spec].
    + rewrite IH. split.
      * intros H ln [<- | Hin]; [now apply contains_false | now apply H].
      * intros H ln Hin. apply H. now right.
Qed.

Section FuzzyPass.

Variable ratio : str -> str -> Q.
Variable exn : str.

Let score (ln : str) : Q := ratio exn (norm ln).

(** The second loop, from any state: the final score bounds every score
    seen; either no line improved on the initial state, or the final
    index is the first line that reaches the final score. *)
Lemma fuzzy_pass_spec (lines : list str) (i : nat) (b : option nat * Q) :
  let r := fuzzy_pass ratio i lines exn b in
  (snd b <= snd r)%Q
  /\ (forall ln, In ln lines -> (score ln <= snd r)%Q)
  /\ ((r = b /\ forall ln, In ln lines -> (score ln <= snd b)%Q)
      \/ exists j ln,
           fst r = Some (i + j) /\ nth_error lines j = Some ln
           /\ snd r = score ln /\ (snd b < score ln)%Q
           /\ forall j' ln', j' < j -> nth_error lines j' = Some ln' ->
                (score ln' < score ln)%Q).
Proof.
  revert i b. induction lines as [|l lines IH]; intros i b; simpl.
  - split; [apply Qle_refl|]. split; [intros ln []|].
    left. split; [reflexivity | intros ln []].
  - fold (score l).
    set (b' := if Qlt_bool (snd b) (score l) then (Some i, score l) else b).
    destruct (IH (S i) b') as [Hmono [Hall Hcase]].
    assert (Hb : (snd b <= snd b')%Q).
    { unfold b'. destruct (Qlt_bool (snd b) (score l)) eqn:E; simpl.
      - apply Qlt_bool_iff in E. now apply Qlt_le_weak.
      - apply Qle_refl. }
    assert (Hl : (score l <= snd b')%Q).
    { unfold b'. destruct (Qlt_bool (snd b) (score l)) eqn:E; simpl.
      - apply Qle_refl.
      - now apply Qlt_bool_false in E. }
    split; [eapply Qle_trans; eassumption|].
    split.
    { intros ln [<- | Hin]; [eapply Qle_trans; eassumption | now apply Hall]. }
    destruct Hcase as [[Hr Hrest] | [j [ln [Hfst [Hn [Hsnd [Hlt Hbefore]]]]]]].
    + rewrite Hr. unfold b' in *.
      destruct (Qlt_bool (snd b) (score l)) eqn:E.
      * right. exists 0, l. simpl. repeat split.
        -- f_equal. lia.
        -- now apply Qlt_bool_iff.
        -- intros j' ln' Hj. lia.
      * left. split; [reflexivity|].
        intros ln [<- | Hin]; [now apply Qlt_bool_false | now apply Hrest].
    + right. exists (S j), ln. simpl. repeat split.
      * rewrite Hfst. f_equal. lia.
      * exact Hn.
      * exact Hsnd.
      * eapply Qle_lt_trans; eassumption.
      * intros [|j'] ln' Hj Hn'; simpl in Hn'.
        -- inversion Hn'; subst. eapply Qle_lt_trans; eassumption.
        -- apply (Hbefore j'); [lia | exact Hn'].
Qed.

(** From the initial state [(None, 0.0)] and index 1, followed by the
    acceptance test. *)
Lemma accept_fuzzy_None (lines : list str) :
  accept (fuzzy_pass ratio 1 lines exn (None, 0%Q)) = None
  <-> forall ln, In ln lines -> (score ln < threshold)%Q.
Proof.
  destruct (fuzzy_pass_spec lines 1 (None, 0%Q)) as [_ [Hall Hcase]].
  set (r := fuzzy_pass ratio 1 lines exn (None, 0%Q)) in *.
  destruct Hcase as [[Hr Hrest] | [j [ln [Hfst [Hn [Hsnd [Hlt _]]]]]]].
  - rewrite Hr. unfold accept. simpl. split; [|reflexivity].
    intros _ ln Hin. eapply Qle_lt_trans; [now apply Hrest|]. reflexivity.
  - unfold accept. rewrite Hfst. simpl.
    destruct (Qle_bool threshold (snd r)) eqn:E.
    + split; [discriminate|]. intros H. exfalso.
      apply Qle_bool_iff in E. rewrite Hsnd in E.
      apply (Qlt_not_le _ _ (H ln (nth_error_In _ _ Hn)) E).
    + split; [|reflexivity]. intros _ ln' Hin.
      eapply Qle_lt_trans; [now apply Hall|].
      apply Qnot_le_lt. intros Hle. apply Qle_bool_iff in Hle. congruence.
Qed.

Lemma accept_fuzzy_Some (lines : list str) (k : nat) :
  accept (fuzzy_pass ratio 1 lines exn (None, 0%Q)) = Some k ->
  exists lk, line_at lines k = Some lk
    /\ (threshold <= score lk)%Q
    /\ (forall ln, In ln lines -> (score ln <= score lk)%Q)
    /\ forall j lj, j < k -> line_at lines j = Some lj -> (score lj < score lk)%Q.
Proof.
  destruct (fuzzy_pass_spec lines 1 (None, 0%Q)) as [_ [Hall Hcase]].
  set (r := fuzzy_pass ratio 1 lines exn (None, 0%Q)) in *.
  destruct Hcase as [[Hr _] | [j [ln [Hfst [Hn [Hsnd [_ Hbefore]]]]]]].
  - rewrite Hr. unfold accept. simpl. discriminate.
  - unfold accept. rewrite Hfst. simpl.
    destruct (Qle_bool threshold (snd r)) eqn:E; [|discriminate].
    intros H. inversion H; subst k. exists ln. simpl. repeat split.
    + exact Hn.
    + apply Qle_bool_iff in E. now rewrite Hsnd in E.
    + intros ln' Hin. rewrite <- Hsnd. now apply Hall.
    + intros [|j'] lj Hj Hlj; simpl in Hlj; [discriminate|].
      apply (Hbefore j'); [lia | exact Hlj].
Qed.

End FuzzyPass.

(** When the resolver gives no line. *)
Lemma find_lineno_None_iff (ratio : str -> str -> Q) (lines : list str)
    (excerpt : str) :
  find_lineno_by_excerpt ratio lines excerpt = None
  <-> (strip excerpt = []
       \/ ((forall ln, In ln lines -> ~ Substring (strip excerpt) ln)
           /\ forall ln, In ln lines ->
                (similarity ratio excerpt ln < threshold)%Q)).
Proof.
  unfold find_lineno_by_excerpt, similarity.
  destruct (truthy (strip excerpt)) eqn:T; simpl.
  - apply truthy_true in T.
    destruct (exact_pass 1 lines (strip excerpt)) as [k|] eqn:E.
    + split; [discriminate|]. intros [H | [H _]]; [contradiction|].
      apply (proj2 (exact_pass_None lines (strip excerpt) 1)) in H. congruence.
    + rewrite accept_fuzzy_None.
      pose proof (proj1 (exact_pass_None lines (strip excerpt) 1) E) as Hno.
      split.
      * intros H. right. split; assumption.
      * intros [H | [_ H]]; [contradiction | exact H].
  - apply truthy_false in T. split; [now left | reflexivity].
Qed.

(** Where the resolver's answer lies, and what the fuzzy pass returns. *)
Lemma find_lineno_Some (ratio : str -> str -> Q) (lines : list str)
    (excerpt : str) (k : nat) :
  find_lineno_by_excerpt ratio lines excerpt = Some k ->
  1 <= k <= List.length lines
  /\ ((forall ln, In ln lines -> ~ Substring (strip excerpt) ln) ->
      exists lk, line_at lines k = Some lk
        /\ (threshold <= similarity ratio excerpt lk)%Q
        /\ (forall ln, In ln lines ->
              (similarity ratio excerpt ln <= similarity ratio excerpt lk)%Q)
        /\ forall j lj, j < k -> line_at lines j = Some lj ->
              (similarity ratio excerpt lj < similarity ratio excerpt lk)%Q).
Proof.
  unfold find_lineno_by_excerpt, similarity.
  destruct (truthy (strip excerpt)); simpl; [|discriminate].
  destruct (exact_pass 1 lines (strip excerpt)) as [k'|] eqn:E.
  - intros H. inversion H; subst k'. split.
    + apply exact_pass_Some in E. destruct E as [j [ln [-> [Hn _]]]].
      assert (j < List.length lines) by (apply nth_error_Some; congruence). lia.
    + intros Hno. apply (proj2 (exact_pass_None lines (strip excerpt) 1)) in Hno.
      congruence.
  - intros H. apply accept_fuzzy_Some in H. split.
    + destruct H as [lk [Hk _]]. eapply line_at_bounds; eassumption.
    + intros _. exact H.
Qed.

(** C1. Exact substring pass. The resolver first trims the excerpt; when
    the trimmed excerpt is not empty and occurs in at least one line, the
    result is the 1-based index of the first line in which it occurs, and
    it is the same for every scoring function: the fuzzy pass has no part
    in it. *)
Theorem C1_exact_pass_first_line (lines : list str) (excerpt : str) :
  strip excerpt <> [] ->
  (exists ln, In ln lines /\ Substring (strip excerpt) ln) ->
  exists k,
    first_line_containing (strip excerpt) lines k
    /\ forall ratio, find_lineno_by_excerpt ratio lines excerpt = Some k.
Proof.
  intros Hne [ln [Hin Hsub]].
  destruct (exact_pass 1 lines (strip excerpt)) as [k|] eqn:E.
  - exists k. split.
    + apply exact_pass_Some in E.
      destruct E as [j [l [-> [Hn [Hs Hbefore]]]]]. split.
      * exists l. split; [exact Hn | exact Hs].
      * intros [|j'] lj Hj Hlj; simpl in Hlj; [discriminate|].
        apply (Hbefore j'); [lia | exact Hlj].
    + intros ratio. unfold find_lineno_by_excerpt.
      apply truthy_true in Hne. rewrite Hne. simpl. now rewrite E.
  - exfalso.
    exact (proj1 (exact_pass_None lines (strip excerpt) 1) E ln Hin Hsub).
Qed.

(** C10. Every line number the resolver returns lies between 1 and the
    number of lines. In the fuzzy pass (trimmed excerpt not empty, no line
    contains it), when a line [m] attains the maximal similarity and that
    maximum is at least 0.6, the resolver returns the earliest line with
    that similarity: its index is at most [m] and every line before it
    scores strictly less. *)
Theorem C10_fuzzy_earliest_maximum (ratio : str -> str -> Q)
    (lines : list str) (excerpt : str) :
  (forall k, find_lineno_by_excerpt ratio lines excerpt = Some k ->
             1 <= k <= List.length lines)
  /\ (strip excerpt <> [] ->
      (forall ln, In ln lines -> ~ Substring (strip excerpt) ln) ->
      forall m lm,
        line_at lines m = Some lm ->
        (forall ln, In ln lines ->
           (similarity ratio excerpt ln <= similarity ratio excerpt lm)%Q) ->
        (threshold <= similarity ratio excerpt lm)%Q ->
        exists k lk,
          find_lineno_by_excerpt ratio lines excerpt = Some k
          /\ line_at lines k = Some lk
          /\ (similarity ratio excerpt lk == similarity ratio excerpt lm)%Q
          /\ k <= m
          /\ forall j lj, j < k -> line_at lines j = Some lj ->
               (similarity ratio excerpt lj < similarity ratio excerpt lk)%Q).
Proof.
  split.
  - intros k H. now apply find_lineno_Some in H.
  - intros Hne Hno m lm Hm Hmax Hthr.
    destruct (find_lineno_by_excerpt ratio lines excerpt) as [k|] eqn:F.
    + apply find_lineno_Some in F. destruct F as [_ F].
      destruct (F Hno) as [lk [Hk [_ [Hall Hbefore]]]].
      exists k, lk. repeat split.
      * exact Hk.
      * apply Qle_antisym.
        -- apply Hmax. eapply line_at_In; eassumption.
        -- apply Hall. eapply line_at_In; eassumption.
      * destruct (le_lt_dec k m) as [Hle | Hlt]; [exact Hle|]. exfalso.
        apply (Qlt_not_le _ _ (Hbefore m lm Hlt Hm)).
        apply Hmax. eapply line_at_In; eassumption.
      * exact Hbefore.
    + exfalso. apply find_lineno_None_iff in F.
      destruct F as [F | [_ F]]; [contradiction|].
      apply (Qlt_not_le _ _ (F lm (line_at_In _ _ _ Hm)) Hthr).
Qed.

(** C1 on a document where the trimmed excerpt occurs in lines 2 and 3. *)
Lemma C1_exact_pass_first_line_witness :
  let lines := [py "intro"; py "the quick brown fox"; py "brown fox, again"] in
  let excerpt := py "  brown fox " in
  strip excerpt <> []
  /\ (exists ln, In ln lines /\ Substring (strip excerpt) ln)
  /\ exists k,
       first_line_containing (strip excerpt) lines k
       /\ forall ratio, find_lineno_by_excerpt ratio lines excerpt = Some k.
Proof.
  intros lines excerpt.
  assert (Hne : strip excerpt <> []) by (vm_compute; discriminate).
  assert (Hex : exists ln, In ln lines /\ Substring (strip excerpt) ln).
  { exists (py "brown fox, again"). split.
    - simpl. auto.
    - apply contains_spec. vm_compute. reflexivity. }
  split; [exact Hne|]. split; [exact Hex|].
  exact (C1_exact_pass_first_line lines excerpt Hne Hex).
Defined.

(** C10 on two lines that score the same 0.8 against the excerpt. *)
Lemma C10_fuzzy_earliest_maximum_witness :
  let lines := [py "abcdX"; py "abcdY"] in
  let excerpt := py "abcdZ" in
  1 <= 1 <= List.length lines
  /\ exists k lk,
       find_lineno_by_excerpt Difflib.ratio lines excerpt = Some k
       /\ line_at lines k = Some lk
       /\ (similarity Difflib.ratio excerpt lk
           == similarity Difflib.ratio excerpt (py "abcdY"))%Q
       /\ k <= 2
       /\ forall j lj, j < k -> line_at lines j = Some lj ->
            (similarity Difflib.ratio excerpt lj
             < similarity Difflib.ratio excerpt lk)%Q.
Proof.
  intros lines excerpt.
  destruct (C10_fuzzy_earliest_maximum Difflib.ratio lines excerpt) as [Hb Hf].
  split.
  - apply Hb. vm_compute. reflexivity.
  - apply Hf.
    + vm_compute. discriminate.
    + intros ln [<- | [<- | []]]; apply contains_false; vm_compute; reflexivity.
    + reflexivity.
    + intros ln [<- | [<- | []]]; apply Qle_bool_iff; vm_compute; reflexivity.
    + apply Qle_bool_iff. vm_compute. reflexivity.
Defined.

(** ** The result selector *)

Lemma insert_desc_In (p x : ResultFile) (l : list ResultFile) :
  In x (insert_desc p l) <-> x = p \/ In x l.
Proof.
  induction l as [|q r IH]; simpl.
  - intuition.
  - destruct (st_mtime q <=? st_mtime p)%Z; simpl; rewrite ?IH; intuition.
Qed.

Lemma sorted_desc_In (x : ResultFile) (l : list ResultFile) :
  In x (sorted_desc l) <-> In x l.
Proof.
  induction l as [|p r IH]; simpl; [reflexivity|].
  rewrite insert_desc_In, IH. intuition.
Qed.

Lemma insert_desc_sorted (p : ResultFile) (l : list ResultFile) :
  StronglySorted newer_or_equal l ->
  StronglySorted newer_or_equal (insert_desc p l).
Proof.
  induction 1 as [|q r Hr IH Hq]; simpl.
  - constructor; constructor.
  - destruct (st_mtime q <=? st_mtime p)%Z eqn:E.
    + apply Z.leb_le in E. constructor.
      * now constructor.
      * constructor; [exact E|].
        eapply Forall_impl; [|exact Hq]. unfold newer_or_equal. intros a Ha. lia.
    + apply Z.leb_gt in E. constructor; [exact IH|].
      apply Forall_forall. intros x Hx. apply insert_desc_In in Hx.
      destruct Hx as [-> | Hx].
      * unfold newer_or_equal. lia.
      * rewrite Forall_forall in Hq. now apply Hq.
Qed.

Lemma sorted_desc_sorted (l : list ResultFile) :
  StronglySorted newer_or_equal (sorted_desc l).
Proof.
  induction l as [|p r IH]; simpl; [constructor | now apply insert_desc_sorted].
Qed.

Lemma sorted_after (l1 l2 : list ResultFile) (p : ResultFile) :
  StronglySorted newer_or_equal (l1 ++ p :: l2) ->
  Forall (newer_or_equal p) l2.
Proof.
  induction l1 as [|q l1 IH]; simpl; intros H; inversion H; subst; auto.
Qed.

(** The sort is stable, so it commutes with dropping files. *)
Lemma insert_desc_front (p : ResultFile) (l : list ResultFile) :
  Forall (newer_or_equal p) l -> insert_desc p l = p :: l.
Proof.
  destruct l as [|q r]; simpl; [reflexivity|]. intros H. inversion H; subst.
  unfold newer_or_equal in *.
  destruct (st_mtime q <=? st_mtime p)%Z eqn:E; [reflexivity|].
  apply Z.leb_gt in E. lia.
Qed.

Lemma filter_insert_desc (f : ResultFile -> bool) (p : ResultFile)
    (l : list ResultFile) :
  StronglySorted newer_or_equal l ->
  filter f (insert_desc p l)
  = if f p then insert_desc p (filter f l) else filter f l.
Proof.
  induction 1 as [|q r Hr IH Hq]; simpl.
  - destruct (f p); reflexivity.
  - destruct (st_mtime q <=? st_mtime p)%Z eqn:E; simpl.
    + destruct (f p) eqn:Fp; [|reflexivity].
      destruct (f q) eqn:Fq; simpl.
      * now rewrite E.
      * symmetry. apply insert_desc_front.
        apply Z.leb_le in E. apply Forall_forall. intros x Hx.
        apply filter_In in Hx. destruct Hx as [Hx _].
        rewrite Forall_forall in Hq. specialize (Hq x Hx).
        unfold newer_or_equal in *. lia.
    + rewrite IH. destruct (f q) eqn:Fq; destruct (f p) eqn:Fp; simpl;
        rewrite ?E; reflexivity.
Qed.

Lemma filter_sorted_desc (f : ResultFile -> bool) (l : list ResultFile) :
  filter f (sorted_desc l) = sorted_desc (filter f l).
Proof.
  induction l as [|p r IH]; simpl; [reflexivity|].
  rewrite filter_insert_desc by apply sorted_desc_sorted.
  destruct (f p); simpl; now rewrite IH.
Qed.

Lemma dict_has_In (d : Dict) (k : str) :
  dict_has d k = true <-> In k (map fst d).
Proof.
  induction d as [|[k' v] d IH]; simpl.
  - split; [discriminate | contradiction].
  - rewrite orb_true_iff, str_eqb_eq, IH. reflexivity.
Qed.

Lemma dict_has_not_In (d : Dict) (k : str) :
  dict_has d k = false <-> ~ In k (map fst d).
Proof.
  rewrite <- dict_has_In. destruct (dict_has d k); split; intro H; congruence.
Qed.

(** The loop over the candidates, from any dictionary: it only appends,
    and an appended entry is the first candidate of its model. *)
Lemma pick_fold_entries (l : list ResultFile) (d : Dict) :
  exists ext,
    fold_left pick_step l d = d ++ ext
    /\ forall m p, In (m, p) ext ->
         model_of (name p) = Some m
         /\ ~ In m (map fst d)
         /\ exists l1 l2, l = l1 ++ p :: l2
              /\ forall q, In q l1 -> model_of (name q) <> Some m.
Proof.
  revert d. induction l as [|p l IH]; intros d; simpl.
  - exists []. split; [now rewrite app_nil_r | intros m q []].
  - unfold pick_step at 2. destruct (model_of (name p)) as [m0|] eqn:Mp.
    + destruct (dict_has d m0) eqn:Hd; simpl.
      * destruct (IH d) as [ext [E Hext]]. exists ext. split; [exact E|].
        intros m q Hin. destruct (Hext m q Hin) as [Hm [Hnd [l1 [l2 [-> Hl1]]]]].
        split; [exact Hm|]. split; [exact Hnd|].
        exists (p :: l1), l2. split; [reflexivity|].
        intros x [<- | Hx]; [|now apply Hl1].
        rewrite Mp. intros Heq. inversion Heq; subst.
        apply dict_has_In in Hd. contradiction.
      * destruct (IH (d ++ [(m0, p)])) as [ext [E Hext]].
        exists ((m0, p) :: ext). split; [now rewrite E, <- app_assoc|].
        apply dict_has_not_In in Hd.
        intros m q [Heq | Hin].
        -- inversion Heq; subst. split; [exact Mp|]. split; [exact Hd|].
           exists [], l. split; [reflexivity | intros x []].
        -- destruct (Hext m q Hin) as [Hm [Hnd [l1 [l2 [-> Hl1]]]]].
           rewrite map_app, in_app_iff in Hnd. simpl in Hnd.
           split; [exact Hm|]. split; [tauto|].
           exists (p :: l1), l2. split; [reflexivity|].
           intros x [<- | Hx]; [|now apply Hl1].
           rewrite Mp. intros Heq. inversion Heq; subst. tauto.
    + destruct (IH d) as [ext [E Hext]]. exists ext. split; [exact E|].
      intros m q Hin. destruct (Hext m q Hin) as [Hm [Hnd [l1 [l2 [-> Hl1]]]]].
      split; [exact Hm|]. split; [exact Hnd|].
      exists (p :: l1), l2. split; [reflexivity|].
      intros x [<- | Hx]; [|now apply Hl1]. rewrite Mp. discriminate.
Qed.

Lemma pick_step_keys (d : Dict) (p : ResultFile) (m : str) :
  In m (map fst d) -> In m (map fst (pick_step d p)).
Proof.
  unfold pick_step. destruct (model_of (name p)) as [m0|]; [|auto].
  destruct (dict_has d m0); simpl; [auto|].
  rewrite map_app, in_app_iff. auto.
Qed.

Lemma pick_fold_keys (l : list ResultFile) (d : Dict) (m : str) :
  In m (map fst d) -> In m (map fst (fold_left pick_step l d)).
Proof.
  revert d. induction l as [|p l IH]; intros d H; simpl; [exact H|].
  apply IH. now apply pick_step_keys.
Qed.

Lemma NoDup_snoc {A} (l : list A) (x : A) :
  NoDup l -> ~ In x l -> NoDup (l ++ [x]).
Proof.
  induction 1 as [|y l Hy Hl IH]; simpl; intros Hx.
  - constructor; [intros [] | constructor].
  - constructor.
    + rewrite in_app_iff. simpl. intros [H | [H | []]]; [contradiction|].
      subst. tauto.
    + apply IH. tauto.
Qed.

Lemma NoDup_map_Some {A} (l : list A) : NoDup l -> NoDup (map Some l).
Proof.
  induction 1 as [|x l Hx Hl IH]; simpl; constructor; [|exact IH].
  intros H. apply in_map_iff in H. destruct H as [y [Hy Hin]].
  inversion Hy; subst. contradiction.
Qed.

Lemma pick_fold_NoDup (l : list ResultFile) (d : Dict) :
  NoDup (map fst d) -> NoDup (map fst (fold_left pick_step l d)).
Proof.
  revert d. induction l as [|p l IH]; intros d H; simpl; [exact H|].
  apply IH. unfold pick_step. destruct (model_of (name p)) as [m0|]; [|exact H].
  destruct (dict_has d m0) eqn:Hd; simpl; [exact H|].
  apply dict_has_not_In in Hd. rewrite map_app. simpl.
  now apply NoDup_snoc.
Qed.

Lemma pick_fold_complete (l : list ResultFile) (d : Dict) (q : ResultFile)
    (m : str) :
  In q l -> model_of (name q) = Some m ->
  In m (map fst (fold_left pick_step l d)).
Proof.
  revert d. induction l as [|p l IH]; intros d Hin Hm; [contradiction|].
  simpl. destruct Hin as [-> | Hin]; [|now apply IH].
  apply pick_fold_keys. unfold pick_step. rewrite Hm.
  destruct (dict_has d m) eqn:Hd; simpl.
  - now apply dict_has_In.
  - rewrite map_app, in_app_iff. right. simpl. auto.
Qed.

Lemma pick_fold_filter (l : list ResultFile) (d : Dict) :
  fold_left pick_step (filter parses l) d = fold_left pick_step l d.
Proof.
  revert d. induction l as [|p l IH]; intros d; simpl; [reflexivity|].
  unfold parses at 1. destruct (model_of (name p)) as [m0|] eqn:Mp; simpl.
  - apply IH.
  - rewrite IH. unfold pick_step at 3. now rewrite Mp.
Qed.

(** The selection in terms of the code's own reading of the keys. *)
Lemma selection_by_model_of (globbed : list ResultFile) :
  let picked := pick_latest_result_jsons_for_stem globbed in
  NoDup (map (fun p => model_of (name p)) picked)
  /\ (forall p, In p picked ->
        In p globbed
        /\ exists m, model_of (name p) = Some m
             /\ forall q, In q globbed -> model_of (name q) = Some m ->
                  (st_mtime q <= st_mtime p)%Z)
  /\ (forall q m, In q globbed -> model_of (name q) = Some m ->
        exists p, In p picked /\ model_of (name p) = Some m)
  /\ pick_latest_result_jsons_for_stem (filter parses globbed) = picked.
Proof.
  unfold pick_latest_result_jsons_for_stem. cbv zeta.
  destruct (pick_fold_entries (sorted_desc globbed) []) as [ext [E Hext]].
  simpl in E.
  assert (Hmodel : forall m p, In (m, p) ext -> model_of (name p) = Some m).
  { intros m p H. now destruct (Hext m p H). }
  assert (Hmap : map (fun p => model_of (name p)) (map snd ext)
                 = map Some (map fst ext)).
  { rewrite !map_map. apply map_ext_in. intros [m p] H. simpl. now apply Hmodel. }
  repeat split.
  - rewrite E, Hmap. apply NoDup_map_Some.
    rewrite <- E. apply pick_fold_NoDup. constructor.
  - rewrite E in H. apply in_map_iff in H. destruct H as [[m p'] [<- Hin]].
    destruct (Hext m p' Hin) as [_ [_ [l1 [l2 [Hl _]]]]].
    apply sorted_desc_In. rewrite Hl. apply in_app_iff. right. now left.
  - rewrite E in H. apply in_map_iff in H. destruct H as [[m p'] [<- Hin]].
    destruct (Hext m p' Hin) as [Hm [_ [l1 [l2 [Hl Hl1]]]]].
    exists m. split; [exact Hm|]. intros q Hq Hqm. simpl.
    apply sorted_desc_In in Hq. rewrite Hl in Hq.
    apply in_app_iff in Hq. destruct Hq as [Hq | [<- | Hq]].
    + exfalso. exact (Hl1 q Hq Hqm).
    + lia.
    + pose proof (sorted_desc_sorted globbed) as Hs. rewrite Hl in Hs.
      apply sorted_after in Hs. rewrite Forall_forall in Hs. now apply Hs.
  - intros q m Hq Hm. apply sorted_desc_In in Hq.
    pose proof (pick_fold_complete (sorted_desc globbed) [] q m Hq Hm) as Hc.
    rewrite E in Hc. apply in_map_iff in Hc. destruct Hc as [[m' p] [Hf Hin]].
    simpl in Hf. subst m'. exists p. split.
    + rewrite E. apply in_map_iff. now exists (m, p).
    + now apply Hmodel.
  - rewrite <- filter_sorted_desc, pick_fold_filter. reflexivity.
Qed.

(** ** The item loop *)

Section Items.

Variable ratio : str -> str -> Q.
Variable path : str.
Variable lines : list str.

Lemma item_step_spec (acc : list InlineComment) (it : ReviewItem) :
  item_step ratio path lines acc it
  = if survives it then acc ++ [comment_of ratio path lines it] else acc.
Proof.
  unfold item_step, survives, comment_of, excerpt_of, detail_of, axes_of.
  destruct (truthy (strip (or_str (it_line it) None)));
    destruct (truthy (or_str (it_comment it) (it_detail it))); reflexivity.
Qed.

Lemma item_fold_spec (items : list ReviewItem) (acc : list InlineComment) :
  fold_left (item_step ratio path lines) items acc
  = acc ++ map (comment_of ratio path lines) (filter survives items).
Proof.
  revert acc. induction items as [|it items IH]; intros acc; simpl.
  - now rewrite app_nil_r.
  - rewrite IH, item_step_spec. destruct (survives it); simpl.
    + now rewrite <- app_assoc.
    + reflexivity.
Qed.

Lemma or_one_resolved (excerpt : str) :
  Z.of_nat (or_one (find_lineno_by_excerpt ratio lines excerpt))
  = resolved_line ratio lines excerpt.
Proof.
  unfold resolved_line, or_one.
  destruct (find_lineno_by_excerpt ratio lines excerpt) as [k|] eqn:E;
    [|reflexivity].
  apply find_lineno_Some in E. destruct E as [Hk _].
  destruct (Nat.eqb_spec k 0); [lia | reflexivity].
Qed.

Lemma resolved_line_bounds (excerpt : str) :
  (1 <= resolved_line ratio lines excerpt)%Z
  /\ (resolved_line ratio lines excerpt <= Z.max 1 (Z.of_nat (List.length lines)))%Z.
Proof.
  unfold resolved_line.
  destruct (find_lineno_by_excerpt ratio lines excerpt) as [k|] eqn:E.
  - apply find_lineno_Some in E. lia.
  - lia.
Qed.

End Items.

Lemma surviving_iff (it : ReviewItem) :
  survives it = false <-> excerpt_of it = [] \/ detail_of it = [].
Proof.
  unfold survives. rewrite andb_false_iff, !truthy_false. reflexivity.
Qed.

Lemma empty_line_field (it : ReviewItem) :
  or_str (it_line it) None = [] -> excerpt_of it = [].
Proof. unfold excerpt_of. now intros ->. Qed.

(** C3, as the code has it. For every item that passes the filter, one
    inline comment is appended (the item is never dropped for lack of a
    resolved line); its line number is the explicit [lineno] when that is
    present and not zero, otherwise the resolver's line for the item's
    excerpt, and 1 when the resolver gives none. The number is positive
    whenever the explicit [lineno] is absent, zero or positive; an
    explicit negative [lineno] is passed on as it is. *)
Theorem C3_line_number_of_item (ratio : str -> str -> Q) (path : str)
    (lines : list str) (acc : list InlineComment) (it : ReviewItem) :
  survives it = true ->
  exists c,
    item_step ratio path lines acc it = acc ++ [c]
    /\ ic_line c
       = match it_lineno it with
         | Some z => if (z =? 0)%Z
                     then resolved_line ratio lines (excerpt_of it)
                     else z
         | None => resolved_line ratio lines (excerpt_of it)
         end
    /\ (find_lineno_by_excerpt ratio lines (excerpt_of it) = None ->
        resolved_line ratio lines (excerpt_of it) = 1%Z)
    /\ ((forall z, it_lineno it = Some z -> (0 <= z)%Z) -> (0 < ic_line c)%Z).
Proof.
  intros Hs. exists (comment_of ratio path lines it).
  rewrite item_step_spec, Hs. split; [reflexivity|].
  assert (Hline : ic_line (comment_of ratio path lines it)
          = match it_lineno it with
            | Some z => if (z =? 0)%Z
                        then resolved_line ratio lines (excerpt_of it)
                        else z
            | None => resolved_line ratio lines (excerpt_of it)
            end).
  { unfold comment_of, lineno_of. simpl. rewrite or_one_resolved.
    reflexivity. }
  split; [exact Hline|]. split.
  - intros H. unfold resolved_line. now rewrite H.
  - intros Hpos. rewrite Hline.
    pose proof (resolved_line_bounds ratio lines (excerpt_of it)) as [Hb _].
    destruct (it_lineno it) as [z|]; [|lia].
    specialize (Hpos z eq_refl). destruct (Z.eqb_spec z 0); lia.
Qed.

(** C3 with "every inline comment carries a positive line number" fails
    on an explicit negative [lineno]: the item passes the filter and its
    comment is produced with that number. *)
Lemma C3_negative_lineno_counterexample :
  let it := {| it_line := Some (py "shall be fast"); it_comment := Some (py "vague");
               it_detail := None; it_axis := None; it_axes := None;
               it_lineno := Some (-3)%Z |} in
  survives it = true
  /\ map ic_line
       (item_step Difflib.ratio (py "docs/SRS/se24g2.md")
          [py "The system shall be fast."] [] it)
     = [(-3)%Z]
  /\ ~ (forall ratio path lines acc i c,
          survives i = true ->
          In c (item_step ratio path lines acc i) -> In c acc \/ (0 < ic_line c)%Z).
Proof.
  intros it. split; [reflexivity|]. split; [vm_compute; reflexivity|].
  intros H.
  specialize (H Difflib.ratio (py "docs/SRS/se24g2.md")
                [py "The system shall be fast."] [] it
                (comment_of Difflib.ratio (py "docs/SRS/se24g2.md")
                   [py "The system shall be fast."] it) eq_refl).
  destruct H as [[] | H].
  - rewrite item_step_spec. simpl. now left.
  - vm_compute in H. discriminate.
Qed.

(** C3 on an item without [lineno] whose excerpt is unresolved: its
    comment is anchored to line 1. *)
Lemma C3_line_number_of_item_witness :
  let lines := [py "intro"; py "the quick brown fox"; py "outro"] in
  let it := {| it_line := Some (py "completely unrelated text");
               it_comment := Some (py "where?"); it_detail := None;
               it_axis := None; it_axes := None; it_lineno := None |} in
  survives it = true
  /\ exists c,
       item_step Difflib.ratio (py "docs/SRS/a.md") lines [] it = [] ++ [c]
       /\ ic_line c = 1%Z.
Proof.
  intros lines it.
  assert (Hs : survives it = true) by reflexivity.
  split; [exact Hs|].
  destruct (C3_line_number_of_item Difflib.ratio (py "docs/SRS/a.md") lines [] it Hs)
    as [c [Hstep [Hline [Hnone _]]]].
  exists c. split; [exact Hstep|].
  rewrite Hline. simpl. apply Hnone. vm_compute. reflexivity.
Defined.

(** ** Records, files and the assembling loop *)

Section Assembly.

Variable ratio : str -> str -> Q.
Variable RESULT_DIR : str.

(** A record that parses is processed without any effect on the world. *)
Lemma record_step_valid (path : str) (lines : list str)
    (acc : list str * list InlineComment) (jp : ResultFile) (data : ResultData)
    (w : World) :
  content jp = inr data ->
  record_step ratio RESULT_DIR path lines acc jp w
  = (Returns (fst acc ++ chunks_of_record path jp,
              snd acc ++ comments_of_record ratio path lines jp), w).
Proof.
  intros Hc. unfold record_step, chunks_of_record, comments_of_record.
  rewrite Hc. unfold ret. rewrite item_fold_spec.
  destruct (truthy (or_str (overall data) (summary data)));
    [reflexivity | now rewrite app_nil_r].
Qed.

(** In every case the step returns, leaves the requests and the calls as
    they are, and extends the accumulators by the record's share. *)
Lemma record_step_spec (path : str) (lines : list str)
    (acc : list str * list InlineComment) (jp : ResultFile) (w : World) :
  exists w',
    record_step ratio RESULT_DIR path lines acc jp w
    = (Returns (fst acc ++ chunks_of_record path jp,
                snd acc ++ comments_of_record ratio path lines jp), w')
    /\ calls w' = calls w /\ http w' = http w.
Proof.
  destruct (content jp) as [e | data] eqn:Hc.
  - unfold record_step, chunks_of_record, comments_of_record. rewrite Hc.
    eexists. split.
    + unfold warn, bind, print, log_append, ret. simpl.
      rewrite !app_nil_r. destruct acc. reflexivity.
    + split; reflexivity.
  - exists w. split; [|split; reflexivity].
    apply record_step_valid with (data := data). exact Hc.
Qed.

Lemma record_fold_spec (path : str) (lines : list str) (related : list ResultFile)
    (acc : list str * list InlineComment) (w : World) :
  exists w',
    fold_M (record_step ratio RESULT_DIR path lines) related acc w
    = (Returns (fst acc ++ flat_map (chunks_of_record path) related,
                snd acc ++ flat_map (comments_of_record ratio path lines) related),
       w')
    /\ calls w' = calls w /\ http w' = http w.
Proof.
  revert acc w. induction related as [|jp related IH]; intros acc w; simpl.
  - exists w. unfold ret. rewrite !app_nil_r. destruct acc.
    split; [reflexivity | split; reflexivity].
  - destruct (record_step_spec path lines acc jp w) as [w1 [E1 [Hc1 Hh1]]].
    unfold bind. rewrite E1.
    destruct (IH (fst acc ++ chunks_of_record path jp,
                  snd acc ++ comments_of_record ratio path lines jp) w1)
      as [w2 [E2 [Hc2 Hh2]]].
    exists w2. rewrite E2. simpl. rewrite <- !app_assoc.
    split; [reflexivity | split; congruence].
Qed.

Lemma file_step_spec (f : SrsFile) (acc : list str * list InlineComment)
    (w : World) :
  exists w',
    file_step ratio RESULT_DIR acc f w
    = (Returns (fst acc ++ chunks_of_file f,
                snd acc ++ comments_of_file ratio f), w')
    /\ calls w' = calls w /\ http w' = http w.
Proof. unfold file_step. apply record_fold_spec. Qed.

(** The assembling loop of [main]: it always returns, and what it
    returns is the contribution of every file, record and item in the
    order in which the loops meet them. *)
Lemma file_fold_spec (srs_files : list SrsFile)
    (acc : list str * list InlineComment) (w : World) :
  exists w',
    fold_M (file_step ratio RESULT_DIR) srs_files acc w
    = (Returns (fst acc ++ all_chunks srs_files,
                snd acc ++ all_comments ratio srs_files), w')
    /\ calls w' = calls w /\ http w' = http w.
Proof.
  revert acc w. induction srs_files as [|f srs_files IH]; intros acc w.
  - exists w. simpl. unfold ret. rewrite !app_nil_r. destruct acc.
    split; [reflexivity | split; reflexivity].
  - destruct (file_step_spec f acc w) as [w1 [E1 [Hc1 Hh1]]].
    destruct (IH (fst acc ++ chunks_of_file f,
                  snd acc ++ comments_of_file ratio f) w1)
      as [w2 [E2 [Hc2 Hh2]]].
    exists w2. cbn [fold_M]. unfold bind at 1. rewrite E1, E2.
    unfold all_chunks, all_comments. cbn [flat_map fst snd].
    rewrite <- !app_assoc.
    split; [reflexivity | split; congruence].
Qed.

End Assembly.

(** C7. In every parsed record, an item whose excerpt is empty (after
    trimming) or whose detail is empty appends nothing, and the record
    contributes exactly what its other items contribute: the comments of
    the items around it that have an excerpt and a detail, in order, and
    the same overall chunk. *)
Theorem C7_empty_items_discarded (ratio : str -> str -> Q) (RESULT_DIR path : str)
    (lines : list str) (jp : ResultFile) (data : ResultData)
    (before after : list ReviewItem) (it : ReviewItem)
    (chunks : list str) (inl_comments : list InlineComment) (w : World) :
  content jp = inr data ->
  or_items (review_items data) (comments data) = before ++ it :: after ->
  excerpt_of it = [] \/ detail_of it = [] ->
  (forall acc, item_step ratio path lines acc it = acc)
  /\ record_step ratio RESULT_DIR path lines (chunks, inl_comments) jp w
     = (Returns (chunks ++ chunks_of_record path jp,
                 fold_left (item_step ratio path lines) (before ++ after)
                   inl_comments), w)
  /\ fold_left (item_step ratio path lines) (before ++ after) inl_comments
     = inl_comments
       ++ map (comment_of ratio path lines) (filter survives (before ++ after)).
Proof.
  intros Hc Hitems Hempty.
  assert (Hs : survives it = false) by now apply surviving_iff.
  split; [|split].
  - intros acc. now rewrite item_step_spec, Hs.
  - rewrite (record_step_valid ratio RESULT_DIR path lines (chunks, inl_comments)
               jp data w Hc).
    simpl. unfold comments_of_record. rewrite Hc, Hitems, item_fold_spec.
    rewrite !filter_app. simpl. now rewrite Hs.
  - apply item_fold_spec.
Qed.

(** C7 on a record with an item without excerpt between two good items. *)
Lemma C7_empty_items_discarded_witness :
  let good1 := {| it_line := Some (py "intro"); it_comment := Some (py "ok");
                  it_detail := None; it_axis := None; it_axes := None;
                  it_lineno := None |} in
  let bad := {| it_line := Some (py "   "); it_comment := Some (py "lost");
                it_detail := None; it_axis := None; it_axes := None;
                it_lineno := Some 2%Z |} in
  let good2 := {| it_line := Some (py "outro"); it_comment := None;
                  it_detail := Some (py "fine"); it_axis := None; it_axes := None;
                  it_lineno := None |} in
  let data := {| overall := None; summary := None;
                 review_items := Some [good1; bad; good2]; comments := None |} in
  let jp := {| name := py "a__m.json"; st_mtime := 0; content := inr data |} in
  let lines := [py "intro"; py "outro"] in
  let w := {| LOG_RING := []; stdout := []; http := []; calls := [] |} in
  exists out,
    record_step Difflib.ratio (py "/r") (py "docs/SRS/a.md") lines ([], []) jp w
    = (Returns ([] ++ chunks_of_record (py "docs/SRS/a.md") jp, out), w)
    /\ map ic_line out = [1%Z; 2%Z].
Proof.
  intros good1 bad good2 data jp lines w.
  destruct (C7_empty_items_discarded Difflib.ratio (py "/r") (py "docs/SRS/a.md")
              lines jp data [good1] [good2] bad [] [] w
              eq_refl eq_refl (or_introl eq_refl)) as [_ [H _]].
  eexists. split; [exact H|]. vm_compute. reflexivity.
Defined.

(** ** Sanitizing and rendering *)

Lemma replace_fence_hit (r : str) :
  replace fence weakened (fence ++ r) = weakened ++ replace fence weakened r.
Proof. reflexivity. Qed.

Lemma replace_fence_miss (c : char) (r : str) :
  startswith fence (c :: r) = false ->
  replace fence weakened (c :: r) = c :: replace fence weakened r.
Proof.
  intros H. unfold replace. cbn [replace_aux]. now rewrite H.
Qed.

(** The scan of [replace], as an induction principle: a character is
    copied where no fence starts, a fence is replaced as a whole. *)
Lemma sanitize_ind (P : str -> str -> Prop) :
  P [] [] ->
  (forall c r, startswith fence (c :: r) = false ->
               P r (replace fence weakened r) -> P (c :: r) (c :: replace fence weakened r)) ->
  (forall r, P r (replace fence weakened r) -> P (fence ++ r) (weakened ++ replace fence weakened r)) ->
  forall s, P s (replace fence weakened s).
Proof.
  intros Hnil Hmiss Hhit s.
  assert (H : forall n s, List.length s <= n -> P s (replace fence weakened s)).
  { clear s. induction n as [|n IH]; intros s Hlen.
    - destruct s; [exact Hnil | simpl in Hlen; lia].
    - destruct s as [|c r]; [exact Hnil|].
      destruct (startswith fence (c :: r)) eqn:E.
      + apply startswith_spec in E. destruct E as [t Ht]. rewrite Ht.
        rewrite replace_fence_hit. apply Hhit. apply IH.
        rewrite Ht in Hlen. simpl in Hlen. lia.
      + rewrite replace_fence_miss by exact E. apply Hmiss; [exact E|].
        apply IH. simpl in Hlen. lia. }
  apply (H (List.length s)). lia.
Qed.

Lemma sanitized_lead1 (s t : str) :
  replace fence weakened s = backtick :: t -> exists t', s = backtick :: t'.
Proof.
  revert t. apply (sanitize_ind (fun s out =>
    forall t, out = backtick :: t -> exists t', s = backtick :: t')).
  - discriminate.
  - intros c r _ _ t H. inversion H; subst. now exists r.
  - intros r _ t _. now exists (backtick :: backtick :: r).
Qed.

Lemma sanitized_lead2 (s t : str) :
  replace fence weakened s = backtick :: backtick :: t ->
  exists t', s = backtick :: backtick :: t'.
Proof.
  revert t. apply (sanitize_ind (fun s out =>
    forall t, out = backtick :: backtick :: t ->
              exists t', s = backtick :: backtick :: t')).
  - discriminate.
  - intros c r _ _ t H. inversion H as [[Hc Hr]]. subst c.
    apply sanitized_lead1 in Hr. destruct Hr as [t' ->]. now exists t'.
  - intros r _ t _. now exists (backtick :: r).
Qed.

(** What [replace] returns never has a fence that is not preceded by
    the zero-width space it inserted. *)
Lemma sanitized_guarded (s : str) : guarded (replace fence weakened s).
Proof.
  apply (sanitize_ind (fun _ out => guarded out)); unfold guarded.
  - intros pre post H. destruct pre; discriminate.
  - intros c r Hmiss IH pre post H. destruct pre as [|x pre].
    + exfalso. simpl in H. inversion H as [[Hc Hr]]. subst c.
      apply sanitized_lead2 in Hr. destruct Hr as [t' ->].
      simpl in Hmiss. discriminate.
    + simpl in H. inversion H as [[Hc Hr]]. subst x.
      destruct (IH pre post Hr) as [pre' ->]. now exists (c :: pre').
  - intros r IH pre post H.
    destruct pre as [|a [|b [|c [|d pre]]]]; simpl in H.
    + discriminate.
    + discriminate.
    + discriminate.
    + inversion H; subst. now exists [backtick; backtick].
    + inversion H as [[Ha Hb Hc Hd Hr]]. subst.
      destruct (IH pre post Hr) as [pre' ->].
      now exists (backtick :: backtick :: zwsp :: backtick :: pre').
Qed.

(** The rendered body holds the replace fence weakened excerpt between the opening
    and the closing line of the [text] fence. *)
Lemma render_layout (excerpt detail : str) (axes : Axes) :
  _sanitize_fence excerpt <> [] ->
  exists head tail,
    render_ai_review_comment excerpt detail axes
    = head ++ py "```text" ++ newline ++ _sanitize_fence excerpt
      ++ newline ++ py "```" ++ tail
    /\ (tail = [] \/ tail = newline ++ strip detail).
Proof.
  intros Hne. unfold render_ai_review_comment.
  set (ex := _sanitize_fence excerpt) in *.
  set (ax := join (py ", ") (axes_elements axes)).
  set (axl := if truthy ax then py "**axes:** " ++ ax else []).
  exists (py "### AI Review" ++ newline
          ++ (if truthy axl then axl ++ newline else [])
          ++ py "**excerpt:**" ++ newline).
  exists (if truthy (strip detail) then newline ++ strip detail else []).
  split.
  - assert (Hex : truthy ex = true) by now apply truthy_true.
    cbn [filter]. rewrite Hex.
    change (truthy (py "### AI Review")) with true.
    change (truthy (py "**excerpt:**")) with true.
    change (truthy (py "```text")) with true.
    change (truthy (py "```")) with true.
    change (truthy []) with false. cbv iota.
    destruct (truthy axl) eqn:Ea; destruct (truthy (strip detail)) eqn:Ed;
      cbn [join]; repeat rewrite <- app_assoc; rewrite ?app_nil_r;
      reflexivity.
  - destruct (truthy (strip detail)); auto.
Qed.

(** What the sanitizer guarantees for every excerpt: a triple backtick
    left in its result comes right after the zero-width space it
    inserted, so none of them starts a line or follows indentation only;
    and the rendered body holds the sanitized excerpt between the opening
    line and the closing line of the [text] fence. *)
Lemma sanitize_fence_guarded (excerpt : str) : guarded (_sanitize_fence excerpt).
Proof. exact (sanitized_guarded (strip excerpt)). Qed.

Example sanitize_three_backticks :
  _sanitize_fence (py "a ``` b") = py "a " ++ weakened ++ py " b"
  /\ count fence (render_ai_review_comment (py "a ``` b") (py "d") (AxesList [])) = 2.
Proof. split; reflexivity. Qed.

Example sanitize_four_backticks :
  contains fence (_sanitize_fence (py "````")) = false.
Proof. reflexivity. Qed.

(** C5. The sanitizer is meant to leave no triple backtick of the
    excerpt in the fenced block, but [str.replace] takes the occurrences
    from the left without overlap: of five backticks in a row the first
    three are replaced, and the backtick that ends the replacement forms
    a new triple with the two that remain. The rendered body then holds
    three triple backticks, the opening marker, the one of the excerpt
    and the closing marker. *)
Theorem C5_five_backticks_remain :
  _sanitize_fence (py "`````")
  = [backtick; backtick; zwsp; backtick; backtick; backtick]
  /\ contains fence (_sanitize_fence (py "`````")) = true
  /\ render_ai_review_comment (py "`````") (py "d") (AxesList [])
     = py "### AI Review" ++ newline ++ py "**excerpt:**" ++ newline
       ++ py "```text" ++ newline
       ++ [backtick; backtick; zwsp; backtick; backtick; backtick] ++ newline
       ++ py "```" ++ newline ++ py "d"
  /\ count fence (render_ai_review_comment (py "`````") (py "d") (AxesList [])) = 3
  /\ ~ (forall excerpt, ~ Substring fence (_sanitize_fence excerpt)).
Proof.
  split; [reflexivity|]. split; [reflexivity|]. split; [reflexivity|].
  split; [reflexivity|].
  intros H. apply (H (py "`````")). apply contains_spec. reflexivity.
Qed.

(** ** The state-and-exception monad *)

Lemma bind_Returns {A B} (c : M A) (k : A -> M B) (w w' : World) (a : A) :
  c w = (Returns a, w') -> bind c k w = k a w'.
Proof. intros H. unfold bind. now rewrite H. Qed.

Lemma bind_Raised {A B} (c : M A) (k : A -> M B) (w w' : World) (e : exc) :
  c w = (Raised e, w') -> bind c k w = (Raised e, w').
Proof. intros H. unfold bind. now rewrite H. Qed.

Lemma try_Returns {A} (c : M A) (h : exc -> M A) (w w' : World) (a : A) :
  c w = (Returns a, w') -> try_except c h w = (Returns a, w').
Proof. intros H. unfold try_except. now rewrite H. Qed.

Lemma try_Raised {A} (c : M A) (h : exc -> M A) (w w' : World) (e : exc) :
  c w = (Raised e, w') -> try_except c h w = h e w'.
Proof. intros H. unfold try_except. now rewrite H. Qed.

Lemma info_run (msg : str) (w : World) :
  info msg w = (Returns tt, after_info msg w).
Proof. reflexivity. Qed.

Lemma warn_run (msg : str) (w : World) :
  warn msg w = (Returns tt, after_warn msg w).
Proof. reflexivity. Qed.

(** ** The ring *)

Lemma last_n_snoc {A} (n : nat) (l : list A) (x : A) :
  0 < n -> last_n n (l ++ [x]) = last_n (n - 1) l ++ [x].
Proof.
  intros Hn. unfold last_n. rewrite length_app. simpl.
  rewrite skipn_app.
  replace (List.length l + 1 - n) with (List.length l - (n - 1)) by lia.
  replace (List.length l - (n - 1) - List.length l) with 0 by lia.
  reflexivity.
Qed.

Lemma ring_append_last (x : str) (ring : list str) :
  exists front, ring_append x ring = front ++ [x].
Proof.
  unfold ring_append. rewrite last_n_snoc by (unfold maxlen; lia).
  now eexists.
Qed.

(** The ring never holds more than [maxlen] entries. *)
Lemma ring_append_length (x : str) (ring : list str) :
  List.length (ring_append x ring) <= maxlen.
Proof.
  unfold ring_append, last_n. rewrite length_skipn, length_app.
  simpl. lia.
Qed.

Lemma tail_of_ring_nonempty (x : str) (ring : list str) :
  last_n 120 (ring_append x ring) <> [].
Proof.
  destruct (ring_append_last x ring) as [front ->].
  rewrite last_n_snoc by lia. intros H.
  apply (f_equal (@List.length str)) in H. rewrite length_app in H.
  simpl in H. lia.
Qed.

(** ** Posting *)

Section Posting.

Variable requests_post : list Request -> Request -> Response.

(** One attempt sends the request once; it returns exactly when the
    request is accepted. *)
Lemma attempt_run (rq : Request) (w : World) :
  exists o,
    attempt requests_post rq w
    = (o, {| LOG_RING := LOG_RING w; stdout := stdout w;
             http := http w ++ [rq]; calls := calls w |})
    /\ match o with
       | Returns _ => accepted requests_post (http w) rq = true
       | Raised _ => accepted requests_post (http w) rq = false
       end.
Proof.
  unfold attempt, bind, send, accepted. cbv beta iota.
  destruct (requests_post (http w) rq) as [msg | code text].
  - eexists. split; reflexivity.
  - destruct (300 <=? code); eexists; split; reflexivity.
Qed.

Lemma repeat_snoc_front {A} (l : list A) (x : A) (k : nat) :
  l ++ repeat x (S k) = (l ++ [x]) ++ repeat x k.
Proof. simpl. now rewrite <- app_assoc. Qed.

(** The retry loop sends the same request again and again, at least once
    and at most [left] times, and stops at the first one accepted: it
    returns a response exactly when the last request sent was accepted. *)
Lemma gh_post_loop_sends (rq : Request) (max_tries left i : nat) (w : World) :
  i + left = S max_tries ->
  exists n,
    Nat.min 1 left <= n <= left
    /\ sent_only requests_post rq n w
         (snd (gh_post_loop requests_post rq max_tries left i w))
    /\ match fst (gh_post_loop requests_post rq max_tries left i w) with
       | Returns (Some _) =>
           accepted requests_post (http w ++ repeat rq (n - 1)) rq = true
       | Returns None => n = 0
       | Raised _ =>
           accepted requests_post (http w ++ repeat rq (n - 1)) rq = false
       end.
Proof.
  revert i w. induction left as [|left IH]; intros i w Hinv.
  - exists 0. simpl. unfold sent_only. simpl. rewrite app_nil_r.
    repeat split; lia.
  - cbn [gh_post_loop]. destruct (attempt_run rq w) as [o [E Hacc]].
    destruct o as [r | e].
    + erewrite try_Returns by (erewrite bind_Returns by exact E; reflexivity).
      exists 1. unfold sent_only. cbn [fst snd http calls repeat Nat.sub].
      rewrite app_nil_r. repeat split; try lia. exact Hacc.
    + erewrite try_Raised by (erewrite bind_Raised by exact E; reflexivity).
      destruct (Nat.eqb_spec i max_tries) as [Hi | Hi].
      * exists 1. unfold sent_only, raise. cbn [fst snd http calls repeat Nat.sub].
        rewrite app_nil_r. repeat split; try lia. exact Hacc.
      * erewrite bind_Returns by apply warn_run.
        match goal with
        | |- context [gh_post_loop _ _ _ _ _ ?w0] =>
            destruct (IH (S i) w0 ltac:(lia)) as [n [Hn [[Hh [Hc Hk]] Hres]]];
            destruct (gh_post_loop requests_post rq max_tries left (S i) w0)
              as [o' w'] eqn:E'
        end.
        cbn [fst snd http calls after_warn] in *.
        assert (Hn1 : 1 <= n) by lia.
        exists (S n). split; [lia|]. split.
        -- unfold sent_only. split; [|split].
           ++ rewrite Hh. symmetry. apply repeat_snoc_front.
           ++ exact Hc.
           ++ intros [|k] Hlt.
              ** simpl. now rewrite app_nil_r.
              ** rewrite repeat_snoc_front. apply Hk. lia.
        -- replace (S n - 1) with (S (n - 1)) by lia.
           rewrite repeat_snoc_front.
           destruct o' as [[r|] | e']; [exact Hres | lia | exact Hres].
Qed.

(** [post_pull_review] enters once and sends the review one to three
    times; it returns exactly when the last of them was accepted. *)
Lemma post_pull_review_run (repo : str) (pr_number : nat) (token body : str)
    (cs : list ReviewComment) (w : World) :
  let rq := review_request repo pr_number token body cs in
  exists o w' n,
    post_pull_review requests_post repo pr_number token body cs w = (o, w')
    /\ calls w' = calls w ++ [CallPullReview body cs]
    /\ 1 <= n <= 3
    /\ http w' = http w ++ repeat rq n
    /\ (forall k, S k < n ->
          accepted requests_post (http w ++ repeat rq k) rq = false)
    /\ match o with
       | Returns _ => accepted requests_post (http w ++ repeat rq (n - 1)) rq = true
       | Raised _ => accepted requests_post (http w ++ repeat rq (n - 1)) rq = false
       end.
Proof.
  intros rq. unfold post_pull_review, bind at 1, enter, gh_post, default_max_tries.
  fold (review_request repo pr_number token body cs). fold rq.
  match goal with
  | |- context [bind (gh_post_loop _ rq 3 3 1) ?k ?w0] =>
      destruct (gh_post_loop_sends rq 3 3 1 w0 eq_refl)
        as [n [Hn [[Hh [Hc Hk]] Hres]]];
      unfold bind;
      destruct (gh_post_loop requests_post rq 3 3 1 w0) as [[r | e] w'] eqn:E
  end; cbn [fst snd http calls] in *; simpl in Hn.
  - exists (Returns tt), w', n. repeat split; try assumption; try lia.
    destruct r; [exact Hres | lia].
  - exists (Raised e), w', n. repeat split; try assumption; lia.
Qed.

Lemma post_issue_comment_run (repo : str) (pr_number : nat) (token body : str)
    (w : World) :
  let rq := notice_request repo pr_number token body in
  exists o w' n,
    post_issue_comment requests_post repo pr_number token body w = (o, w')
    /\ calls w' = calls w ++ [CallIssueComment body]
    /\ 1 <= n <= 3
    /\ http w' = http w ++ repeat rq n
    /\ (forall k, S k < n ->
          accepted requests_post (http w ++ repeat rq k) rq = false)
    /\ match o with
       | Returns _ => accepted requests_post (http w ++ repeat rq (n - 1)) rq = true
       | Raised _ => accepted requests_post (http w ++ repeat rq (n - 1)) rq = false
       end.
Proof.
  intros rq. unfold post_issue_comment, bind at 1, enter, gh_post, default_max_tries.
  fold (notice_request repo pr_number token body). fold rq.
  match goal with
  | |- context [bind (gh_post_loop _ rq 3 3 1) ?k ?w0] =>
      destruct (gh_post_loop_sends rq 3 3 1 w0 eq_refl)
        as [n [Hn [[Hh [Hc Hk]] Hres]]];
      unfold bind;
      destruct (gh_post_loop requests_post rq 3 3 1 w0) as [[r | e] w'] eqn:E
  end; cbn [fst snd http calls] in *; simpl in Hn.
  - exists (Returns tt), w', n. repeat split; try assumption; try lia.
    destruct r; [exact Hres | lia].
  - exists (Raised e), w', n. repeat split; try assumption; lia.
Qed.

End Posting.

(** ** The submission *)

Section Submission.

Variable ratio : str -> str -> Q.
Variable requests_post : list Request -> Request -> Response.
Variable RESULT_DIR : str.
Variable repo : str.
Variable pr_number : nat.
Variable token : str.
Variable environ : Environ.

(** The review was accepted: one log entry, nothing else is posted. *)
Lemma submit_success (review_body : str) (payload : list ReviewComment)
    (w w1 : World) :
  post_pull_review requests_post repo pr_number token review_body payload w
  = (Returns tt, w1) ->
  submit requests_post repo pr_number token environ review_body payload w
  = (Returns tt,
     after_info (py "Posted review: overall="
                 ++ (if truthy review_body then py "yes" else py "no")
                 ++ py ", inline=" ++ str_of_nat (List.length payload)) w1).
Proof.
  intros H. unfold submit.
  erewrite try_Returns; [reflexivity|].
  erewrite bind_Returns by exact H. apply info_run.
Qed.

(** The review was refused with [e]: the failure is logged, the notice
    is composed from the ring as it then stands and posted once; whether
    that succeeds or raises, [submit] returns. The requests sent are the
    review and then the notice, each one to three times. *)
Lemma submit_failure (review_body : str) (payload : list ReviewComment)
    (w w1 : World) (e : exc) :
  post_pull_review requests_post repo pr_number token review_body payload w
  = (Raised e, w1) ->
  let w2 := after_warn (py "post_pull_review failed: " ++ str_of_exc e) w1 in
  let notice :=
    join newline (notice_lines repo environ e review_body payload (LOG_RING w2)) in
  let rq1 := review_request repo pr_number token review_body payload in
  let rq2 := notice_request repo pr_number token notice in
  exists o w3 n1 n2,
    post_issue_comment requests_post repo pr_number token notice w2 = (o, w3)
    /\ calls w3
       = calls w ++ [CallPullReview review_body payload; CallIssueComment notice]
    /\ 1 <= n1 <= 3 /\ 1 <= n2 <= 3
    /\ http w3 = http w ++ repeat rq1 n1 ++ repeat rq2 n2
    /\ (forall k, S k < n2 ->
          accepted requests_post (http w ++ repeat rq1 n1 ++ repeat rq2 k) rq2
          = false)
    /\ submit requests_post repo pr_number token environ review_body payload w
       = (Returns tt,
          match o with
          | Returns _ =>
              after_info
                (py "Posted failure notice comment instead of inline fallback.") w3
          | Raised e2 =>
              after_warn (py "failed to post failure notice: " ++ str_of_exc e2) w3
          end).
Proof.
  intros H w2 notice rq1 rq2.
  destruct (post_pull_review_run requests_post repo pr_number token review_body
              payload w) as [o1 [w1' [n1 [E1 [Hc1 [Hn1 [Hh1 _]]]]]]].
  rewrite H in E1. inversion E1; subst o1 w1'.
  destruct (post_issue_comment_run requests_post repo pr_number token notice w2)
    as [o [w3 [n2 [E3 [Hc3 [Hn2 [Hh3 [Hk3 _]]]]]]]].
  fold rq1 in Hh1. fold rq2 in Hh3, Hk3.
  assert (Hw2 : http w2 = http w ++ repeat rq1 n1) by exact Hh1.
  exists o, w3, n1, n2. split; [exact E3|]. split.
  { rewrite Hc3. unfold w2. simpl. rewrite Hc1. now rewrite <- app_assoc. }
  split; [exact Hn1|]. split; [exact Hn2|]. split.
  { rewrite Hh3, Hw2. now rewrite <- app_assoc. }
  split.
  { intros k Hk. rewrite app_assoc, <- Hw2. now apply Hk3. }
  unfold submit. erewrite try_Raised by (erewrite bind_Raised by exact H; reflexivity).
  erewrite bind_Returns by apply warn_run.
  fold w2. unfold read_log. unfold bind at 1. cbv beta iota. fold notice.
  destruct o as [[] | e2].
  - erewrite try_Returns; [reflexivity|].
    erewrite bind_Returns by exact E3. apply info_run.
  - erewrite try_Raised by (erewrite bind_Raised by exact E3; reflexivity).
    apply warn_run.
Qed.

(** [submit] returns in every case, after one call of
    [post_pull_review] and at most one call of [post_issue_comment]. *)
Lemma submit_returns (review_body : str) (payload : list ReviewComment)
    (w : World) :
  exists w' rest,
    submit requests_post repo pr_number token environ review_body payload w
    = (Returns tt, w')
    /\ calls w' = calls w ++ CallPullReview review_body payload :: rest
    /\ (rest = [] \/ exists notice, rest = [CallIssueComment notice]).
Proof.
  destruct (post_pull_review_run requests_post repo pr_number token review_body
              payload w) as [o1 [w1 [n1 [E1 [Hc1 _]]]]].
  destruct o1 as [[] | e].
  - eexists. exists []. split; [apply submit_success; exact E1|].
    split; [exact Hc1 | now left].
  - destruct (submit_failure review_body payload w w1 e E1)
      as [o [w3 [n1' [n2 [_ [Hc3 [_ [_ [_ [_ Hs]]]]]]]]]].
    eexists. eexists. split; [exact Hs|]. split.
    + destruct o; simpl; exact Hc3.
    + right. now eexists.
Qed.

(** [main] is the assembling loop followed by [submit] on the capped
    batch. *)
Lemma main_run (srs_files : list SrsFile) (w : World) :
  exists w1,
    fold_M (file_step ratio RESULT_DIR) srs_files ([], []) w
    = (Returns (all_chunks srs_files, all_comments ratio srs_files), w1)
    /\ calls w1 = calls w
    /\ main ratio requests_post RESULT_DIR repo pr_number token environ srs_files w
       = submit requests_post repo pr_number token environ
           (review_body_of (all_chunks srs_files))
           (payload_of (all_comments ratio srs_files)) w1.
Proof.
  destruct (file_fold_spec ratio RESULT_DIR srs_files ([], []) w)
    as [w1 [E [Hc _]]].
  simpl in E. exists w1. split; [exact E|]. split; [exact Hc|].
  unfold main. erewrite bind_Returns by exact E. reflexivity.
Qed.

End Submission.

(** The notice has its four parts whenever the ring is not empty, which
    it never is after the failure has been logged. *)
Lemma notice_lines_parts (repo : str) (environ : Environ) (e : exc)
    (review_body : str) (payload : list ReviewComment) (ring : list str) :
  last_n 120 ring <> [] ->
  notice_lines repo environ e review_body payload ring
  = notice_head e review_body payload ++ notice_link repo environ
    ++ notice_log ring ++ notice_foot.
Proof.
  intros Hne.
  unfold notice_lines, run_url, get_or, notice_head, notice_link, notice_log,
    notice_foot.
  destruct (last_n 120 ring) as [|t0 tl] eqn:Et; [contradiction|].
  destruct (GITHUB_RUN_ID environ) as [[|c run_id]|]; cbn [truthy];
    rewrite <- ?app_assoc; reflexivity.
Qed.

(** C8. When the combined submission raises, [submit] logs the failure
    and calls [post_issue_comment] once, with the notice, and nothing
    else: after the call of [post_pull_review] the only posting function
    entered is [post_issue_comment], once, and never
    [post_inline_comment], whatever the number of inline comments; the
    requests sent are the review and then the notice, each at most three
    times by the retries of [gh_post], and no other request; every notice
    request but the last was refused, so the server took at most one. The
    notice contains the text of the exception, the indicator of an
    overall text, the number of inline comments of the batch, the link
    and the sanitized last 120 entries of the log ring, the last of which
    is the entry of this failure. The link is built from the environment:
    when [GITHUB_RUN_ID] is set and not empty the notice holds
    [<server>/<repository>/actions/runs/<run id>], with
    [https://github.com] for a server that is not set and [repo] for a
    repository that is not set; when [GITHUB_RUN_ID] is not set or empty
    the notice has no line for it: its lines are the summary, the log and
    the advice. *)
Theorem C8_single_failure_notice
    (requests_post : list Request -> Request -> Response)
    (repo : str) (pr_number : nat) (token : str) (environ : Environ)
    (review_body : str) (payload : list ReviewComment) (w w1 : World) (e : exc) :
  post_pull_review requests_post repo pr_number token review_body payload w
  = (Raised e, w1) ->
  let entry := py "[WARN] " ++ py "post_pull_review failed: " ++ str_of_exc e in
  let ring := ring_append entry (LOG_RING w1) in
  let lines := notice_head e review_body payload ++ notice_link repo environ
               ++ notice_log ring ++ notice_foot in
  let notice := join newline lines in
  exists w',
    submit requests_post repo pr_number token environ review_body payload w
    = (Returns tt, w')
    /\ calls w'
       = calls w ++ [CallPullReview review_body payload; CallIssueComment notice]
    /\ Substring (str_of_exc e) notice
    /\ Substring (py "- 総評の有無: "
                  ++ (if truthy review_body then py "あり" else py "なし")) notice
    /\ Substring (py "- インライン予定件数: "
                  ++ str_of_nat (List.length payload)) notice
    /\ (forall run_id, GITHUB_RUN_ID environ = Some run_id -> run_id <> [] ->
          Substring
            (py "Actions の実行ログ: "
             ++ match GITHUB_SERVER_URL environ with
                | Some server => server
                | None => py "https://github.com"
                end
             ++ py "/"
             ++ match GITHUB_REPOSITORY environ with
                | Some repository => repository
                | None => repo
                end
             ++ py "/actions/runs/" ++ run_id) notice)
    /\ (GITHUB_RUN_ID environ = None \/ GITHUB_RUN_ID environ = Some [] ->
          lines = notice_head e review_body payload ++ notice_log ring
                  ++ notice_foot)
    /\ Substring (_sanitize_fence (join newline (last_n 120 ring))) notice
    /\ (exists front, last_n 120 ring = front ++ [entry])
    /\ exists n1 n2,
         let rq1 := review_request repo pr_number token review_body payload in
         let rq2 := notice_request repo pr_number token notice in
         1 <= n1 <= 3 /\ 1 <= n2 <= 3
         /\ http w' = http w ++ repeat rq1 n1 ++ repeat rq2 n2
         /\ forall k, S k < n2 ->
              accepted requests_post (http w ++ repeat rq1 n1 ++ repeat rq2 k) rq2
              = false.
Proof.
  intros H entry ring lines notice.
  destruct (submit_failure requests_post repo pr_number token environ
              review_body payload w w1 e H)
    as [o [w3 [n1 [n2 [_ [Hc [Hn1 [Hn2 [Hh [Hk Hs]]]]]]]]]].
  cbv zeta in Hc, Hh, Hk, Hs.
  change (LOG_RING (after_warn (py "post_pull_review failed: " ++ str_of_exc e) w1))
    with ring in Hc, Hh, Hk.
  rewrite (notice_lines_parts repo environ e review_body payload ring)
    in Hc, Hh, Hk by apply tail_of_ring_nonempty.
  fold lines in Hc, Hh, Hk. fold notice in Hc, Hh, Hk.
  eexists. split; [exact Hs|]. split; [destruct o; exact Hc|].
  assert (Hin : forall x, In x lines -> Substring x notice).
  { intros x Hx. now apply in_join_Substring. }
  split; [apply Hin; unfold lines, notice_head; simpl; tauto|].
  split; [apply Hin; unfold lines, notice_head; simpl; tauto|].
  split; [apply Hin; unfold lines, notice_head; simpl; tauto|].
  split.
  { intros run_id Hid Hne. apply Hin. unfold lines, notice_link. rewrite Hid.
    destruct run_id as [|c run_id]; [contradiction|].
    rewrite !in_app_iff. right. left. right. left. reflexivity. }
  split.
  { intros Hid. unfold lines, notice_link.
    destruct Hid as [-> | ->]; reflexivity. }
  split.
  { apply Hin. unfold lines, notice_log. rewrite !in_app_iff.
    right. right. left. simpl. tauto. }
  split.
  { unfold ring. destruct (ring_append_last entry (LOG_RING w1)) as [front ->].
    rewrite last_n_snoc by lia. now eexists. }
  exists n1, n2. cbv zeta. split; [exact Hn1|]. split; [exact Hn2|].
  split; [destruct o; exact Hh | exact Hk].
Qed.

(** C8 where the review is refused with status 422 three times and the
    notice is accepted; two inline comments were queued, and of the
    environment only the run is set: the notice links to run 42 of the
    repository on [https://github.com]. *)
Lemma C8_single_failure_notice_witness :
  let requests_post := fun (_ : list Request) (rq : Request) =>
    match json rq with
    | ReviewPayload _ _ _ => Responds 422 (py "Unprocessable Entity")
    | _ => Responds 201 []
    end in
  let environ := {| GITHUB_SERVER_URL := None; GITHUB_REPOSITORY := None;
                    GITHUB_RUN_ID := Some (py "42") |} in
  let payload := [ {| rc_path := py "docs/SRS/a.md"; rc_line := 1;
                      rc_side := py "RIGHT"; rc_body := py "x" |};
                   {| rc_path := py "docs/SRS/a.md"; rc_line := 2;
                      rc_side := py "RIGHT"; rc_body := py "y" |} ] in
  let w := {| LOG_RING := [py "[INFO] Repo: o/r, PR: 7"]; stdout := [];
              http := []; calls := [] |} in
  let R := post_pull_review requests_post (py "o/r") 7 (py "t") (py "sum") payload w in
  exists e,
    R = (Raised e, snd R)
    /\ exists w',
         submit requests_post (py "o/r") 7 (py "t") environ (py "sum") payload w
         = (Returns tt, w')
         /\ List.length (calls w') = 2
         /\ List.length (http w') = 4
         /\ exists notice,
              calls w' = [CallPullReview (py "sum") payload; CallIssueComment notice]
              /\ Substring
                   (py "Actions の実行ログ: https://github.com/o/r/actions/runs/42")
                   notice
              /\ Substring (py "- インライン予定件数: 2") notice.
Proof.
  intros requests_post environ payload w R.
  exists (Exception (py "POST https://api.github.com/repos/o/r/pulls/7/reviews failed: 422 Unprocessable Entity")).
  assert (HR : R = (Raised (Exception (py "POST https://api.github.com/repos/o/r/pulls/7/reviews failed: 422 Unprocessable Entity")), snd R))
    by (vm_compute; reflexivity).
  split; [exact HR|].
  destruct (C8_single_failure_notice requests_post (py "o/r") 7 (py "t") environ
              (py "sum") payload w (snd R) _ HR)
    as [w' [Hs [Hc [_ [_ [Hcount [Hlink _]]]]]]].
  exists w'. split; [exact Hs|]. split; [rewrite Hc; reflexivity|]. split.
  - assert (Hw : w' = snd (submit requests_post (py "o/r") 7 (py "t") environ
                             (py "sum") payload w)) by now rewrite Hs.
    rewrite Hw. vm_compute. reflexivity.
  - eexists. split; [exact Hc|]. split.
    + exact (Hlink (py "42") eq_refl ltac:(discriminate)).
    + exact Hcount.
Defined.

(** C9. [main] returns for every behaviour of [requests.post], hence for
    every outcome of the posting of the notice; when the combined
    submission raised and the posting of the notice raises too, that
    second exception is logged with [warn] and [submit] returns. *)
Theorem C9_notice_failure_swallowed
    (ratio : str -> str -> Q)
    (requests_post : list Request -> Request -> Response)
    (RESULT_DIR repo : str) (pr_number : nat) (token : str) (environ : Environ) :
  (forall srs_files w,
     exists w',
       main ratio requests_post RESULT_DIR repo pr_number token environ srs_files w
       = (Returns tt, w'))
  /\ (forall review_body payload w w1 e w3 e2,
        post_pull_review requests_post repo pr_number token review_body payload w
        = (Raised e, w1) ->
        let w2 := after_warn (py "post_pull_review failed: " ++ str_of_exc e) w1 in
        post_issue_comment requests_post repo pr_number token
          (join newline (notice_lines repo environ e review_body payload (LOG_RING w2)))
          w2
        = (Raised e2, w3) ->
        submit requests_post repo pr_number token environ review_body payload w
        = (Returns tt,
           after_warn (py "failed to post failure notice: " ++ str_of_exc e2) w3)).
Proof.
  split.
  - intros srs_files w.
    destruct (main_run ratio requests_post RESULT_DIR repo pr_number token environ
                srs_files w) as [w1 [_ [_ Hm]]].
    destruct (submit_returns requests_post repo pr_number token environ
                (review_body_of (all_chunks srs_files))
                (payload_of (all_comments ratio srs_files)) w1)
      as [w' [rest [Hs _]]].
    exists w'. now rewrite Hm.
  - intros review_body payload w w1 e w3 e2 H1 w2 H2.
    destruct (submit_failure requests_post repo pr_number token environ
                review_body payload w w1 e H1)
      as [o [w3' [n1 [n2 [E3 [_ [_ [_ [_ [_ Hs]]]]]]]]]].
    cbv zeta in E3. fold w2 in E3. rewrite H2 in E3.
    inversion E3; subst o w3'. exact Hs.
Qed.

(** C9 where every request fails: the review and the notice are both
    refused, [submit] returns and the last entry of the ring is the
    warning about the notice. *)
Lemma C9_notice_failure_swallowed_witness :
  let requests_post := fun (_ : list Request) (_ : Request) =>
    Raises (py "connection refused") in
  let environ := {| GITHUB_SERVER_URL := None; GITHUB_REPOSITORY := None;
                    GITHUB_RUN_ID := None |} in
  let w := {| LOG_RING := []; stdout := []; http := []; calls := [] |} in
  let e := Exception (py "connection refused") in
  let R1 := post_pull_review requests_post (py "o/r") 7 (py "t") [] [] w in
  let w2 := after_warn (py "post_pull_review failed: " ++ str_of_exc e) (snd R1) in
  let R2 := post_issue_comment requests_post (py "o/r") 7 (py "t")
              (join newline (notice_lines (py "o/r") environ e [] [] (LOG_RING w2))) w2 in
  R1 = (Raised e, snd R1)
  /\ R2 = (Raised e, snd R2)
  /\ submit requests_post (py "o/r") 7 (py "t") environ [] [] w
     = (Returns tt,
        after_warn (py "failed to post failure notice: " ++ str_of_exc e) (snd R2)).
Proof.
  intros requests_post environ w e R1 w2 R2.
  assert (H1 : R1 = (Raised e, snd R1)) by (vm_compute; reflexivity).
  assert (H2 : R2 = (Raised e, snd R2)) by (vm_compute; reflexivity).
  split; [exact H1|]. split; [exact H2|].
  exact (proj2 (C9_notice_failure_swallowed Difflib.ratio requests_post (py "/r")
                  (py "o/r") 7 (py "t") environ)
           [] [] w (snd R1) e (snd R2) e H1 H2).
Defined.

(** ** Finalization *)

Lemma review_body_length (chunks : list str) :
  List.length (review_body_of chunks) <= 4000.
Proof.
  unfold review_body_of. destruct chunks as [|c chunks].
  - simpl. lia.
  - apply firstn_le_length.
Qed.

Lemma payload_length (inl_comments : list InlineComment) :
  List.length (payload_of inl_comments) = Nat.min 80 (List.length inl_comments).
Proof.
  unfold payload_of. rewrite length_map. apply length_firstn.
Qed.

Lemma payload_nth (inl_comments : list InlineComment) (i : nat) :
  i < 80 ->
  nth_error (payload_of inl_comments) i
  = option_map to_review_comment (nth_error inl_comments i).
Proof.
  intros Hi. unfold payload_of. fold to_review_comment.
  rewrite nth_error_map, nth_error_firstn.
  unfold MAX_INLINE. destruct (Nat.ltb_spec i 80); [reflexivity | lia].
Qed.

(** C6. The assembling loop returns the overall chunks and the inline
    comments in the order "file, then record, then item". [main] then
    submits, as the overall text, the chunks joined by two newlines and
    cut to 4000 characters, and,
    as the inline comments, the first 80 of the sequence in that same
    order: entry [i] of the payload is comment [i] of the sequence, and a
    sequence of more than 80 comments gives exactly 80 entries. *)
Theorem C6_batch_finalization
    (ratio : str -> str -> Q)
    (requests_post : list Request -> Request -> Response)
    (RESULT_DIR repo : str) (pr_number : nat) (token : str) (environ : Environ)
    (srs_files : list SrsFile) (w : World) :
  let chunks := all_chunks srs_files in
  let inl_comments := all_comments ratio srs_files in
  let review_body := firstn 4000 (join (newline ++ newline) chunks) in
  let payload := map to_review_comment (firstn 80 inl_comments) in
  (exists w1,
     fold_M (file_step ratio RESULT_DIR) srs_files ([], []) w
     = (Returns (chunks, inl_comments), w1))
  /\ (exists w' rest,
        main ratio requests_post RESULT_DIR repo pr_number token environ srs_files w
        = (Returns tt, w')
        /\ calls w' = calls w ++ CallPullReview review_body payload :: rest)
  /\ List.length review_body <= 4000
  /\ List.length payload = Nat.min 80 (List.length inl_comments)
  /\ (80 < List.length inl_comments -> List.length payload = 80)
  /\ (forall i, i < 80 ->
        nth_error payload i = option_map to_review_comment (nth_error inl_comments i)).
Proof.
  intros chunks inl_comments review_body payload.
  replace review_body with (review_body_of chunks)
    by (unfold review_body, review_body_of; destruct chunks; [now rewrite firstn_nil | reflexivity]).
  change payload with (payload_of inl_comments).
  destruct (main_run ratio requests_post RESULT_DIR repo pr_number token environ
              srs_files w) as [w1 [Hloop [Hc1 Hm]]].
  split; [exists w1; exact Hloop|]. split.
  - destruct (submit_returns requests_post repo pr_number token environ
                (review_body_of chunks) (payload_of inl_comments) w1)
      as [w' [rest [Hs [Hc _]]]].
    exists w', rest. split; [now rewrite Hm | now rewrite Hc, Hc1].
  - split; [apply review_body_length|].
    split; [apply payload_length|].
    split; [intros H; rewrite payload_length; lia|].
    apply payload_nth.
Qed.

(** C6 on one record with 81 items that name the lines 1 to 81: the
    payload has 80 entries, the last of which is for line 80. *)
Lemma C6_batch_finalization_witness :
  let item := fun n : nat =>
    {| it_line := Some (py "x"); it_comment := Some (py "c"); it_detail := None;
       it_axis := None; it_axes := None; it_lineno := Some (Z.of_nat n) |} in
  let data := {| overall := Some (py "fine"); summary := None;
                 review_items := Some (map item (seq 1 81)); comments := None |} in
  let f := {| repo_rel := py "docs/SRS/a.md"; disk_lines := [py "x"];
              globbed := [{| name := py "a__m.json"; st_mtime := 1;
                             content := inr data |}] |} in
  let inl_comments := all_comments Difflib.ratio [f] in
  let payload := map to_review_comment (firstn 80 inl_comments) in
  80 < List.length inl_comments
  /\ List.length payload = 80
  /\ option_map rc_line (nth_error payload 79) = Some 80%Z
  /\ nth_error payload 79 = option_map to_review_comment (nth_error inl_comments 79).
Proof.
  intros item data f inl_comments payload.
  assert (H81 : 80 < List.length inl_comments)
    by (apply Nat.ltb_lt; vm_compute; reflexivity).
  destruct (C6_batch_finalization Difflib.ratio (fun _ _ => Responds 200 [])
              (py "/r") (py "o/r") 7 (py "t")
              {| GITHUB_SERVER_URL := None; GITHUB_REPOSITORY := None;
                 GITHUB_RUN_ID := None |}
              [f] {| LOG_RING := []; stdout := []; http := []; calls := [] |})
    as [_ [_ [_ [_ [Hlen Hnth]]]]].
  split; [exact H81|]. split; [exact (Hlen H81)|]. split.
  - vm_compute. reflexivity.
  - apply Hnth. lia.
Defined.

(** ** Runs on concrete inputs *)

Example py_ascii : py "a b" = [97; 32; 98]%N.
Proof. reflexivity. Qed.

Example py_kana : py "レ" = [12524]%N.
Proof. reflexivity. Qed.

Example strip_tabs : strip (py "  a b	 ") = py "a b".
Proof. reflexivity. Qed.

Example strip_ideographic_space : strip [12288; 97; 12288]%N = py "a".
Proof. reflexivity. Qed.

Example replace_left_to_right :
  replace (py "ab") (py "X") (py "aababab") = py "aXXX".
Proof. reflexivity. Qed.

Example model_of_dotted : model_of (py "se24g2__gpt-4.1.json") = Some (py "gpt-4.1").
Proof. reflexivity. Qed.

Example model_of_no_separator : model_of (py "se24g2-gpt-5.json") = None.
Proof. reflexivity. Qed.

Example model_of_no_extension : model_of (py "se24g2__gpt-5") = Some (py "gpt-5").
Proof. reflexivity. Qed.

Example norm_collapses : norm (py "the  quick 	  brown  fox! ") = py "the quick brown fox!".
Proof. reflexivity. Qed.

(** The two ratios of the library's documentation. *)
Example ratio_abcd : Difflib.ratio (py "abcd") (py "bcde") = (6 # 8)%Q.
Proof. vm_compute. reflexivity. Qed.

Example ratio_thread :
  Difflib.ratio (py "private Thread currentThread;")
                (py "private volatile Thread currentThread;") = (58 # 67)%Q.
Proof. vm_compute. reflexivity. Qed.

(** The resolver on the three excerpts of the specification. *)
Example resolve_substring :
  find_lineno_by_excerpt Difflib.ratio
    [py "intro"; py "the quick brown fox"; py "outro"] (py "brown fox") = Some 2.
Proof. vm_compute. reflexivity. Qed.

Example resolve_fuzzy :
  find_lineno_by_excerpt Difflib.ratio
    [py "intro"; py "the quick brown fox"; py "outro"]
    (py "the  quick   brown  fox!") = Some 2.
Proof. vm_compute. reflexivity. Qed.

Example resolve_unrelated :
  find_lineno_by_excerpt Difflib.ratio
    [py "intro"; py "the quick brown fox"; py "outro"]
    (py "completely unrelated text") = None.
Proof. vm_compute. reflexivity. Qed.

(** The excerpt is trimmed before the lines are searched: padded with
    spaces, it is found in the first line that holds its trimmed form. *)
Example resolve_trims_first :
  find_lineno_by_excerpt Difflib.ratio [py "ab"; py " ab "] (py " ab ") = Some 1.
Proof. vm_compute. reflexivity. Qed.

(** A ratio of exactly 0.6 is accepted. *)
Example resolve_at_threshold :
  Difflib.ratio (py "abcXY") (py "abcZW") = (6 # 10)%Q
  /\ find_lineno_by_excerpt Difflib.ratio [py "abcZW"] (py "abcXY") = Some 1.
Proof. split; vm_compute; reflexivity. Qed.

(** Three overall texts of 2000 characters give a text of 4000. *)
Example overall_is_cut :
  let data := {| overall := Some (repeat 97%N 2000); summary := None;
                 review_items := None; comments := None |} in
  let file := fun m => {| name := py "a__" ++ m ++ py ".json"; st_mtime := 1;
                          content := inr data |} in
  let f := {| repo_rel := py "docs/SRS/a.md"; disk_lines := [];
              globbed := [file (py "m1"); file (py "m2"); file (py "m3")] |} in
  List.length (all_chunks [f]) = 3
  /\ List.length (review_body_of (all_chunks [f])) = 4000.
Proof. split; vm_compute; reflexivity. Qed.

(** A full ring loses its oldest entry. *)
Example ring_evicts_oldest :
  let ring := map str_of_nat (seq 0 1000) in
  List.length (ring_append (py "new") ring) = 1000
  /\ hd [] (ring_append (py "new") ring) = py "1"
  /\ last (ring_append (py "new") ring) [] = py "new".
Proof. repeat split; vm_compute; reflexivity. Qed.

(** [gh_post] gives up after three requests and logs the first two
    failures. *)
Example gh_post_three_tries :
  let w := {| LOG_RING := []; stdout := []; http := []; calls := [] |} in
  let r := gh_post (fun _ _ => Responds 500 (py "oops")) (py "u") (py "t")
             (CommentPayload (py "b")) default_max_tries w in
  fst r = Raised (Exception (py "POST u failed: 500 oops"))
  /\ List.length (http (snd r)) = 3
  /\ LOG_RING (snd r)
     = [py "[WARN] POST retry 1/2 after error: POST u failed: 500 oops";
        py "[WARN] POST retry 2/2 after error: POST u failed: 500 oops"].
Proof. repeat split; vm_compute; reflexivity. Qed.

(** The unresolved excerpt of the specification is anchored to line 1. *)
Example unresolved_goes_to_line_1 :
  let it := {| it_line := Some (py "completely unrelated text");
               it_comment := Some (py "where?"); it_detail := None;
               it_axis := Some (AxesStr (py "CR")); it_axes := None;
               it_lineno := None |} in
  item_step Difflib.ratio (py "docs/SRS/a.md")
    [py "intro"; py "the quick brown fox"; py "outro"] [] it
  = [{| ic_path := py "docs/SRS/a.md"; ic_line := 1;
        ic_body := py "### AI Review" ++ newline ++ py "**axes:** C, R" ++ newline
                   ++ py "**excerpt:**" ++ newline ++ py "```text" ++ newline
                   ++ py "completely unrelated text" ++ newline ++ py "```"
                   ++ newline ++ py "where?" |}].
Proof. vm_compute. reflexivity. Qed.

(* ================================================================== *)
(** * Further properties of the script *)
(* ================================================================== *)

(** ** Trimming and the resolver *)

Lemma lstrip_spaces_app (a t : str) :
  forallb isspace a = true -> lstrip (a ++ t) = lstrip t.
Proof.
  induction a as [|c a IH]; simpl; intros H; [reflexivity|].
  apply andb_true_iff in H. destruct H as [Hc Ha]. rewrite Hc. now apply IH.
Qed.

Lemma lstrip_app (s b : str) :
  lstrip (s ++ b) = match lstrip s with
                    | [] => lstrip b
                    | _ :: _ => lstrip s ++ b
                    end.
Proof.
  induction s as [|c s IH]; simpl.
  - destruct (lstrip b); reflexivity.
  - destruct (isspace c); [exact IH | reflexivity].
Qed.

Lemma lstrip_all_spaces (b : str) : forallb isspace b = true -> lstrip b = [].
Proof.
  intros H. rewrite <- (app_nil_r b). now rewrite lstrip_spaces_app.
Qed.

Lemma rstrip_spaces_app (t b : str) :
  forallb isspace b = true -> rstrip (t ++ b) = rstrip t.
Proof.
  intros H. unfold rstrip. rewrite rev_app_distr, lstrip_spaces_app; [reflexivity|].
  rewrite forallb_forall in *. intros x Hx. apply H. now apply in_rev.
Qed.

Lemma rstrip_nil : rstrip [] = [].
Proof. reflexivity. Qed.

(** Whitespace around a string does not survive [strip]. *)
Lemma strip_padding (a s b : str) :
  forallb isspace a = true -> forallb isspace b = true ->
  strip (a ++ s ++ b) = strip s.
Proof.
  intros Ha Hb. unfold strip. rewrite lstrip_spaces_app by exact Ha.
  rewrite lstrip_app. destruct (lstrip s) as [|c t] eqn:E.
  - now rewrite lstrip_all_spaces.
  - rewrite <- E. now apply rstrip_spaces_app.
Qed.

(** What [lstrip] returns does not start with whitespace. *)
Lemma lstrip_head (s : str) :
  match lstrip s with
  | [] => True
  | c :: _ => isspace c = false
  end.
Proof.
  induction s as [|c s IH]; simpl; [exact I|].
  destruct (isspace c) eqn:E; [exact IH | exact E].
Qed.

Lemma lstrip_fixed (s : str) :
  match s with [] => True | c :: _ => isspace c = false end -> lstrip s = s.
Proof.
  destruct s as [|c s]; simpl; [reflexivity|]. now intros ->.
Qed.

Lemma lstrip_idempotent (s : str) : lstrip (lstrip s) = lstrip s.
Proof. apply lstrip_fixed. apply lstrip_head. Qed.

Lemma rstrip_idempotent (s : str) : rstrip (rstrip s) = rstrip s.
Proof.
  unfold rstrip. now rewrite rev_involutive, lstrip_idempotent.
Qed.

(** [rstrip] keeps the first character of a string that starts with a
    character that is not whitespace. *)
Lemma rstrip_keeps_head (c : char) (t : str) :
  isspace c = false -> exists t', rstrip (c :: t) = c :: t'.
Proof.
  intros Hc. unfold rstrip. simpl.
  rewrite lstrip_app. destruct (lstrip (rev t)) as [|d u] eqn:E.
  - simpl. rewrite Hc. now exists [].
  - rewrite rev_app_distr. simpl. now eexists.
Qed.

Lemma strip_idempotent (s : str) : strip (strip s) = strip s.
Proof.
  unfold strip. set (t := lstrip s).
  assert (Ht : match t with [] => True | c :: _ => isspace c = false end)
    by apply lstrip_head.
  assert (Hfix : lstrip (rstrip t) = rstrip t).
  { destruct t as [|c t']; [reflexivity|].
    destruct (rstrip_keeps_head c t' Ht) as [u Hu]. rewrite Hu.
    simpl. now rewrite Ht. }
  rewrite Hfix. apply rstrip_idempotent.
Qed.

(** X1. Whitespace before and after the excerpt never changes the
    answer of the resolver. *)
Theorem resolver_ignores_padding (ratio : str -> str -> Q) (lines : list str)
    (before excerpt after : str) :
  forallb isspace before = true -> forallb isspace after = true ->
  find_lineno_by_excerpt ratio lines (before ++ excerpt ++ after)
  = find_lineno_by_excerpt ratio lines excerpt.
Proof.
  intros Ha Hb. unfold find_lineno_by_excerpt.
  now rewrite (strip_padding before excerpt after Ha Hb).
Qed.

Lemma resolver_ignores_padding_witness :
  let lines := [py "intro"; py "the quick brown fox"; py "outro"] in
  forallb isspace (py "  ") = true /\ forallb isspace [10; 12288]%N = true
  /\ find_lineno_by_excerpt Difflib.ratio lines (py "  " ++ py "brown fox" ++ [10; 12288]%N)
     = find_lineno_by_excerpt Difflib.ratio lines (py "brown fox").
Proof.
  intros lines.
  assert (Ha : forallb isspace (py "  ") = true) by reflexivity.
  assert (Hb : forallb isspace [10; 12288]%N = true) by reflexivity.
  split; [exact Ha|]. split; [exact Hb|].
  exact (resolver_ignores_padding Difflib.ratio lines _ (py "brown fox") _ Ha Hb).
Defined.

(** X2. An answer of the resolver is never arbitrary: the line it names
    exists and either contains the trimmed excerpt or has a similarity of
    at least 0.6 with it. *)
Theorem resolver_answer_is_justified (ratio : str -> str -> Q) (lines : list str)
    (excerpt : str) (k : nat) :
  find_lineno_by_excerpt ratio lines excerpt = Some k ->
  strip excerpt <> []
  /\ exists lk,
       line_at lines k = Some lk
       /\ (Substring (strip excerpt) lk
           \/ (threshold <= similarity ratio excerpt lk)%Q).
Proof.
  unfold find_lineno_by_excerpt, similarity.
  destruct (truthy (strip excerpt)) eqn:T; simpl; [|discriminate].
  intros H. split; [now apply truthy_true|].
  destruct (exact_pass 1 lines (strip excerpt)) as [k'|] eqn:E.
  - inversion H; subst k'. apply exact_pass_Some in E.
    destruct E as [j [ln [-> [Hn [Hs _]]]]]. exists ln. split; [exact Hn | now left].
  - apply accept_fuzzy_Some in H. destruct H as [lk [Hk [Ht _]]].
    exists lk. split; [exact Hk | now right].
Qed.

Lemma resolver_answer_is_justified_witness :
  let lines := [py "intro"; py "the quick brown fox"; py "outro"] in
  let excerpt := py "the  quick   brown  fox!" in
  find_lineno_by_excerpt Difflib.ratio lines excerpt = Some 2
  /\ strip excerpt <> []
  /\ exists lk,
       line_at lines 2 = Some lk
       /\ (Substring (strip excerpt) lk
           \/ (threshold <= similarity Difflib.ratio excerpt lk)%Q).
Proof.
  intros lines excerpt.
  assert (H : find_lineno_by_excerpt Difflib.ratio lines excerpt = Some 2)
    by (vm_compute; reflexivity).
  split; [exact H|].
  exact (resolver_answer_is_justified Difflib.ratio lines excerpt 2 H).
Defined.

Lemma exact_pass_app (l m : list str) (ex : str) (i : nat) :
  exact_pass i (l ++ m) ex
  = match exact_pass i l ex with
    | Some k => Some k
    | None => exact_pass (i + List.length l) m ex
    end.
Proof.
  revert i. induction l as [|ln l IH]; intros i; simpl.
  - now rewrite Nat.add_0_r.
  - destruct (contains ex ln); [reflexivity|].
    rewrite IH. now replace (S i + List.length l) with (i + S (List.length l)) by lia.
Qed.

(** X3. When a line contains the trimmed excerpt, lines added at the end
    of the document do not change the answer. *)
Theorem resolver_exact_match_survives_appended_lines (ratio : str -> str -> Q)
    (lines more : list str) (excerpt : str) :
  strip excerpt <> [] ->
  (exists ln, In ln lines /\ Substring (strip excerpt) ln) ->
  find_lineno_by_excerpt ratio (lines ++ more) excerpt
  = find_lineno_by_excerpt ratio lines excerpt.
Proof.
  intros Hne [ln [Hin Hsub]]. unfold find_lineno_by_excerpt.
  apply truthy_true in Hne. rewrite Hne. simpl.
  rewrite exact_pass_app.
  destruct (exact_pass 1 lines (strip excerpt)) as [k|] eqn:E; [reflexivity|].
  exfalso. exact (proj1 (exact_pass_None lines (strip excerpt) 1) E ln Hin Hsub).
Qed.

Lemma resolver_exact_match_survives_appended_lines_witness :
  let lines := [py "intro"; py "the quick brown fox"] in
  let more := [py "brown fox"; py "outro"] in
  let excerpt := py "brown fox" in
  strip excerpt <> []
  /\ (exists ln, In ln lines /\ Substring (strip excerpt) ln)
  /\ find_lineno_by_excerpt Difflib.ratio (lines ++ more) excerpt
     = find_lineno_by_excerpt Difflib.ratio lines excerpt.
Proof.
  intros lines more excerpt.
  assert (Hne : strip excerpt <> []) by (vm_compute; discriminate).
  assert (Hex : exists ln, In ln lines /\ Substring (strip excerpt) ln).
  { exists (py "the quick brown fox"). split; [simpl; auto|].
    apply contains_spec. vm_compute. reflexivity. }
  split; [exact Hne|]. split; [exact Hex|].
  exact (resolver_exact_match_survives_appended_lines Difflib.ratio lines more
           excerpt Hne Hex).
Defined.

(** ** Normalization *)

Lemma collapse_ws_collapsed (s : str) :
  collapsed false (collapse_ws false s) = true
  /\ forall b, collapsed b (collapse_ws true s) = true.
Proof.
  induction s as [|c s [IH1 IH2]]; simpl.
  - split; [reflexivity | intros b; reflexivity].
  - destruct (isspace c) eqn:E.
    + split; [|exact IH2]. simpl. apply IH2.
    + split; [|intros b]; simpl; rewrite E; exact IH1.
Qed.

Lemma collapsed_fixed (b : bool) (s : str) :
  collapsed b s = true -> collapse_ws b s = s.
Proof.
  revert b. induction s as [|c s IH]; intros b; simpl; [reflexivity|].
  destruct (isspace c) eqn:E.
  - intros H. apply andb_true_iff in H. destruct H as [H Hs].
    apply andb_true_iff in H. destruct H as [Hc Hb].
    apply N.eqb_eq in Hc. apply negb_true_iff in Hb. subst b c.
    f_equal. now apply IH.
  - intros H. f_equal. now apply IH.
Qed.

Lemma collapsed_lstrip (b b' : bool) (s : str) :
  collapsed b s = true -> collapsed b' (lstrip s) = true.
Proof.
  revert b. induction s as [|c s IH]; intros b; simpl; [reflexivity|].
  destruct (isspace c) eqn:E.
  - intros H. apply andb_true_iff in H. destruct H as [_ Hs]. now apply (IH true).
  - intros H. simpl. now rewrite E.
Qed.

Lemma collapsed_prefix (b : bool) (p q : str) :
  collapsed b (p ++ q) = true -> collapsed b p = true.
Proof.
  revert b. induction p as [|c p IH]; intros b; simpl; [reflexivity|].
  destruct (isspace c).
  - intros H. apply andb_true_iff in H. destruct H as [H Hs].
    rewrite H. simpl. now apply IH.
  - apply IH.
Qed.

Lemma rstrip_prefix (s : str) : exists suf, s = rstrip s ++ suf.
Proof.
  unfold rstrip. destruct (lstrip_suffix (rev s)) as [pre H].
  exists (rev pre). rewrite <- rev_app_distr, <- H. now rewrite rev_involutive.
Qed.

Lemma norm_collapsed (s : str) : collapsed false (norm s) = true.
Proof.
  unfold norm, strip.
  pose proof (proj1 (collapse_ws_collapsed s)) as Hc.
  apply (collapsed_lstrip false false) in Hc.
  destruct (rstrip_prefix (lstrip (collapse_ws false s))) as [suf Hsuf].
  rewrite Hsuf in Hc. now apply collapsed_prefix in Hc.
Qed.

(** X4. Normalizing is idempotent, so the score of a line in the fuzzy
    pass is the score of its normalized form: collapsing the whitespace
    of the document beforehand changes no similarity. *)
Theorem norm_idempotent (ratio : str -> str -> Q) (excerpt ln : str) :
  norm (norm ln) = norm ln
  /\ similarity ratio excerpt (norm ln) = similarity ratio excerpt ln.
Proof.
  assert (H : norm (norm ln) = norm ln).
  { unfold norm at 1. rewrite (collapsed_fixed false (norm ln) (norm_collapsed ln)).
    unfold norm. apply strip_idempotent. }
  split; [exact H|]. unfold similarity. now rewrite H.
Qed.

(** ** Storage keys *)

Lemma split1_snd_None (sep s : str) :
  sep <> [] ->
  (split1_snd sep s = None <-> ~ Substring sep s).
Proof.
  intros Hsep. induction s as [|c s IH]; simpl.
  - split; [|reflexivity]. intros _ [pre [post H]].
    destruct pre; [destruct sep; [congruence | discriminate] | discriminate].
  - destruct (startswith sep (c :: s)) eqn:E.
    + split; [discriminate|]. intros H. exfalso. apply H.
      apply startswith_spec in E. destruct E as [t Ht]. now exists [], t.
    + rewrite IH. split.
      * intros H [pre [post Hs]]. destruct pre as [|x pre]; simpl in Hs.
        -- assert (startswith sep (c :: s) = true)
             by (apply startswith_spec; now exists post).
           congruence.
        -- inversion Hs; subst. apply H. now exists pre, post.
      * intros H [pre [post ->]]. apply H. now exists (c :: pre), post.
Qed.

Lemma split1_snd_first (stem rest : str) :
  ~ Substring (py "__") (stem ++ py "_") ->
  split1_snd (py "__") (stem ++ py "__" ++ rest) = Some rest.
Proof.
  induction stem as [|c stem IH]; intros H.
  - reflexivity.
  - change ((c :: stem) ++ py "__" ++ rest) with (c :: (stem ++ py "__" ++ rest)).
    cbn [split1_snd].
    destruct (startswith (py "__") (c :: stem ++ py "__" ++ rest)) eqn:E.
    + exfalso. apply H. apply startswith_spec in E. destruct E as [t Ht].
      destruct stem as [|d stem].
      * simpl in Ht. inversion Ht; subst. now exists [], [].
      * simpl in Ht. inversion Ht; subst. exists [], (stem ++ py "_").
        reflexivity.
    + apply IH. intros [pre [post Hs]]. apply H. exists (c :: pre), post.
      simpl. now rewrite Hs.
Qed.

Lemma rsplit1_aux_absent (c : char) (s : str) :
  ~ In c s -> rsplit1_aux c s = None.
Proof.
  induction s as [|x s IH]; simpl; intros H; [reflexivity|].
  rewrite IH by tauto.
  destruct (char_eqb x c) eqn:E; [|reflexivity].
  apply char_eqb_eq in E. tauto.
Qed.

Lemma rsplit1_last (c : char) (m ext : str) :
  ~ In c ext -> rsplit1_fst c (m ++ c :: ext) = m.
Proof.
  intros H. unfold rsplit1_fst.
  assert (E : rsplit1_aux c (m ++ c :: ext) = Some m).
  { induction m as [|x m IH]; simpl.
    - rewrite rsplit1_aux_absent by exact H.
      unfold char_eqb. now rewrite N.eqb_refl.
    - now rewrite IH. }
  now rewrite E.
Qed.

(** X5. The naming convention round trip: a key built as
    [<stem>__<model>.<ext>] parses back to [<model>], dots in the model
    included, provided the stem holds no double underscore and does not
    end with an underscore (the split is at the leftmost ["__"]) and the
    extension holds no dot; a key parses to nothing exactly when it holds
    no ["__"]. *)
Theorem model_of_round_trip (nm stem model ext : str) :
  (model_of nm = None <-> ~ Substring (py "__") nm)
  /\ (~ Substring (py "__") (stem ++ py "_") ->
      ~ In 46%N ext ->
      model_of (stem ++ py "__" ++ model ++ py "." ++ ext) = Some model).
Proof.
  split.
  - unfold model_of.
    destruct (split1_snd (py "__") nm) as [rest|] eqn:E.
    + split; [discriminate|]. intros H.
      apply (split1_snd_None (py "__") nm) in H; [congruence | discriminate].
    + split; [|reflexivity]. intros _.
      apply (split1_snd_None (py "__") nm); [discriminate | exact E].
  - intros Hstem Hext. unfold model_of.
    rewrite split1_snd_first by exact Hstem.
    f_equal. apply (rsplit1_last 46%N model ext Hext).
Qed.

Lemma model_of_round_trip_witness :
  ~ Substring (py "__") (py "se24g2" ++ py "_")
  /\ ~ In 46%N (py "json")
  /\ model_of (py "se24g2" ++ py "__" ++ py "gpt-4.1" ++ py "." ++ py "json")
     = Some (py "gpt-4.1").
Proof.
  assert (H1 : ~ Substring (py "__") (py "se24g2" ++ py "_"))
    by (apply contains_false; reflexivity).
  assert (H2 : ~ In 46%N (py "json"))
    by (simpl; intros [H | [H | [H | [H | []]]]]; discriminate).
  split; [exact H1|]. split; [exact H2|].
  exact (proj2 (model_of_round_trip [] (py "se24g2") (py "gpt-4.1") (py "json")) H1 H2).
Defined.

(** A stem that ends with an underscore shifts the split by one. *)
Example model_of_stem_with_underscore :
  model_of (py "a_" ++ py "__" ++ py "m" ++ py ".json") = Some (py "_m").
Proof. reflexivity. Qed.

(** ** The sort *)

Lemma insert_desc_perm (p : ResultFile) (l : list ResultFile) :
  Permutation (p :: l) (insert_desc p l).
Proof.
  induction l as [|q r IH]; simpl; [reflexivity|].
  destruct (st_mtime q <=? st_mtime p)%Z; [reflexivity|].
  rewrite perm_swap. now apply perm_skip.
Qed.

Lemma sorted_desc_perm (l : list ResultFile) : Permutation l (sorted_desc l).
Proof.
  induction l as [|p r IH]; simpl; [reflexivity|].
  rewrite <- insert_desc_perm. now apply perm_skip.
Qed.

Lemma sorted_desc_fixed (l : list ResultFile) :
  StronglySorted newer_or_equal l -> sorted_desc l = l.
Proof.
  induction 1 as [|p r Hr IH Hp]; simpl; [reflexivity|].
  rewrite IH. now apply insert_desc_front.
Qed.

Lemma same_time_sorted (t : Z) (l : list ResultFile) :
  Forall (fun p => st_mtime p = t) l -> StronglySorted newer_or_equal l.
Proof.
  induction 1 as [|p r Hp Hr IH]; constructor; [exact IH|].
  eapply Forall_impl; [|exact Hr]. unfold newer_or_equal. intros q Hq. lia.
Qed.

(** X6. The candidates are the globbed files, each exactly once, most
    recent first, and the sort is stable: files with the same
    modification time stay in the order of the glob. *)
Theorem candidates_sorted_stable (globbed : list ResultFile) :
  Permutation globbed (sorted_desc globbed)
  /\ StronglySorted (fun p q => (st_mtime q <= st_mtime p)%Z) (sorted_desc globbed)
  /\ forall t,
       filter (fun p => (st_mtime p =? t)%Z) (sorted_desc globbed)
       = filter (fun p => (st_mtime p =? t)%Z) globbed.
Proof.
  split; [apply sorted_desc_perm|]. split; [apply sorted_desc_sorted|].
  intros t. rewrite filter_sorted_desc. apply sorted_desc_fixed.
  apply (same_time_sorted t). apply Forall_forall. intros p Hp.
  apply filter_In in Hp. destruct Hp as [_ Hp]. now apply Z.eqb_eq.
Qed.

(** ** The selection *)

Lemma sorted_remove_middle (a b : list ResultFile) (x : ResultFile) :
  StronglySorted newer_or_equal (a ++ x :: b) ->
  StronglySorted newer_or_equal (a ++ b).
Proof.
  induction a as [|y a IH]; simpl; intros H; inversion H; subst; [assumption|].
  constructor; [now apply IH|].
  rewrite Forall_app in *. destruct H3 as [Ha Hb]. inversion Hb; subst.
  split; assumption.
Qed.

Lemma pick_fold_sorted (l : list ResultFile) (d : Dict) :
  StronglySorted newer_or_equal (map snd d ++ l) ->
  StronglySorted newer_or_equal (map snd (fold_left pick_step l d)).
Proof.
  revert d. induction l as [|p l IH]; intros d H; simpl.
  - now rewrite app_nil_r in H.
  - apply IH. unfold pick_step. destruct (model_of (name p)) as [m|].
    + destruct (dict_has d m); simpl.
      * now apply sorted_remove_middle in H.
      * rewrite map_app. simpl. now rewrite <- app_assoc.
    + now apply sorted_remove_middle in H.
Qed.

Lemma pick_fold_all (l : list ResultFile) (d : Dict) :
  Forall (fun p => parses p = true) l ->
  NoDup (map Some (map fst d) ++ map (fun p => model_of (name p)) l) ->
  map snd (fold_left pick_step l d) = map snd d ++ l.
Proof.
  revert d. induction l as [|p l IH]; intros d Hp Hnd; simpl.
  - now rewrite app_nil_r.
  - inversion Hp as [|? ? Hpp Hpl]; subst. unfold parses in Hpp.
    unfold pick_step. destruct (model_of (name p)) as [m|] eqn:Mp; [|discriminate].
    simpl in Hnd. rewrite Mp in Hnd.
    assert (Hd : dict_has d m = false).
    { apply dict_has_not_In. intros Hin.
      apply NoDup_remove_2 in Hnd. apply Hnd. apply in_app_iff. left.
      now apply in_map. }
    rewrite Hd. simpl. rewrite IH.
    + rewrite map_app. simpl. now rewrite <- app_assoc.
    + exact Hpl.
    + rewrite !map_app. simpl. rewrite <- app_assoc. simpl.
      apply NoDup_remove_1 in Hnd as Hrest.
      apply NoDup_remove_2 in Hnd.
      apply (Permutation_NoDup (Permutation_middle _ _ _)).
      now constructor.
Qed.

(** X7. The selection comes out most recent first, and selecting again
    from a selection changes nothing. *)
Theorem selection_sorted_idempotent (globbed : list ResultFile) :
  let picked := pick_latest_result_jsons_for_stem globbed in
  StronglySorted (fun p q => (st_mtime q <= st_mtime p)%Z) picked
  /\ pick_latest_result_jsons_for_stem picked = picked.
Proof.
  cbv zeta.
  assert (Hs : StronglySorted newer_or_equal
                 (pick_latest_result_jsons_for_stem globbed)).
  { unfold pick_latest_result_jsons_for_stem. apply pick_fold_sorted.
    simpl. apply sorted_desc_sorted. }
  split; [exact Hs|].
  unfold pick_latest_result_jsons_for_stem at 1.
  rewrite (sorted_desc_fixed _ Hs).
  unfold pick_latest_result_jsons_for_stem in *.
  destruct (pick_fold_entries (sorted_desc globbed) []) as [ext [E Hext]].
  simpl in E. rewrite E in *.
  assert (Hmodel : forall m p, In (m, p) ext -> model_of (name p) = Some m).
  { intros m p H. now destruct (Hext m p H). }
  apply (pick_fold_all (map snd ext) []).
  - apply Forall_forall. intros p Hp. apply in_map_iff in Hp.
    destruct Hp as [[m p'] [<- Hin]]. unfold parses. simpl.
    now rewrite (Hmodel m p' Hin).
  - simpl. replace (map (fun p => model_of (name p)) (map snd ext))
      with (map Some (map fst ext)).
    + apply NoDup_map_Some. rewrite <- E. apply pick_fold_NoDup. constructor.
    + rewrite !map_map. apply map_ext_in. intros [m p] H. simpl.
      symmetry. now apply Hmodel.
Qed.

(** ** The sanitizer and the ring *)

Lemma count_fence_hit (r : str) : count fence (fence ++ r) = S (count fence r).
Proof. reflexivity. Qed.

Lemma count_fence_miss (c : char) (r : str) :
  startswith fence (c :: r) = false -> count fence (c :: r) = count fence r.
Proof.
  intros H. unfold count. cbn [count_aux]. now rewrite H.
Qed.

(** X8. The sanitizer only inserts: its result is the trimmed text with
    one zero-width space more for every triple backtick that
    [str.count] finds in it, taking the zero-width spaces out of the
    result and out of the trimmed text gives the same string, and a text
    without triple backtick is only trimmed. *)
Theorem sanitize_fence_only_inserts (s : str) :
  let keep := fun c : char => negb (c =? zwsp)%N in
  List.length (_sanitize_fence s)
  = List.length (strip s) + count fence (strip s)
  /\ filter keep (_sanitize_fence s) = filter keep (strip s)
  /\ (~ Substring fence (strip s) -> _sanitize_fence s = strip s).
Proof.
  cbv zeta. unfold _sanitize_fence.
  apply (sanitize_ind (fun t out =>
    List.length out = List.length t + count fence t
    /\ filter (fun c : char => negb (c =? zwsp)%N) out
       = filter (fun c : char => negb (c =? zwsp)%N) t
    /\ (~ Substring fence t -> out = t))).
  - repeat split.
  - intros c r Hmiss [Hlen [Hfil Hid]]. split; [|split].
    + rewrite count_fence_miss by exact Hmiss. simpl. now rewrite Hlen.
    + simpl. now rewrite Hfil.
    + intros Hno. f_equal. apply Hid. intros [pre [post ->]]. apply Hno.
      now exists (c :: pre), post.
  - intros r [Hlen [Hfil Hid]]. split; [|split].
    + rewrite count_fence_hit. simpl. rewrite Hlen. lia.
    + simpl. now rewrite Hfil.
    + intros Hno. exfalso. apply Hno. now exists [], r.
Qed.

Lemma sanitize_fence_only_inserts_witness :
  ~ Substring fence (strip (py "  plain `` text  "))
  /\ _sanitize_fence (py "  plain `` text  ") = strip (py "  plain `` text  ").
Proof.
  assert (H : ~ Substring fence (strip (py "  plain `` text  ")))
    by (apply contains_false; reflexivity).
  split; [exact H|].
  exact (proj2 (proj2 (sanitize_fence_only_inserts (py "  plain `` text  "))) H).
Defined.

(** X9. Appending to the ring: below its capacity the entry is added at
    the end; at its capacity the oldest entry leaves and the others move
    up; in every case the ring holds at most 1000 entries and the new
    entry is the last one. *)
Theorem ring_append_behaviour (x : str) (ring : list str) :
  (List.length ring < 1000 -> ring_append x ring = ring ++ [x])
  /\ (List.length ring = 1000 -> ring_append x ring = tl ring ++ [x])
  /\ List.length (ring_append x ring) <= 1000
  /\ last (ring_append x ring) [] = x.
Proof.
  unfold ring_append, last_n, maxlen. rewrite length_app. simpl.
  split; [|split; [|split]].
  - intros H. replace (List.length ring + 1 - 1000) with 0 by lia. reflexivity.
  - intros H. replace (List.length ring + 1 - 1000) with 1 by lia.
    destruct ring as [|r0 ring]; [simpl in H; lia | reflexivity].
  - rewrite length_skipn, length_app. simpl. lia.
  - rewrite skipn_app.
    replace (List.length ring + 1 - 1000 - List.length ring) with 0 by lia.
    simpl. apply last_last.
Qed.

Lemma ring_append_behaviour_witness :
  let ring := map str_of_nat (seq 0 1000) in
  List.length ring = 1000
  /\ ring_append (py "new") ring = tl ring ++ [py "new"].
Proof.
  intros ring.
  assert (H : List.length ring = 1000)
    by (unfold ring; rewrite length_map, length_seq; reflexivity).
  split; [exact H|].
  exact (proj1 (proj2 (ring_append_behaviour (py "new") ring)) H).
Defined.

(** ** Retries *)

Section Retries.

Variable requests_post : list Request -> Request -> Response.

Lemma attempt_cases (rq : Request) (w : World) :
  let w1 := {| LOG_RING := LOG_RING w; stdout := stdout w;
               http := http w ++ [rq]; calls := calls w |} in
  (attempt requests_post rq w = (Returns (requests_post (http w) rq), w1)
   /\ accepted requests_post (http w) rq = true)
  \/ (exists e, attempt requests_post rq w = (Raised e, w1)
      /\ accepted requests_post (http w) rq = false).
Proof.
  unfold attempt, bind, send, accepted. cbv beta iota zeta.
  destruct (requests_post (http w) rq) as [msg | code text].
  - right. eexists. split; reflexivity.
  - destruct (300 <=? code).
    + right. eexists. split; reflexivity.
    + left. split; reflexivity.
Qed.

Lemma gh_post_loop_full (rq : Request) (max_tries left i : nat) (w : World) :
  i + left = S max_tries ->
  exists n,
    Nat.min 1 left <= n <= left
    /\ http (snd (gh_post_loop requests_post rq max_tries left i w))
       = http w ++ repeat rq n
    /\ calls (snd (gh_post_loop requests_post rq max_tries left i w)) = calls w
    /\ List.length (stdout (snd (gh_post_loop requests_post rq max_tries left i w)))
       = List.length (stdout w) + (n - 1)
    /\ (forall k, S k < n ->
          accepted requests_post (http w ++ repeat rq k) rq = false)
    /\ match fst (gh_post_loop requests_post rq max_tries left i w) with
       | Returns (Some resp) =>
           resp = requests_post (http w ++ repeat rq (n - 1)) rq
           /\ accepted requests_post (http w ++ repeat rq (n - 1)) rq = true
       | Returns None => left = 0
       | Raised _ =>
           n = left
           /\ accepted requests_post (http w ++ repeat rq (n - 1)) rq = false
       end.
Proof.
  revert i w. induction left as [|left IH]; intros i w Hinv.
  - exists 0. simpl. rewrite app_nil_r. repeat split; lia.
  - cbn [gh_post_loop].
    destruct (attempt_cases rq w) as [[E Hacc] | [e [E Hacc]]]; cbv zeta in E.
    + erewrite try_Returns by (erewrite bind_Returns by exact E; reflexivity).
      exists 1. cbn [fst snd http calls stdout repeat Nat.sub].
      rewrite app_nil_r. repeat split; try lia. exact Hacc.
    + erewrite try_Raised by (erewrite bind_Raised by exact E; reflexivity).
      destruct (Nat.eqb_spec i max_tries) as [Hi | Hi].
      * exists 1. unfold raise. cbn [fst snd http calls stdout repeat Nat.sub].
        rewrite app_nil_r. repeat split; try lia. exact Hacc.
      * erewrite bind_Returns by apply warn_run.
        match goal with
        | |- context [gh_post_loop _ _ _ _ _ ?w0] =>
            destruct (IH (S i) w0 ltac:(lia))
              as [n [Hn [Hh [Hc [Hout [Hk Hres]]]]]];
            destruct (gh_post_loop requests_post rq max_tries left (S i) w0)
              as [o' w'] eqn:E'
        end.
        cbn [fst snd http calls stdout after_warn] in *.
        assert (Hn1 : 1 <= n) by lia.
        exists (S n). split; [lia|]. split.
        { rewrite Hh. symmetry. apply repeat_snoc_front. }
        split; [exact Hc|]. split.
        { rewrite Hout, length_app. simpl. lia. }
        split.
        { intros [|k] Hlt.
          - simpl. now rewrite app_nil_r.
          - rewrite repeat_snoc_front. apply Hk. lia. }
        replace (S n - 1) with (S (n - 1)) by lia.
        rewrite repeat_snoc_front.
        destruct o' as [[r|] | e']; [exact Hres | lia |].
        destruct Hres as [-> Hres]. split; [reflexivity | exact Hres].
Qed.

(** X10. [gh_post] with at least one try sends the same request again
    until one is accepted (status below 300) or the tries are used up, and
    sends nothing else: every request before the last was refused. It
    returns the response of the last request when that was accepted, and
    raises only after [max_tries] refused requests; every refused request
    but the last of them prints one warning. *)
Theorem gh_post_retries (u token : str) (payload : Payload) (max_tries : nat)
    (w : World) :
  0 < max_tries ->
  let rq := {| url := u; bearer := token; json := payload |} in
  let r := gh_post requests_post u token payload max_tries w in
  exists n,
    1 <= n <= max_tries
    /\ http (snd r) = http w ++ repeat rq n
    /\ calls (snd r) = calls w
    /\ List.length (stdout (snd r)) = List.length (stdout w) + (n - 1)
    /\ (forall k, S k < n ->
          accepted requests_post (http w ++ repeat rq k) rq = false)
    /\ match fst r with
       | Returns (Some resp) =>
           resp = requests_post (http w ++ repeat rq (n - 1)) rq
           /\ accepted requests_post (http w ++ repeat rq (n - 1)) rq = true
       | Returns None => False
       | Raised _ =>
           n = max_tries
           /\ accepted requests_post (http w ++ repeat rq (n - 1)) rq = false
       end.
Proof.
  intros Hmax rq r. unfold r, gh_post. fold rq.
  destruct (gh_post_loop_full rq max_tries max_tries 1 w ltac:(lia))
    as [n [Hn [Hh [Hc [Hout [Hk Hres]]]]]].
  exists n. split; [lia|]. split; [exact Hh|]. split; [exact Hc|].
  split; [exact Hout|]. split; [exact Hk|].
  destruct (fst (gh_post_loop requests_post rq max_tries max_tries 1 w))
    as [[resp|] | e]; [exact Hres | lia | exact Hres].
Qed.

End Retries.

(** X10 where the server refuses once and then accepts. *)
Lemma gh_post_retries_witness :
  let requests_post := fun (sent : list Request) (_ : Request) =>
    match sent with
    | [] => Responds 502 (py "Bad Gateway")
    | _ => Responds 201 (py "{}")
    end in
  let w := {| LOG_RING := []; stdout := []; http := []; calls := [] |} in
  let r := gh_post requests_post (py "u") (py "t") (CommentPayload (py "b")) 3 w in
  0 < 3
  /\ fst r = Returns (Some (Responds 201 (py "{}")))
  /\ exists n,
       1 <= n <= 3
       /\ List.length (http (snd r)) = n
       /\ List.length (stdout (snd r)) = n - 1.
Proof.
  intros requests_post w r.
  assert (H3 : 0 < 3) by lia.
  split; [exact H3|]. split; [vm_compute; reflexivity|].
  destruct (gh_post_retries requests_post (py "u") (py "t")
              (CommentPayload (py "b")) 3 w H3)
    as [n [Hn [Hh [_ [Hout _]]]]].
  exists n. split; [exact Hn|]. fold r in Hh, Hout. split.
  - rewrite Hh. simpl. apply repeat_length.
  - rewrite Hout. reflexivity.
Defined.

(** ** The run as a whole *)

Section WholeRun.

Variable ratio : str -> str -> Q.
Variable requests_post : list Request -> Request -> Response.
Variable RESULT_DIR : str.
Variable repo : str.
Variable pr_number : nat.
Variable token : str.
Variable environ : Environ.

(** X11. When the server accepts the combined review at the first
    request, [main] sends that one request and nothing else: no retry, no
    failure notice, no inline request; and its last log entry reports the
    review. *)
Theorem accepted_review_is_the_only_request (srs_files : list SrsFile) (w : World) :
  let review_body := review_body_of (all_chunks srs_files) in
  let payload := payload_of (all_comments ratio srs_files) in
  let rq := review_request repo pr_number token review_body payload in
  accepted requests_post (http w) rq = true ->
  exists w',
    main ratio requests_post RESULT_DIR repo pr_number token environ srs_files w
    = (Returns tt, w')
    /\ http w' = http w ++ [rq]
    /\ calls w' = calls w ++ [CallPullReview review_body payload]
    /\ last (LOG_RING w') []
       = py "[INFO] " ++ py "Posted review: overall="
         ++ (if truthy review_body then py "yes" else py "no")
         ++ py ", inline=" ++ str_of_nat (List.length payload).
Proof.
  intros review_body payload rq Hacc.
  destruct (file_fold_spec ratio RESULT_DIR srs_files ([], []) w)
    as [w1 [Efold [Hc1 Hh1]]].
  simpl in Efold.
  destruct (post_pull_review_run requests_post repo pr_number token review_body
              payload w1) as [o [w2 [n [E [Hc2 [Hn [Hh2 [Hk Hres]]]]]]]].
  cbv zeta in Hh2, Hk, Hres. fold rq in Hh2, Hk, Hres. rewrite Hh1 in *.
  assert (n = 1).
  { destruct n as [|[|n]]; [lia | reflexivity |].
    specialize (Hk 0 ltac:(lia)). simpl in Hk. rewrite app_nil_r in Hk.
    congruence. }
  subst n. simpl in Hres, Hh2. rewrite app_nil_r in Hres.
  destruct o as [[] | e]; [|congruence].
  eexists. split.
  - unfold main. erewrite bind_Returns by exact Efold.
    apply submit_success. exact E.
  - unfold after_info. cbn [http calls LOG_RING fst snd].
    split; [exact Hh2|]. split; [now rewrite Hc2, Hc1|].
    destruct (ring_append_last
                (py "[INFO] " ++ py "Posted review: overall="
                 ++ (if truthy review_body then py "yes" else py "no")
                 ++ py ", inline=" ++ str_of_nat (List.length payload))
                (LOG_RING w2)) as [front Hf].
    fold review_body payload. rewrite Hf. apply last_last.
Qed.

(** X12. After [main] the log ring holds between 1 and 1000 entries,
    whatever it held before. *)
Theorem ring_bounded_after_main (srs_files : list SrsFile) (w : World) :
  let w' := snd (main ratio requests_post RESULT_DIR repo pr_number token environ
                   srs_files w) in
  1 <= List.length (LOG_RING w') <= 1000.
Proof.
  cbv zeta.
  destruct (main_run ratio requests_post RESULT_DIR repo pr_number token environ
              srs_files w) as [w1 [_ [_ Hm]]].
  rewrite Hm.
  set (body := review_body_of (all_chunks srs_files)).
  set (payload := payload_of (all_comments ratio srs_files)).
  assert (Hring : forall x ring,
            1 <= List.length (ring_append x ring) <= 1000).
  { intros x ring. split; [|apply ring_append_length].
    destruct (ring_append_last x ring) as [front ->].
    rewrite length_app. simpl. lia. }
  destruct (post_pull_review_run requests_post repo pr_number token body payload w1)
    as [o [w2 [n [E _]]]].
  destruct o as [[] | e].
  - rewrite (submit_success requests_post repo pr_number token environ
               body payload w1 w2 E). apply Hring.
  - destruct (submit_failure requests_post repo pr_number token environ
                body payload w1 w2 e E)
      as [o [w3 [n1 [n2 [_ [_ [_ [_ [_ [_ Hs]]]]]]]]]].
    rewrite Hs. destruct o; apply Hring.
Qed.

End WholeRun.

(** X13. An item without a usable [lineno] (absent or 0) that passes the
    filter is anchored inside the document: its line is at least 1 and at
    most the number of lines, and it is 1 when the document is empty. *)
Theorem unnumbered_item_is_anchored_in_the_document (ratio : str -> str -> Q)
    (path : str) (lines : list str) (it : ReviewItem) :
  survives it = true ->
  it_lineno it = None \/ it_lineno it = Some 0%Z ->
  exists c,
    item_step ratio path lines [] it = [c]
    /\ (1 <= ic_line c <= Z.max 1 (Z.of_nat (List.length lines)))%Z.
Proof.
  intros Hs Hno. exists (comment_of ratio path lines it). split.
  - now rewrite item_step_spec, Hs.
  - unfold comment_of, lineno_of. simpl.
    destruct Hno as [-> | ->]; simpl; rewrite or_one_resolved;
      apply resolved_line_bounds.
Qed.

Lemma unnumbered_item_is_anchored_in_the_document_witness :
  let it := {| it_line := Some (py "anything"); it_comment := Some (py "note");
               it_detail := None; it_axis := None; it_axes := None;
               it_lineno := Some 0%Z |} in
  survives it = true
  /\ exists c,
       item_step Difflib.ratio (py "docs/SRS/a.md") [] [] it = [c]
       /\ (1 <= ic_line c <= Z.max 1 (Z.of_nat (@List.length str [])))%Z.
Proof.
  intros it.
  assert (Hs : survives it = true) by reflexivity.
  split; [exact Hs|].
  exact (unnumbered_item_is_anchored_in_the_document Difflib.ratio
           (py "docs/SRS/a.md") [] it Hs (or_intror eq_refl)).
Defined.

Lemma accepted_review_is_the_only_request_witness :
  let f := {| repo_rel := py "docs/SRS/a.md"; disk_lines := [py "The system shall log in."];
              globbed := [{| name := py "a__m.json"; st_mtime := 1;
                             content := inr {| overall := Some (py "fine");
                                               summary := None;
                                               review_items := None;
                                               comments := None |} |}] |} in
  let post := fun (_ : list Request) (_ : Request) => Responds 201 [] in
  let environ := {| GITHUB_SERVER_URL := None; GITHUB_REPOSITORY := None;
                    GITHUB_RUN_ID := None |} in
  let w := {| LOG_RING := []; stdout := []; http := []; calls := [] |} in
  let review_body := review_body_of (all_chunks [f]) in
  let payload := payload_of (all_comments Difflib.ratio [f]) in
  let rq := review_request (py "o/r") 7 (py "t") review_body payload in
  accepted post (http w) rq = true
  /\ exists w',
       main Difflib.ratio post (py "/r") (py "o/r") 7 (py "t") environ [f] w
       = (Returns tt, w')
       /\ http w' = http w ++ [rq]
       /\ calls w' = calls w ++ [CallPullReview review_body payload]
       /\ last (LOG_RING w') []
          = py "[INFO] " ++ py "Posted review: overall="
            ++ (if truthy review_body then py "yes" else py "no")
            ++ py ", inline=" ++ str_of_nat (List.length payload).
Proof.
  intros f post environ w review_body payload rq.
  assert (H : accepted post (http w) rq = true) by reflexivity.
  split; [exact H|].
  exact (accepted_review_is_the_only_request Difflib.ratio post (py "/r") (py "o/r")
           7 (py "t") environ [f] w H).
Defined.

(** ** Numbering the lines *)

Lemma splitlines_no_break_upto (n : nat) (s : str) :
  List.length s <= n ->
  Forall (Forall (fun c => is_linebreak c = false)) (splitlines s).
Proof.
  revert s. induction n as [|n IH]; intros s Hlen.
  - destruct s; [constructor | simpl in Hlen; lia].
  - destruct s as [|c r]; [constructor|]. simpl in Hlen.
    cbn [splitlines]. destruct (is_linebreak c) eqn:Ec.
    + constructor; [constructor|].
      destruct (c =? 13)%N; [|apply IH; lia].
      destruct r as [|d r']; [constructor|].
      destruct (d =? 10)%N; apply IH; simpl in *; lia.
    + specialize (IH r ltac:(lia)).
      destruct (splitlines r) as [|l ls].
      * repeat constructor. exact Ec.
      * inversion IH; subst. constructor; [|assumption].
        constructor; assumption.
Qed.

(** No line of [splitlines] holds a line end. *)
Lemma splitlines_no_break (s : str) :
  Forall (Forall (fun c => is_linebreak c = false)) (splitlines s).
Proof. apply (splitlines_no_break_upto (List.length s)). lia. Qed.

Lemma splitlines_line (l rest : str) :
  Forall (fun c => is_linebreak c = false) l ->
  splitlines (l ++ newline ++ rest) = l :: splitlines rest.
Proof.
  induction 1 as [|c l Hc Hl IH].
  - reflexivity.
  - cbn [app splitlines]. rewrite Hc. cbn [app] in IH. now rewrite IH.
Qed.

Lemma splitlines_last (l : str) :
  l <> [] ->
  Forall (fun c => is_linebreak c = false) l ->
  splitlines l = [l].
Proof.
  intros Hne H. induction H as [|c l Hc Hl IH]; [contradiction|].
  cbn [splitlines]. rewrite Hc.
  destruct l as [|d l']; [reflexivity|].
  now rewrite IH.
Qed.

(** Lines that are not empty and hold no line end are what
    [splitlines] finds in their [join]. *)
Lemma splitlines_join (lines : list str) :
  Forall (fun l => l <> [] /\ Forall (fun c => is_linebreak c = false) l) lines ->
  splitlines (join newline lines) = lines.
Proof.
  induction 1 as [|l lines [Hne Hl] Hrest IH]; [reflexivity|].
  destruct lines as [|l2 lines].
  - cbn [join]. now apply splitlines_last.
  - change (join newline (l :: l2 :: lines))
      with (l ++ newline ++ join newline (l2 :: lines)).
    rewrite splitlines_line by exact Hl. now rewrite IH.
Qed.

Lemma uint_digits_no_break (d : Decimal.uint) :
  Forall (fun c => is_linebreak c = false) (py (NilEmpty.string_of_uint d)).
Proof.
  induction d; [constructor | constructor; [reflexivity | exact IHd] ..].
Qed.

Lemma fmt04_no_break (i : nat) :
  Forall (fun c => is_linebreak c = false) (fmt04 i).
Proof.
  unfold fmt04. apply Forall_app. split.
  - apply Forall_forall. intros c Hc. apply repeat_spec in Hc. now subst.
  - apply uint_digits_no_break.
Qed.

Lemma number_lines_wellformed (lines : list str) (i : nat) :
  Forall (Forall (fun c => is_linebreak c = false)) lines ->
  Forall (fun l => l <> [] /\ Forall (fun c => is_linebreak c = false) l)
         (number_lines i lines).
Proof.
  intros H. revert i. induction H as [|l lines Hl _ IH]; intros i; [constructor|].
  cbn [number_lines]. constructor; [|apply IH]. split.
  - intros E. apply (f_equal (@List.length char)) in E.
    rewrite !length_app in E. simpl in E. lia.
  - apply Forall_app. split; [apply fmt04_no_break|].
    apply Forall_app. split; [|exact Hl].
    repeat constructor.
Qed.

Lemma number_lines_nth (lines : list str) (i k : nat) :
  nth_error (number_lines i lines) k
  = option_map (fun line => fmt04 (i + k) ++ py "│ " ++ line) (nth_error lines k).
Proof.
  revert i k. induction lines as [|l lines IH]; intros i [|k]; try reflexivity.
  - cbn [number_lines nth_error option_map]. now rewrite Nat.add_0_r.
  - cbn [number_lines nth_error]. rewrite IH.
    now replace (S i + k) with (i + S k) by lia.
Qed.

(** X14. The numbered text has the lines of the source text, one for
    one: read back with [splitlines], its line [k] (counted from 1) is the
    four-digit [k], the bar and a space, then line [k] of the source, and
    it has no line more. *)
Theorem numbered_text_keeps_the_lines (text : str) (k : nat) :
  nth_error (splitlines (number_srs text)) k
  = option_map (fun line => fmt04 (S k) ++ py "│ " ++ line)
               (nth_error (splitlines text) k).
Proof.
  unfold number_srs.
  rewrite splitlines_join
    by (apply number_lines_wellformed, splitlines_no_break).
  apply number_lines_nth.
Qed.

(** X15. The line numbers of the resolver and of the numbered text
    agree: when the resolver finds an excerpt at line [n] of a text, line
    [n] of the numbered text is that line under the number [n]. *)
Theorem resolved_line_carries_its_number (ratio : str -> str -> Q)
    (text excerpt : str) (n : nat) :
  find_lineno_by_excerpt ratio (splitlines text) excerpt = Some n ->
  exists line,
    line_at (splitlines text) n = Some line
    /\ line_at (splitlines (number_srs text)) n
       = Some (fmt04 n ++ py "│ " ++ line).
Proof.
  intros H. apply find_lineno_Some in H. destruct H as [[H1 H2] _].
  destruct n as [|j]; [lia|]. cbn [line_at].
  destruct (nth_error (splitlines text) j) as [line|] eqn:E.
  - exists line. split; [reflexivity|].
    unfold number_srs.
    rewrite splitlines_join
      by (apply number_lines_wellformed, splitlines_no_break).
    rewrite number_lines_nth, E. reflexivity.
  - apply nth_error_None in E. lia.
Qed.

Lemma resolved_line_carries_its_number_witness :
  let text := py "# Login
The system shall log in.
" in
  let excerpt := py " system shall  " in
  find_lineno_by_excerpt Difflib.ratio (splitlines text) excerpt = Some 2
  /\ exists line,
       line_at (splitlines text) 2 = Some line
       /\ line_at (splitlines (number_srs text)) 2
          = Some (fmt04 2 ++ py "│ " ++ line).
Proof.
  intros text excerpt.
  assert (H : find_lineno_by_excerpt Difflib.ratio (splitlines text) excerpt = Some 2)
    by (vm_compute; reflexivity).
  split; [exact H|].
  exact (resolved_line_carries_its_number Difflib.ratio text excerpt 2 H).
Defined.

Example number_srs_two_lines :
  number_srs (py "# Login
The system shall log in.
") = py "0001│ # Login
0002│ The system shall log in.".
Proof. vm_compute. reflexivity. Qed.

Example number_srs_edges :
  fmt04 (100 * 123) = py "12300" /\ fmt04 7 = py "0007" /\ number_srs [] = [].
Proof. vm_compute. repeat split. Qed.

(** ** GET requests *)

Section GetRetries.

Variable Body : Type.
Variable requests_get : str -> option (nat * nat) -> nat -> str + Body.

Lemma gh_get_loop_step (u : str) (params : option (nat * nat))
    (max_tries left i : nat) (w : World) :
  gh_get_loop Body requests_get u params max_tries (S left) i w
  = match requests_get u params i with
    | inr body => (Returns (Some body), w)
    | inl msg =>
        if i =? max_tries then (Raised (Exception msg), w)
        else gh_get_loop Body requests_get u params max_tries left (S i)
               (after_warn (py "GET retry " ++ str_of_nat i ++ py "/"
                            ++ str_of_nat (max_tries - 1) ++ py " after error: "
                            ++ msg) w)
    end.
Proof.
  cbn [gh_get_loop]. unfold try_except at 1.
  destruct (requests_get u params i) as [msg | body]; [|reflexivity].
  unfold raise at 1. cbv beta iota.
  destruct (i =? max_tries); reflexivity.
Qed.

Lemma gh_get_loop_full (u : str) (params : option (nat * nat))
    (max_tries left i : nat) (w : World) :
  i + S left = S max_tries ->
  let r := gh_get_loop Body requests_get u params max_tries (S left) i w in
  exists n extra,
    1 <= n <= S left
    /\ stdout (snd r) = stdout w ++ extra
    /\ List.length extra = n - 1
    /\ calls (snd r) = calls w
    /\ (forall k, k < n - 1 ->
          exists msg,
            requests_get u params (i + k) = inl msg
            /\ nth_error extra k
               = Some (py "[ci_review][warn] " ++ py "GET retry "
                       ++ str_of_nat (i + k) ++ py "/"
                       ++ str_of_nat (max_tries - 1) ++ py " after error: " ++ msg))
    /\ match requests_get u params (i + (n - 1)) with
       | inr body => fst r = Returns (Some body)
       | inl msg => n = S left /\ fst r = Raised (Exception msg)
       end.
Proof.
  revert i w. induction left as [|left IH]; intros i w Hinv r; subst r;
    rewrite gh_get_loop_step.
  - assert (Hi : i = max_tries) by lia.
    exists 1, []. cbn [Nat.sub]. rewrite Nat.add_0_r, app_nil_r.
    destruct (requests_get u params i) as [msg | body].
    + rewrite (proj2 (Nat.eqb_eq i max_tries) Hi). cbn [fst snd].
      split; [lia|]. split; [reflexivity|]. split; [reflexivity|].
      split; [reflexivity|]. split; [intros k Hk; lia|].
      split; reflexivity.
    + cbn [fst snd].
      split; [lia|]. split; [reflexivity|]. split; [reflexivity|].
      split; [reflexivity|]. split; [intros k Hk; lia|].
      reflexivity.
  - destruct (requests_get u params i) as [msg | body] eqn:E.
    + destruct (Nat.eqb_spec i max_tries) as [Hi | Hi]; [lia|].
      match goal with
      | |- context [gh_get_loop _ _ _ _ _ _ _ ?w0] =>
          destruct (IH (S i) w0 ltac:(lia))
            as [n [extra [Hn [Hout [Hlen [Hc [Hk Hres]]]]]]]
      end.
      cbv zeta in Hout, Hc, Hres.
      exists (S n), ((py "[ci_review][warn] " ++ py "GET retry "
                      ++ str_of_nat i ++ py "/"
                      ++ str_of_nat (max_tries - 1) ++ py " after error: " ++ msg)
                     :: extra).
      split; [lia|]. split.
      { rewrite Hout. unfold after_warn. cbn [stdout].
        now rewrite <- app_assoc. }
      split; [simpl; lia|]. split; [rewrite Hc; reflexivity|]. split.
      { intros [|k] Hlt.
        - exists msg. rewrite Nat.add_0_r. split; [exact E | reflexivity].
        - destruct (Hk k ltac:(lia)) as [m [Hm Hnth]].
          exists m. replace (i + S k) with (S i + k) by lia.
          split; [exact Hm | exact Hnth]. }
      replace (i + (S n - 1)) with (S i + (n - 1)) by lia.
      destruct (requests_get u params (S i + (n - 1))) as [m | body].
      * destruct Hres as [-> Hres]. split; [reflexivity | exact Hres].
      * exact Hres.
    + exists 1, []. cbn [fst snd Nat.sub].
      rewrite app_nil_r, Nat.add_0_r, E.
      split; [lia|]. split; [reflexivity|]. split; [reflexivity|].
      split; [reflexivity|]. split; [intros k Hk; lia|].
      reflexivity.
Qed.

(** X16. [gh_get] with at least one try asks again until an attempt
    succeeds or the tries are used up. With [n] the number of attempts
    made: every attempt before the last failed and printed one warning
    that names the attempt and the error; the result is the response of
    attempt [n] when that succeeded; it raises the error of attempt [n]
    only when [n] is [max_tries]. *)
Theorem gh_get_retries (u token : str) (params : option (nat * nat))
    (max_tries : nat) (w : World) :
  0 < max_tries ->
  let r := gh_get Body requests_get u token params max_tries w in
  exists n extra,
    1 <= n <= max_tries
    /\ stdout (snd r) = stdout w ++ extra
    /\ List.length extra = n - 1
    /\ calls (snd r) = calls w
    /\ (forall k, k < n - 1 ->
          exists msg,
            requests_get u params (S k) = inl msg
            /\ nth_error extra k
               = Some (py "[ci_review][warn] " ++ py "GET retry "
                       ++ str_of_nat (S k) ++ py "/"
                       ++ str_of_nat (max_tries - 1) ++ py " after error: " ++ msg))
    /\ match requests_get u params n with
       | inr body => fst r = Returns (Some body)
       | inl msg => n = max_tries /\ fst r = Raised (Exception msg)
       end.
Proof.
  intros Hmax r. subst r. unfold gh_get.
  destruct max_tries as [|m]; [lia|].
  destruct (gh_get_loop_full u params (S m) m 1 w ltac:(lia))
    as [n [extra [Hn [Hout [Hlen [Hc [Hk Hres]]]]]]].
  cbv zeta in Hout, Hc, Hres.
  exists n, extra. split; [lia|]. split; [exact Hout|]. split; [exact Hlen|].
  split; [exact Hc|]. split; [exact Hk|].
  replace (1 + (n - 1)) with n in Hres by lia. exact Hres.
Qed.

(** Without a try [gh_get] asks nothing and returns nothing. *)
Lemma gh_get_no_try (u token : str) (params : option (nat * nat)) (w : World) :
  gh_get Body requests_get u token params 0 w = (Returns None, w).
Proof. reflexivity. Qed.

(** The answer of [gh_get] does not depend on the log. *)
Lemma gh_get_loop_answer (u : str) (params : option (nat * nat))
    (max_tries left i : nat) (w w' : World) :
  fst (gh_get_loop Body requests_get u params max_tries left i w)
  = fst (gh_get_loop Body requests_get u params max_tries left i w').
Proof.
  revert i w w'. induction left as [|left IH]; intros i w w'; [reflexivity|].
  rewrite !gh_get_loop_step.
  destruct (requests_get u params i) as [msg | body]; [|reflexivity].
  destruct (i =? max_tries); [reflexivity|]. apply IH.
Qed.

End GetRetries.

(** X16 where the first attempt times out and the second succeeds. *)
Lemma gh_get_retries_witness :
  let requests_get := fun (_ : str) (_ : option (nat * nat)) (i : nat) =>
    if i =? 1 then inl (py "timed out") else inr 7 in
  let w := {| LOG_RING := []; stdout := []; http := []; calls := [] |} in
  let r := gh_get nat requests_get (py "u") (py "t") None 3 w in
  0 < 3
  /\ r = (Returns (Some 7),
          after_warn (py "GET retry 1/2 after error: timed out") w)
  /\ exists n extra,
       1 <= n <= 3
       /\ stdout (snd r) = stdout w ++ extra
       /\ List.length extra = n - 1
       /\ match requests_get (py "u") None n with
          | inr body => fst r = Returns (Some body)
          | inl msg => n = 3 /\ fst r = Raised (Exception msg)
          end.
Proof.
  intros requests_get w r.
  assert (H3 : 0 < 3) by lia.
  split; [exact H3|]. split; [vm_compute; reflexivity|].
  destruct (gh_get_retries nat requests_get (py "u") (py "t") None 3 w H3)
    as [n [extra [Hn [Hout [Hlen [_ [_ Hres]]]]]]].
  exists n, extra. split; [exact Hn|]. split; [exact Hout|].
  split; [exact Hlen | exact Hres].
Defined.

(** ** The changed files *)

Section Pages.

Variable requests_get : str -> option (nat * nat) -> nat -> str + list ChangedFile.
Variable token : str.

Lemma gh_get_answer (u : str) (params : option (nat * nat)) (max_tries : nat)
    (w w' : World) :
  fst (gh_get (list ChangedFile) requests_get u token params max_tries w)
  = fst (gh_get (list ChangedFile) requests_get u token params max_tries w').
Proof. apply gh_get_loop_answer. Qed.

Lemma get_changed_files_loop_step (u : str) (fuel page : nat)
    (files : list ChangedFile) (w w1 : World)
    (o : Outcome (option (list ChangedFile))) :
  gh_get (list ChangedFile) requests_get u token (Some (page, 100))
    default_max_tries w = (o, w1) ->
  get_changed_files_loop requests_get u token (S fuel) page files w
  = match o with
    | Returns (Some batch) =>
        if List.length batch <? 100 then (Returns (Some (files ++ batch)), w1)
        else get_changed_files_loop requests_get u token fuel (S page)
               (files ++ batch) w1
    | Returns None =>
        (Raised (Exception (py "'NoneType' object has no attribute 'json'")), w1)
    | Raised e => (Raised e, w1)
    end.
Proof.
  intros E. cbn [get_changed_files_loop]. unfold bind. rewrite E.
  destruct o as [[batch|] | e]; try reflexivity.
  cbv zeta. destruct (List.length batch <? 100); reflexivity.
Qed.

(** The loop from page [S p0] on: [full] are the answers to the next
    pages, each of 100 entries or more, and [final] is the answer to the
    page after them. *)
Lemma get_changed_files_loop_pages (u : str) (w0 : World)
    (final : Outcome (option (list ChangedFile))) (full : list (list ChangedFile)) :
  forall (p0 fuel : nat) (files : list ChangedFile) (w : World),
  (forall j batch, nth_error full j = Some batch ->
     100 <= List.length batch
     /\ fst (gh_get (list ChangedFile) requests_get u token
               (Some (S (p0 + j), 100)) default_max_tries w0)
        = Returns (Some batch)) ->
  fst (gh_get (list ChangedFile) requests_get u token
         (Some (S (p0 + List.length full), 100)) default_max_tries w0)
  = final ->
  List.length full < fuel ->
  match final with
  | Returns (Some batch) =>
      List.length batch < 100 ->
      fst (get_changed_files_loop requests_get u token fuel (S p0) files w)
      = Returns (Some (files ++ concat full ++ batch))
  | Returns None => True
  | Raised e =>
      fst (get_changed_files_loop requests_get u token fuel (S p0) files w)
      = Raised e
  end.
Proof.
  induction full as [|b full IH]; intros p0 fuel files w Hfull Hfinal Hfuel;
    (destruct fuel as [|fuel]; [simpl in Hfuel; lia|]);
    destruct (gh_get (list ChangedFile) requests_get u token (Some (S p0, 100))
                default_max_tries w) as [o w1] eqn:E;
    rewrite (get_changed_files_loop_step u fuel (S p0) files w w1 o E);
    pose proof (gh_get_answer u (Some (S p0, 100)) default_max_tries w0 w) as Hw;
    rewrite E in Hw; cbn [fst] in Hw.
  - cbn [List.length] in Hfinal. rewrite Nat.add_0_r in Hfinal.
    rewrite Hfinal in Hw. subst o.
    destruct final as [[batch|] | e]; [|exact I | reflexivity].
    intros Hshort. apply Nat.ltb_lt in Hshort. rewrite Hshort.
    reflexivity.
  - destruct (Hfull 0 b eq_refl) as [Hlong Hb]. rewrite Nat.add_0_r in Hb.
    rewrite Hb in Hw. subst o.
    assert (Hnot : (List.length b <? 100) = false) by (apply Nat.ltb_ge; exact Hlong).
    rewrite Hnot.
    specialize (IH (S p0) fuel (files ++ b) w1).
    assert (H1 : forall j batch, nth_error full j = Some batch ->
              100 <= List.length batch
              /\ fst (gh_get (list ChangedFile) requests_get u token
                        (Some (S (S p0 + j), 100)) default_max_tries w0)
                 = Returns (Some batch)).
    { intros j batch Hj. specialize (Hfull (S j) batch Hj).
      now replace (p0 + S j) with (S p0 + j) in Hfull by lia. }
    assert (H2 : fst (gh_get (list ChangedFile) requests_get u token
                        (Some (S (S p0 + List.length full), 100))
                        default_max_tries w0) = final).
    { rewrite <- Hfinal. cbn [List.length].
      now replace (p0 + S (List.length full)) with (S p0 + List.length full) by lia. }
    specialize (IH H1 H2 ltac:(simpl in Hfuel; lia)).
    destruct final as [[batch|] | e]; [|exact I | exact IH].
    intros Hshort. rewrite (IH Hshort). cbn [concat].
    now rewrite <- !app_assoc.
Qed.

Variable repo : str.
Variable pr_number : nat.

(** X18. When the request for a page fails for good, after any number of
    full pages, [get_changed_files] raises that error: the entries of the
    pages already read are not returned. *)
Theorem changed_files_lost_on_failure (full : list (list ChangedFile))
    (e : exc) (fuel : nat) (w0 w : World) :
  let u := py "https://api.github.com/repos/" ++ repo ++ py "/pulls/"
           ++ str_of_nat pr_number ++ py "/files" in
  (forall j batch, nth_error full j = Some batch ->
     100 <= List.length batch
     /\ fst (gh_get (list ChangedFile) requests_get u token
               (Some (S j, 100)) default_max_tries w0)
        = Returns (Some batch)) ->
  fst (gh_get (list ChangedFile) requests_get u token
         (Some (S (List.length full), 100)) default_max_tries w0)
  = Raised e ->
  List.length full < fuel ->
  fst (get_changed_files requests_get repo pr_number token fuel w) = Raised e.
Proof.
  intros u Hfull Hfail Hfuel. unfold get_changed_files. fold u.
  exact (get_changed_files_loop_pages u w0 (Raised e) full 0 fuel [] w
           Hfull Hfail Hfuel).
Qed.

End Pages.

(** X18 where the second page fails at each of the three attempts. *)
Lemma changed_files_lost_on_failure_witness :
  let f := {| filename := py "docs/SRS/a.md"; status := py "modified" |} in
  let requests_get := fun (_ : str) (params : option (nat * nat)) (_ : nat) =>
    match params with
    | Some (1, _) => inr (repeat f 100)
    | _ => inl (py "502 Server Error")
    end in
  let w := {| LOG_RING := []; stdout := []; http := []; calls := [] |} in
  List.length [repeat f 100] < 5
  /\ fst (get_changed_files requests_get (py "o/r") 7 (py "t") 5 w)
     = Raised (Exception (py "502 Server Error")).
Proof.
  intros f requests_get w.
  assert (Hfuel : List.length [repeat f 100] < 5) by (simpl; lia).
  split; [exact Hfuel|].
  apply (changed_files_lost_on_failure requests_get (py "t") (py "o/r") 7
           [repeat f 100] (Exception (py "502 Server Error")) 5 w w).
  - intros [|[|j]] batch Hj; cbn [nth_error] in Hj; try discriminate.
    injection Hj as Hb. subst batch.
    split; [apply Nat.leb_le; vm_compute; reflexivity | reflexivity].
  - reflexivity.
  - exact Hfuel.
Defined.

(** A call of [gh_get] depends on the server only through what it
    answers to this request. *)
Lemma gh_get_loop_ext (Body : Type)
    (requests_get requests_get' : str -> option (nat * nat) -> nat -> str + Body)
    (u : str) (params : option (nat * nat)) (max_tries left i : nat) (w : World) :
  (forall k, requests_get' u params k = requests_get u params k) ->
  gh_get_loop Body requests_get' u params max_tries left i w
  = gh_get_loop Body requests_get u params max_tries left i w.
Proof.
  intros Hsame. revert i w. induction left as [|left IH]; intros i w;
    [reflexivity|].
  rewrite !gh_get_loop_step, Hsame.
  destruct (requests_get u params i) as [msg | body]; [|reflexivity].
  destruct (i =? max_tries); [reflexivity | apply IH].
Qed.

(** The loop from page [S p0] on, with two servers that answer alike up
    to the first page that is not full. *)
Lemma get_changed_files_loop_same
    (requests_get requests_get' :
       str -> option (nat * nat) -> nat -> str + list ChangedFile)
    (token u : str) (w0 : World) (short : list ChangedFile)
    (full : list (list ChangedFile)) :
  forall (p0 fuel : nat) (files : list ChangedFile) (w : World),
  (forall j batch, nth_error full j = Some batch ->
     100 <= List.length batch
     /\ fst (gh_get (list ChangedFile) requests_get u token
               (Some (S (p0 + j), 100)) default_max_tries w0)
        = Returns (Some batch)) ->
  fst (gh_get (list ChangedFile) requests_get u token
         (Some (S (p0 + List.length full), 100)) default_max_tries w0)
  = Returns (Some short) ->
  List.length short < 100 ->
  (forall p i, p0 < p <= S (p0 + List.length full) ->
     requests_get' u (Some (p, 100)) i = requests_get u (Some (p, 100)) i) ->
  List.length full < fuel ->
  get_changed_files_loop requests_get' u token fuel (S p0) files w
  = get_changed_files_loop requests_get u token fuel (S p0) files w.
Proof.
  induction full as [|b full IH];
    intros p0 fuel files w Hfull Hfinal Hshort Hsame Hfuel;
    (destruct fuel as [|fuel]; [simpl in Hfuel; lia|]);
    destruct (gh_get (list ChangedFile) requests_get u token (Some (S p0, 100))
                default_max_tries w) as [o w1] eqn:E;
    assert (E' : gh_get (list ChangedFile) requests_get' u token (Some (S p0, 100))
                   default_max_tries w = (o, w1))
      by (rewrite <- E; apply gh_get_loop_ext; intros k; apply Hsame; lia);
    rewrite (get_changed_files_loop_step requests_get token u fuel (S p0) files
               w w1 o E),
            (get_changed_files_loop_step requests_get' token u fuel (S p0) files
               w w1 o E');
    pose proof (gh_get_answer requests_get token u (Some (S p0, 100))
                  default_max_tries w0 w) as Hw;
    rewrite E in Hw; cbn [fst] in Hw.
  - cbn [List.length] in Hfinal. rewrite Nat.add_0_r in Hfinal.
    rewrite Hfinal in Hw. subst o.
    apply Nat.ltb_lt in Hshort. now rewrite Hshort.
  - destruct (Hfull 0 b eq_refl) as [Hlong Hb]. rewrite Nat.add_0_r in Hb.
    rewrite Hb in Hw. subst o.
    assert (Hnot : (List.length b <? 100) = false) by (apply Nat.ltb_ge; exact Hlong).
    rewrite Hnot. cbn [List.length] in Hfinal, Hsame, Hfuel.
    apply IH.
    + intros j batch Hj. specialize (Hfull (S j) batch Hj).
      now replace (p0 + S j) with (S p0 + j) in Hfull by lia.
    + rewrite <- Hfinal.
      now replace (p0 + S (List.length full)) with (S p0 + List.length full) by lia.
    + exact Hshort.
    + intros p i Hp. apply Hsame. lia.
    + lia.
Qed.

(** X17. The changed files are the pages in order: when the pages 1 to
    [k] come back with 100 entries or more each and page [k + 1] with
    fewer, [get_changed_files] returns the entries of the pages 1 to
    [k + 1] in that order. No page after [k + 1] plays a part: with a
    server that answers the pages 1 to [k + 1] alike and any later page
    in any other way, the result, the output and the log are the same.
    The log plays no part either: the pages are given by what [gh_get]
    answers in any one state. *)
Theorem changed_files_are_the_pages
    (requests_get : str -> option (nat * nat) -> nat -> str + list ChangedFile)
    (token repo : str) (pr_number : nat) (full : list (list ChangedFile))
    (short : list ChangedFile) (fuel : nat) (w0 w : World) :
  let u := py "https://api.github.com/repos/" ++ repo ++ py "/pulls/"
           ++ str_of_nat pr_number ++ py "/files" in
  (forall j batch, nth_error full j = Some batch ->
     100 <= List.length batch
     /\ fst (gh_get (list ChangedFile) requests_get u token
               (Some (S j, 100)) default_max_tries w0)
        = Returns (Some batch)) ->
  fst (gh_get (list ChangedFile) requests_get u token
         (Some (S (List.length full), 100)) default_max_tries w0)
  = Returns (Some short) ->
  List.length short < 100 ->
  List.length full < fuel ->
  fst (get_changed_files requests_get repo pr_number token fuel w)
  = Returns (Some (concat full ++ short))
  /\ forall requests_get',
       (forall p i, 1 <= p <= S (List.length full) ->
          requests_get' u (Some (p, 100)) i = requests_get u (Some (p, 100)) i) ->
       get_changed_files requests_get' repo pr_number token fuel w
       = get_changed_files requests_get repo pr_number token fuel w.
Proof.
  intros u Hfull Hshort Hlen Hfuel. unfold get_changed_files. fold u. split.
  - exact (get_changed_files_loop_pages requests_get token u w0
             (Returns (Some short)) full 0 fuel [] w Hfull Hshort Hfuel Hlen).
  - intros requests_get' Hsame.
    apply (get_changed_files_loop_same requests_get requests_get' token u w0
             short full 0 fuel [] w Hfull Hshort Hlen); [|exact Hfuel].
    intros p i Hp. apply Hsame. lia.
Qed.

(** X17 on a pull request with 101 changed files: a full first page and
    a second page of one; a server that would fail on every later page
    gives the same run as one that would answer them. *)
Lemma changed_files_are_the_pages_witness :
  let f := {| filename := py "docs/SRS/a.md"; status := py "modified" |} in
  let g := {| filename := py "README.md"; status := py "added" |} in
  let requests_get := fun (_ : str) (params : option (nat * nat)) (_ : nat) =>
    match params with
    | Some (1, _) => inr (repeat f 100)
    | Some (2, _) => inr [g]
    | _ => inl (py "Not Found")
    end in
  let requests_get' := fun (_ : str) (params : option (nat * nat)) (_ : nat) =>
    match params with
    | Some (1, _) => inr (repeat f 100)
    | Some (2, _) => inr [g]
    | _ => inr (repeat g 100)
    end in
  let w := {| LOG_RING := []; stdout := []; http := []; calls := [] |} in
  List.length [g] < 100
  /\ fst (get_changed_files requests_get (py "o/r") 7 (py "t") 5 w)
     = Returns (Some (concat [repeat f 100] ++ [g]))
  /\ get_changed_files requests_get' (py "o/r") 7 (py "t") 5 w
     = get_changed_files requests_get (py "o/r") 7 (py "t") 5 w.
Proof.
  intros f g requests_get requests_get' w.
  assert (Hlen : List.length [g] < 100) by (simpl; lia).
  split; [exact Hlen|].
  destruct (changed_files_are_the_pages requests_get (py "t") (py "o/r") 7
              [repeat f 100] [g] 5 w w) as [Hres Hsame].
  - intros [|[|j]] batch Hj; cbn [nth_error] in Hj; try discriminate.
    injection Hj as Hb. subst batch.
    split; [apply Nat.leb_le; vm_compute; reflexivity | reflexivity].
  - reflexivity.
  - exact Hlen.
  - simpl. lia.
  - split; [exact Hres|]. apply Hsame.
    intros [|[|[|p]]] i Hp; cbn [List.length] in Hp; try lia; reflexivity.
Defined.

(** ** The layout of a rendered comment *)

Lemma no_break_by_computation (l : str) :
  forallb (fun c => negb (is_linebreak c)) l = true ->
  Forall (fun c => is_linebreak c = false) l.
Proof.
  intros H. apply Forall_forall. intros c Hc.
  apply (proj1 (forallb_forall _ _) H) in Hc.
  now apply negb_true_iff in Hc.
Qed.

Lemma Forall_filter_truthy (P : str -> Prop) (parts : list str) :
  Forall P parts ->
  Forall (fun l => l <> [] /\ P l) (filter truthy parts).
Proof.
  intros H. apply Forall_forall. intros l Hl.
  apply filter_In in Hl. destruct Hl as [Hin Ht]. split.
  - now apply truthy_true.
  - exact (proj1 (Forall_forall P parts) H l Hin).
Qed.

(** X19. A rendered comment has no empty line: when the cleaned excerpt,
    the trimmed detail and the axes hold no line end, its lines are the
    heading, the axes line, the excerpt label, the opening fence, the
    excerpt, the closing fence and the detail, without those of them that
    are empty. *)
Theorem rendered_comment_has_no_blank_line (excerpt detail : str) (axes : Axes) :
  let ex := _sanitize_fence excerpt in
  let dt := strip detail in
  let ax := join (py ", ") (axes_elements axes) in
  Forall (fun c => is_linebreak c = false) ex ->
  Forall (fun c => is_linebreak c = false) dt ->
  Forall (fun c => is_linebreak c = false) ax ->
  splitlines (render_ai_review_comment excerpt detail axes)
  = filter truthy
      [py "### AI Review"; (if truthy ax then py "**axes:** " ++ ax else []);
       py "**excerpt:**"; py "```text"; ex; py "```"; dt]
  /\ Forall (fun l => l <> [])
       (splitlines (render_ai_review_comment excerpt detail axes)).
Proof.
  intros ex dt ax Hex Hdt Hax.
  assert (Hparts :
    Forall (Forall (fun c => is_linebreak c = false))
      [py "### AI Review"; (if truthy ax then py "**axes:** " ++ ax else []);
       py "**excerpt:**"; py "```text"; ex; py "```"; dt]).
  { repeat constructor; try assumption;
      try (apply no_break_by_computation; reflexivity).
    destruct (truthy ax); [|constructor].
    apply Forall_app. split; [|exact Hax].
    apply no_break_by_computation. reflexivity. }
  apply Forall_filter_truthy in Hparts.
  assert (E : render_ai_review_comment excerpt detail axes
              = join newline
                  (filter truthy
                     [py "### AI Review";
                      (if truthy ax then py "**axes:** " ++ ax else []);
                      py "**excerpt:**"; py "```text"; ex; py "```"; dt]))
    by reflexivity.
  rewrite E, (splitlines_join _ Hparts). split; [reflexivity|].
  eapply Forall_impl; [|exact Hparts]. intros l [Hl _]. exact Hl.
Qed.

Lemma rendered_comment_has_no_blank_line_witness :
  let excerpt := py "  The system shall log in.  " in
  let detail := py "" in
  let axes := AxesList [py "clarity"; py "testability"] in
  let ex := _sanitize_fence excerpt in
  let dt := strip detail in
  let ax := join (py ", ") (axes_elements axes) in
  Forall (fun c => is_linebreak c = false) ex
  /\ Forall (fun c => is_linebreak c = false) dt
  /\ Forall (fun c => is_linebreak c = false) ax
  /\ splitlines (render_ai_review_comment excerpt detail axes)
     = [py "### AI Review"; py "**axes:** clarity, testability"; py "**excerpt:**";
        py "```text"; py "The system shall log in."; py "```"].
Proof.
  intros excerpt detail axes ex dt ax.
  assert (Hex : Forall (fun c => is_linebreak c = false) ex)
    by (apply no_break_by_computation; reflexivity).
  assert (Hdt : Forall (fun c => is_linebreak c = false) dt)
    by (apply no_break_by_computation; reflexivity).
  assert (Hax : Forall (fun c => is_linebreak c = false) ax)
    by (apply no_break_by_computation; reflexivity).
  split; [exact Hex|]. split; [exact Hdt|]. split; [exact Hax|].
  exact (proj1 (rendered_comment_has_no_blank_line excerpt detail axes Hex Hdt Hax)).
Defined.

(** ** The selection of the SRS files *)

Lemma endswith_spec (suf s : str) :
  endswith suf s = true <-> exists t, s = t ++ suf.
Proof.
  unfold endswith. rewrite startswith_spec. split; intros [t Ht].
  - exists (rev t). apply (f_equal (@rev char)) in Ht.
    now rewrite rev_involutive, rev_app_distr, rev_involutive in Ht.
  - exists (rev t). now rewrite Ht, rev_app_distr.
Qed.

(** X20. The files kept for review are those whose path is
    [docs/SRS/], anything, [.md]: the two tests cannot be met by
    overlapping parts of the name, and whatever stands between them is
    accepted, further directories included. *)
Theorem srs_file_iff (f : ChangedFile) :
  is_srs_file f = true
  <-> exists mid, filename f = py "docs/SRS/" ++ mid ++ py ".md".
Proof.
  unfold is_srs_file. rewrite andb_true_iff, startswith_spec, endswith_spec.
  split.
  - intros [[t Ht] [y Hy]]. rewrite Ht in Hy.
    apply app_eq_app in Hy. destruct Hy as [l [[Hp Hs] | [Hy Hs]]].
    + destruct l as [|c l].
      * exists []. rewrite Ht. simpl in Hs. now rewrite <- Hs.
      * exfalso.
        assert (Hc : c = 46%N) by (vm_compute in Hs; congruence).
        assert (Hin : In 46%N (py "docs/SRS/"))
          by (rewrite Hp, <- Hc; apply in_or_app; right; left; reflexivity).
        vm_compute in Hin.
        repeat (destruct Hin as [Hin | Hin]; [discriminate|]). exact Hin.
    + exists l. now rewrite Ht, Hs.
  - intros [mid Hm]. split.
    + now exists (mid ++ py ".md").
    + exists (py "docs/SRS/" ++ mid). now rewrite Hm, <- app_assoc.
Qed.

(** A selection: further directories pass; another directory, another
    case of the extension, or a name without the directory do not. *)
Example select_srs_files_run :
  let file := fun name : string =>
    {| filename := py name; status := py "modified" |} in
  select_srs_files
    [file "docs/SRS/a.md"%string; file "README.md"%string;
     file "docs/SRS/sub/b.md"%string;
     file "docs/SRS.md"%string; file "docs/srs/c.md"%string;
     file "docs/SRS/.md"%string;
     file "docs/SRS/d.MD"%string]
  = [file "docs/SRS/a.md"%string; file "docs/SRS/sub/b.md"%string;
     file "docs/SRS/.md"%string].
Proof. vm_compute. reflexivity. Qed.

(** ** Reading the numbered text back *)

Lemma fmt04_width (k : nat) :
  k < 100 * 100 -> List.length (fmt04 k) = 4.
Proof.
  intros Hk.
  assert (H : forallb (fun i => List.length (fmt04 i) =? 4) (seq 0 (100 * 100)) = true)
    by (vm_compute; reflexivity).
  apply Nat.eqb_eq.
  apply (proj1 (forallb_forall _ _) H k). apply in_seq. lia.
Qed.

Lemma number_lines_strip (lines : list str) (i : nat) :
  i + List.length lines <= 100 * 100 ->
  map (skipn 6) (number_lines i lines) = lines.
Proof.
  revert i. induction lines as [|l lines IH]; intros i Hi; [reflexivity|].
  cbn [List.length] in Hi. cbn [number_lines map].
  rewrite IH by lia. f_equal.
  rewrite skipn_app, (fmt04_width i) by lia.
  rewrite (skipn_all2 (fmt04 i)) by (rewrite fmt04_width; lia).
  reflexivity.
Qed.

(** X21. For a text of fewer than 10000 lines the numbering can be taken
    off again: every numbered line starts with six characters of number
    and bar, and dropping them gives the lines of the source. *)
Theorem numbering_round_trip (text : str) :
  List.length (splitlines text) < 100 * 100 ->
  map (skipn 6) (splitlines (number_srs text)) = splitlines text.
Proof.
  intros H. unfold number_srs.
  rewrite splitlines_join
    by (apply number_lines_wellformed, splitlines_no_break).
  apply number_lines_strip. lia.
Qed.

Lemma numbering_round_trip_witness :
  let text := py "# Login

The system shall log in.
" in
  List.length (splitlines text) < 100 * 100
  /\ map (skipn 6) (splitlines (number_srs text)) = splitlines text.
Proof.
  intros text.
  assert (H : List.length (splitlines text) < 100 * 100)
    by (apply Nat.ltb_lt; vm_compute; reflexivity).
  split; [exact H|].
  exact (numbering_round_trip text H).
Defined.

(* ================================================================== *)
(** * The normalization, in the words of the specification *)
(* ================================================================== *)

Lemma rstrip_cons_keep (c : char) (t : str) :
  isspace c = false -> rstrip (c :: t) = c :: rstrip t.
Proof.
  intros Hc. unfold rstrip. cbn [rev]. rewrite lstrip_app.
  destruct (lstrip (rev t)) as [|x l].
  - cbn [lstrip]. now rewrite Hc.
  - now rewrite rev_app_distr.
Qed.

Lemma rstrip_cons_space (c : char) (t : str) :
  isspace c = true ->
  rstrip (c :: t) = match rstrip t with [] => [] | _ :: _ => c :: rstrip t end.
Proof.
  intros Hc. unfold rstrip. cbn [rev]. rewrite lstrip_app.
  destruct (lstrip (rev t)) as [|x l] eqn:E.
  - cbn [lstrip]. now rewrite Hc.
  - rewrite rev_app_distr. cbn [rev app].
    destruct (rev l ++ [x]) as [|y l'] eqn:E'; [|reflexivity].
    destruct (rev l); discriminate.
Qed.

Lemma words_nonempty (s : str) : Forall (fun w => w <> []) (words s).
Proof.
  induction s as [|c r IH]; [constructor|]. cbn [words].
  destruct (isspace c); [exact IH|].
  destruct r as [|d r']; [repeat constructor; discriminate|].
  destruct (isspace d); [constructor; [discriminate | exact IH]|].
  destruct (words (d :: r')) as [|w ws]; [repeat constructor; discriminate|].
  inversion IH; subst. constructor; [discriminate | assumption].
Qed.

Lemma words_head (d : char) (r : str) :
  isspace d = false -> words (d :: r) <> [].
Proof.
  intros Hd. cbn [words]. rewrite Hd.
  destruct r as [|x r']; [discriminate|].
  destruct (isspace x); [discriminate|].
  destruct (words (x :: r')); discriminate.
Qed.

Lemma join_cons_nonempty (sep w : str) (ws : list str) :
  w <> [] -> join sep (w :: ws) <> [].
Proof.
  intros Hw. destruct w as [|x w]; [contradiction|].
  destruct ws; discriminate.
Qed.

Lemma join_cons_char (sep : str) (c : char) (w : str) (ws : list str) :
  join sep ((c :: w) :: ws) = c :: join sep (w :: ws).
Proof. destruct ws; reflexivity. Qed.

(** What the code does to a string that follows whitespace, up to the
    whitespace at its end, is the normal form. *)
Lemma collapse_ws_words (s : str) :
  rstrip (collapse_ws true s) = whitespace_normalized s.
Proof.
  unfold whitespace_normalized.
  induction s as [|c r IH]; [reflexivity|].
  cbn [collapse_ws words]. destruct (isspace c) eqn:Hc; [exact IH|].
  rewrite rstrip_cons_keep by exact Hc.
  destruct r as [|d r']; [reflexivity|].
  cbn [collapse_ws] in IH |- *. destruct (isspace d) eqn:Hd.
  - rewrite rstrip_cons_space by reflexivity. rewrite IH.
    pose proof (words_nonempty (d :: r')) as Hne.
    destruct (words (d :: r')) as [|w ws]; [reflexivity|].
    inversion Hne; subst.
    change (join [32%N] ([c] :: w :: ws))
      with (c :: 32%N :: join [32%N] (w :: ws)).
    destruct (join [32%N] (w :: ws)) as [|x l] eqn:E.
    + exfalso. now apply (join_cons_nonempty [32%N] w ws).
    + reflexivity.
  - rewrite IH.
    pose proof (words_head d r' Hd) as Hne.
    destruct (words (d :: r')) as [|w ws]; [contradiction|].
    now rewrite join_cons_char.
Qed.

Lemma collapse_ws_true_head (s : str) :
  lstrip (collapse_ws true s) = collapse_ws true s.
Proof.
  induction s as [|c r IH]; [reflexivity|]. cbn [collapse_ws].
  destruct (isspace c) eqn:Hc; [exact IH|].
  cbn [lstrip]. now rewrite Hc.
Qed.

(** The code's [norm] computes the normal form of the specification. *)
Lemma norm_is_whitespace_normalized (s : str) :
  norm s = whitespace_normalized s.
Proof.
  unfold norm, strip. rewrite <- collapse_ws_words. f_equal.
  destruct s as [|c r]; [reflexivity|]. cbn [collapse_ws].
  destruct (isspace c) eqn:Hc.
  - cbn [lstrip]. change (isspace 32%N) with true. cbv iota.
    apply collapse_ws_true_head.
  - cbn [lstrip]. now rewrite Hc.
Qed.

Lemma words_spaces (b : str) : forallb isspace b = true -> words b = [].
Proof.
  induction b as [|c b IH]; [reflexivity|]. cbn [forallb words].
  intros H. apply andb_true_iff in H. destruct H as [Hc Hb].
  rewrite Hc. now apply IH.
Qed.

Lemma words_app_spaces (t b : str) :
  forallb isspace b = true -> words (t ++ b) = words t.
Proof.
  intros Hb. induction t as [|c r IH].
  - now apply words_spaces.
  - cbn [app words]. destruct (isspace c); [exact IH|].
    destruct r as [|d r'].
    + cbn [app]. destruct b as [|x b']; [reflexivity|].
      pose proof Hb as Hx. cbn [forallb] in Hx.
      apply andb_true_iff in Hx. destruct Hx as [Hx _].
      rewrite Hx. now rewrite (words_spaces (x :: b') Hb).
    + cbn [app] in IH |- *. destruct (isspace d); now rewrite IH.
Qed.

Lemma words_lstrip (s : str) : words (lstrip s) = words s.
Proof.
  induction s as [|c r IH]; [reflexivity|]. cbn [lstrip].
  destruct (isspace c) eqn:Hc; [|reflexivity].
  rewrite IH. cbn [words]. now rewrite Hc.
Qed.

Lemma lstrip_split (s : str) :
  exists a, s = a ++ lstrip s /\ forallb isspace a = true.
Proof.
  induction s as [|c r [a [Ha Hs]]]; [now exists []|]. cbn [lstrip].
  destruct (isspace c) eqn:Hc.
  - exists (c :: a). cbn [app forallb]. rewrite Hc, Hs. split; [|reflexivity].
    now rewrite <- Ha.
  - now exists [].
Qed.

Lemma words_rstrip (s : str) : words (rstrip s) = words s.
Proof.
  destruct (lstrip_split (rev s)) as [a [Ha Hs]].
  assert (E : s = rstrip s ++ rev a).
  { unfold rstrip. rewrite <- rev_app_distr, <- Ha. now rewrite rev_involutive. }
  rewrite E at 2. symmetry. apply words_app_spaces.
  apply forallb_forall. intros x Hx. apply in_rev in Hx.
  exact (proj1 (forallb_forall isspace a) Hs x Hx).
Qed.

(** Trimming first changes nothing of the normal form. *)
Lemma whitespace_normalized_strip (s : str) :
  whitespace_normalized (strip s) = whitespace_normalized s.
Proof.
  unfold whitespace_normalized, strip. now rewrite words_rstrip, words_lstrip.
Qed.

(** The score of a line in the fuzzy pass is the score of the two normal
    forms. *)
Lemma similarity_normalized (ratio : str -> str -> Q) (excerpt ln : str) :
  similarity ratio excerpt ln
  = ratio (whitespace_normalized excerpt) (whitespace_normalized ln).
Proof.
  unfold similarity.
  now rewrite !norm_is_whitespace_normalized, whitespace_normalized_strip.
Qed.

(** C2. The resolver answers "unresolved" exactly when the excerpt is
    empty after trimming, or no line contains the trimmed excerpt and, for
    every line, the score of the normalized excerpt against the normalized
    line is below 0.60. Normalized is meant as the specification says it:
    every run of whitespace collapsed to a single space, and trimmed
    ([whitespace_normalized], the words with one space between them); that
    the code's own [norm] computes this form is part of the proof. The
    score is any function [ratio]; [Difflib.ratio] is the one of
    [SequenceMatcher]. *)
Theorem C2_unresolved_iff (ratio : str -> str -> Q) (lines : list str)
    (excerpt : str) :
  find_lineno_by_excerpt ratio lines excerpt = None
  <-> (strip excerpt = []
       \/ ((forall ln, In ln lines -> ~ Substring (strip excerpt) ln)
           /\ forall ln, In ln lines ->
                (ratio (whitespace_normalized excerpt) (whitespace_normalized ln)
                 < 6 # 10)%Q)).
Proof.
  rewrite find_lineno_None_iff. split.
  - intros [H | [Hno Hlow]]; [now left | right]. split; [exact Hno|].
    intros ln Hin. rewrite <- similarity_normalized. now apply Hlow.
  - intros [H | [Hno Hlow]]; [now left | right]. split; [exact Hno|].
    intros ln Hin. rewrite similarity_normalized. now apply Hlow.
Qed.

(** The normal form on the excerpt of the specification's example, with
    tabs, a line end and a no-break space among the whitespace; and the
    score the resolver compares with 0.60 for it. *)
Example whitespace_normalized_run :
  words (py "  the  quick	 brown
fox! ") = [py "the"; py "quick"; py "brown"; py "fox!"]
  /\ whitespace_normalized (py "  the  quick	 brown
fox! ") = py "the quick brown fox!"
  /\ whitespace_normalized [160; 97; 8195; 8195; 98; 12288]%N = py "a b"
  /\ whitespace_normalized (py " 	 ") = []
  /\ Difflib.ratio (whitespace_normalized (py "the  quick   brown  fox!"))
                   (whitespace_normalized (py "the quick brown fox"))
     = Qmake 38 39.
Proof. vm_compute. repeat split. Qed.

(* ================================================================== *)
(** * The storage keys, in the words of the specification *)
(* ================================================================== *)

Lemma split1_snd_Some_inv (nm rest : str) :
  split1_snd (py "__") nm = Some rest ->
  exists stem,
    nm = stem ++ py "__" ++ rest /\ ~ Substring (py "__") (stem ++ py "_").
Proof.
  revert rest. induction nm as [|c r IH]; intros rest; [discriminate|].
  cbn [split1_snd].
  destruct (startswith (py "__") (c :: r)) eqn:E.
  - apply startswith_spec in E. destruct E as [t Ht]. rewrite Ht.
    intros H. injection H as <-.
    exists []. split; [reflexivity|].
    apply contains_false. reflexivity.
  - intros H. destruct (IH rest H) as [stem [Hr Hleft]].
    exists (c :: stem). split; [cbn [app]; now rewrite <- Hr|].
    intros [pre [post Hs]]. destruct pre as [|x pre].
    + assert (Hstart : startswith (py "__") (c :: r) = true); [|congruence].
      apply startswith_spec. rewrite Hr.
      change (py "__") with [95; 95]%N in *. change (py "_") with [95%N] in *.
      destruct stem as [|d stem]; cbn [app] in Hs |- *.
      * injection Hs as -> _. now exists (95%N :: rest).
      * injection Hs as -> -> _. now exists (stem ++ 95%N :: 95%N :: rest).
    + apply Hleft. exists pre, post. cbn [app] in Hs. now injection Hs.
Qed.

Lemma rsplit1_aux_None_inv (c : char) (s : str) :
  rsplit1_aux c s = None -> ~ In c s.
Proof.
  induction s as [|x r IH]; cbn [rsplit1_aux]; [intros _ []|].
  destruct (rsplit1_aux c r); [discriminate|].
  destruct (char_eqb x c) eqn:E; [discriminate|].
  intros _ [Hx | Hin]; [|now apply IH].
  subst x. unfold char_eqb in E. now rewrite N.eqb_refl in E.
Qed.

Lemma rsplit1_aux_Some_inv (c : char) (s before : str) :
  rsplit1_aux c s = Some before ->
  exists ext, s = before ++ c :: ext /\ ~ In c ext.
Proof.
  revert before. induction s as [|x r IH]; intros before; cbn [rsplit1_aux];
    [discriminate|].
  destruct (rsplit1_aux c r) as [b'|] eqn:E.
  - intros H. injection H as <-.
    destruct (IH b' eq_refl) as [ext [-> Hext]]. now exists ext.
  - destruct (char_eqb x c) eqn:Ex; [|discriminate].
    intros H. injection H as <-. apply char_eqb_eq in Ex. subst x.
    exists r. split; [reflexivity | now apply rsplit1_aux_None_inv].
Qed.

(** The code's expression reads a key as the convention says. *)
Lemma model_of_reads (nm model : str) :
  model_of nm = Some model <-> model_named nm model.
Proof.
  split.
  - unfold model_of.
    destruct (split1_snd (py "__") nm) as [rest|] eqn:E; [|discriminate].
    intros H. injection H as <-.
    destruct (split1_snd_Some_inv nm rest E) as [stem [-> Hleft]].
    exists stem. split; [exact Hleft|]. unfold rsplit1_fst.
    destruct (rsplit1_aux 46%N rest) as [before|] eqn:R.
    + left. destruct (rsplit1_aux_Some_inv _ _ _ R) as [ext [-> Hext]].
      exists ext. split; [exact Hext | reflexivity].
    + right. split; [now apply rsplit1_aux_None_inv | reflexivity].
  - intros [stem [Hleft [[ext [Hext ->]] | [Hm ->]]]]; unfold model_of;
      rewrite split1_snd_first by exact Hleft; f_equal.
    + change (model ++ py "." ++ ext) with (model ++ 46%N :: ext).
      now apply rsplit1_last.
    + unfold rsplit1_fst. now rewrite rsplit1_aux_absent.
Qed.

Lemma model_named_functional (nm m1 m2 : str) :
  model_named nm m1 -> model_named nm m2 -> m1 = m2.
Proof.
  intros H1 H2. apply model_of_reads in H1, H2. congruence.
Qed.

Lemma filter_filter_implied {A} (f g : A -> bool) (l : list A) :
  (forall x, In x l -> f x = true -> g x = true) ->
  filter f (filter g l) = filter f l.
Proof.
  induction l as [|x l IH]; intros H; [reflexivity|]. cbn [filter].
  destruct (g x) eqn:G.
  - cbn [filter]. rewrite IH; [reflexivity|].
    intros y Hy. apply H. now right.
  - destruct (f x) eqn:F.
    + rewrite (H x (or_introl eq_refl) F) in G. discriminate.
    + apply IH. intros y Hy. apply H. now right.
Qed.

(** C4. For every collection of storage keys with modification times:
    the selector returns at most one key per model name (two selected
    keys of one model stand at the same place of the result); every
    selected key is one of the candidates, has a model name, and no
    candidate of that model is more recent; every model of a candidate is
    represented; and the keys that do not parse are discarded without
    effect: taking any of them away from the candidates leaves the
    selection as it is. The model name of a key is read under the
    convention [<stem>__<model>] with the extension stripped, as the
    specification words it ([model_named]): the stem is what stands
    before the first double underscore, the model what stands between it
    and the last dot; that the code's expression reads keys in this way is
    part of the proof. *)
Theorem C4_latest_per_model (globbed : list ResultFile) :
  let picked := pick_latest_result_jsons_for_stem globbed in
  (forall i j p q m,
     nth_error picked i = Some p -> nth_error picked j = Some q ->
     model_named (name p) m -> model_named (name q) m -> i = j)
  /\ (forall p, In p picked ->
        In p globbed
        /\ exists m, model_named (name p) m
             /\ forall q, In q globbed -> model_named (name q) m ->
                  (st_mtime q <= st_mtime p)%Z)
  /\ (forall q m, In q globbed -> model_named (name q) m ->
        exists p, In p picked /\ model_named (name p) m)
  /\ (forall keep : ResultFile -> bool,
        (forall q, In q globbed -> keep q = false ->
           ~ exists m, model_named (name q) m) ->
        pick_latest_result_jsons_for_stem (filter keep globbed) = picked).
Proof.
  cbv zeta.
  destruct (selection_by_model_of globbed) as [Hnd [Hbest [Hall Hparse]]].
  cbv zeta in Hnd, Hbest, Hall, Hparse.
  split; [|split; [|split]].
  - intros i j p q m Hi Hj Hp Hq.
    apply model_of_reads in Hp, Hq.
    apply (proj1 (NoDup_nth_error _) Hnd).
    + rewrite length_map. apply nth_error_Some. congruence.
    + rewrite !nth_error_map, Hi, Hj. cbn [option_map]. congruence.
  - intros p Hp. destruct (Hbest p Hp) as [Hin [m [Hm Hmax]]].
    split; [exact Hin|]. exists m. split; [now apply model_of_reads|].
    intros q Hq Hqm. apply Hmax; [exact Hq | now apply model_of_reads].
  - intros q m Hq Hm. apply model_of_reads in Hm.
    destruct (Hall q m Hq Hm) as [p [Hp Hpm]].
    exists p. split; [exact Hp | now apply model_of_reads].
  - intros keep Hkeep.
    destruct (selection_by_model_of (filter keep globbed)) as [_ [_ [_ Hk]]].
    cbv zeta in Hk. rewrite <- Hk, <- Hparse. f_equal.
    apply filter_filter_implied. intros q Hq Hpq.
    destruct (keep q) eqn:K; [reflexivity|]. exfalso.
    apply (Hkeep q Hq K). unfold parses in Hpq.
    destruct (model_of (name q)) as [m|] eqn:M; [|discriminate].
    exists m. now apply model_of_reads.
Qed.

(** C4 on the stale-file scenario of the specification: an older and a
    re-written [se24g2__gpt-5.json], one [se24g2__gpt-4.1.json], and a key
    without the separator, which is the most recent of all. The models
    read are [gpt-5] and [gpt-4.1], the dot of [4.1] kept. *)
Lemma C4_latest_per_model_witness :
  let old5 := {| name := py "se24g2__gpt-5.json"; st_mtime := 100;
                 content := inl [] |} in
  let new5 := {| name := py "se24g2__gpt-5.json"; st_mtime := 200;
                 content := inl [] |} in
  let g41 := {| name := py "se24g2__gpt-4.1.json"; st_mtime := 150;
                content := inl [] |} in
  let odd := {| name := py "se24g2-notes.json"; st_mtime := 300;
                content := inl [] |} in
  let globbed := [old5; odd; g41; new5] in
  let keep := fun q : ResultFile => negb (str_eqb (name q) (name odd)) in
  pick_latest_result_jsons_for_stem globbed = [new5; g41]
  /\ model_named (name new5) (py "gpt-5")
  /\ model_named (name g41) (py "gpt-4.1")
  /\ (forall q, In q globbed -> keep q = false ->
        ~ exists m, model_named (name q) m)
  /\ (forall q, In q globbed -> model_named (name q) (py "gpt-5") ->
        (st_mtime q <= st_mtime new5)%Z)
  /\ pick_latest_result_jsons_for_stem (filter keep globbed) = [new5; g41].
Proof.
  intros old5 new5 g41 odd globbed keep.
  assert (Hpick : pick_latest_result_jsons_for_stem globbed = [new5; g41])
    by (vm_compute; reflexivity).
  assert (H5 : model_named (name new5) (py "gpt-5")).
  { exists (py "se24g2"). split; [apply contains_false; reflexivity|].
    left. exists (py "json"). split; [|reflexivity].
    vm_compute. intuition discriminate. }
  assert (H41 : model_named (name g41) (py "gpt-4.1")).
  { exists (py "se24g2"). split; [apply contains_false; reflexivity|].
    left. exists (py "json"). split; [|reflexivity].
    vm_compute. intuition discriminate. }
  assert (Hodd : forall q, In q globbed -> keep q = false ->
                   ~ exists m, model_named (name q) m).
  { intros q [<- | [<- | [<- | [<- | []]]]] K; try discriminate K.
    intros [m Hm]. apply model_of_reads in Hm. discriminate Hm. }
  destruct (C4_latest_per_model globbed) as [_ [Hbest [_ Hkeep]]].
  cbv zeta in Hbest, Hkeep.
  split; [exact Hpick|]. split; [exact H5|]. split; [exact H41|].
  split; [exact Hodd|]. split.
  - destruct (Hbest new5) as [_ [m [Hm Hmax]]].
    + rewrite Hpick. now left.
    + rewrite (model_named_functional _ _ _ H5 Hm). exact Hmax.
  - rewrite (Hkeep keep Hodd). exact Hpick.
Defined.
